(** * research_knowledge_graph: entity resolution, edge materialisation and
      candidate-pair pruning

    A shallow embedding of the graph-construction core of the repository:

    - [utils/text_sanitizer.py]          ([sanitize_string], [sanitize_dict], ...)
    - [agents/validation_agent.py]       ([ValidationAgent])
    - [graph/models.py]                  ([Node], [Edge], [ExtractedEntity], ...)
    - [db/repository.py]                 ([GraphRepository], as an in-memory store)
    - [services/ingestion_service.py]    ([IngestionService.ingest_paper])
    - [agents/relationship_linking_agent.py] ([infer_relationships],
                                          [_infer_with_llm])
    - [services/graph_service.py]        (the three linking passes and the
                                          queries on one paper)
    - [agents/paper_ingestion_agent.py]  ([_chunk_text])

    Python values are modelled as follows.

    - [str] is a list of Unicode code points ([N]).  Whitespace follows
      CPython's table for the whole of Unicode.  The casing tables are exact
      on U+0000..U+007F and on the two code points U+0149 and U+02BC; every
      other code point is treated as caseless, which Python does not do
      (it lowers U+00C9 and capitalises U+00E9).  A statement whose truth
      rests on the casing tables themselves is therefore made for ASCII
      labels: what [_normalize_label] returns, what the deduplication key
      is, which entities are grouped.  U+0149 serves to show that
      normalisation is not idempotent.
    - [float] confidences are rationals ([Q]), which stand for the finite
      floats; only comparisons with the constants 0 and 1 are ever performed
      on them.  The float product [chunk_size * 0.7] of [_chunk_text] is a
      parameter of the model.
    - [dict]s that are iterated are association lists in insertion order;
      dicts and sets that are only probed are [gmap]s and [gset]s.  A Python
      [set] is iterated in the order of [elements]; no statement depends on
      that order.
    - [uuid4()] draws the next identifier from a counter kept in the store.
    - A raised exception is [None] in an [option] result.  In a linking
      pass, which writes to the database as it goes, the exception of the
      debugger is a flag of the state of the pass: the store is what the
      database holds when the exception leaves the pass.
    - The metadata of an ingested document is typed: a field that ends in a
      string column is a string, [null] or absent, and [year] is an integer
      or missing.  A [null] title or abstract makes a constructor raise.
    - The [while] loop of [_chunk_text] runs on fuel, and [None] is a loop
      that has not ended when the fuel is used up.
    - The database executes every statement it is given; the columns
      [created_at], [updated_at] and [embedding] are left out, as no modelled
      code reads them.

    The file has three parts: the embedding of the source, module by module;
    the reference definitions and predicates that the statements use; and
    the properties, those of the specification (C1 to C10) and further
    properties of the code (X1 and following), each after the lemmas it
    rests on. *)

From Stdlib Require Import NArith QArith Lqa Strings.String Strings.Ascii.
From stdpp Require Import base option list sorting gmap.

Local Open Scope N_scope.

(** ** Python strings *)

Module Py.

Abbreviation str := (list N).

(** A Rocq string literal read as a Python string. *)
Definition lit (s : string) : str :=
  map N_of_ascii (list_ascii_of_string s).

(** [str.isspace] on one code point (CPython's [_PyUnicode_IsWhitespace]). *)
Definition isspace (c : N) : bool :=
  ((0x09 <=? c) && (c <=? 0x0D)) || ((0x1C <=? c) && (c <=? 0x20))
  || (c =? 0x85) || (c =? 0xA0) || (c =? 0x1680)
  || ((0x2000 <=? c) && (c <=? 0x200A))
  || (c =? 0x2028) || (c =? 0x2029) || (c =? 0x202F) || (c =? 0x205F)
  || (c =? 0x3000).

(** Casing of one code point, as Python has it on U+0000..U+007F, U+0149 and
    U+02BC: U+0149 is a lowercase letter whose title-case form is the two
    code points U+02BC U+004E, and U+02BC is a caseless modifier letter.
    The letters beyond U+007F other than these two are not in the tables:
    the four functions are used on ASCII strings and on U+0149. *)
Definition islower_cp (c : N) : bool :=
  ((0x61 <=? c) && (c <=? 0x7A)) || (c =? 0x149).

Definition isupper_cp (c : N) : bool :=
  (0x41 <=? c) && (c <=? 0x5A).

Definition tolower_cp (c : N) : N :=
  if isupper_cp c then c + 32 else c.

Definition totitle_cp (c : N) : str :=
  if (0x61 <=? c) && (c <=? 0x7A) then [c - 32]
  else if c =? 0x149 then [0x2BC; 0x4E]
  else [c].

(** [s.lower()] *)
Definition lower (s : str) : str := map tolower_cp s.

(** [s.isupper()]: no lowercase character and at least one uppercase one. *)
Definition isupper (s : str) : bool :=
  forallb (fun c => negb (islower_cp c)) s && existsb isupper_cp s.

(** [s.capitalize()]: the first character in title case, the rest in
    lower case. *)
Definition capitalize (s : str) : str :=
  match s with
  | [] => []
  | c :: r => totitle_cp c ++ lower r
  end.

(** [s.lstrip()], [s.rstrip()] and [s.strip()] without argument. *)
Fixpoint lstrip (s : str) : str :=
  match s with
  | [] => []
  | c :: r => if isspace c then lstrip r else s
  end.

Definition rstrip (s : str) : str := rev (lstrip (rev s)).

Definition strip (s : str) : str := rstrip (lstrip s).

(** [s.split()] without argument: the maximal runs of non-whitespace.  The
    scanner carries the token read so far. *)
Fixpoint split_from (tok : str) (s : str) : list str :=
  match s with
  | [] => match tok with [] => [] | _ => [tok] end
  | c :: r =>
      if isspace c then
        match tok with
        | [] => split_from [] r
        | _ => tok :: split_from [] r
        end
      else split_from (tok ++ [c]) r
  end.

Definition split (s : str) : list str := split_from [] s.

(** [sep.join(ws)] *)
Fixpoint join (sep : str) (ws : list str) : str :=
  match ws with
  | [] => []
  | [w] => w
  | w :: ws' => w ++ sep ++ join sep ws'
  end.

(** [s.replace(chr(c), '')] for a single code point. *)
Definition remove_cp (c : N) (s : str) : str :=
  filter (fun d => d ≠ c) s.

(** Truthiness of a string: [bool(s)]. *)
Definition truthy (s : str) : bool :=
  match s with [] => false | _ => true end.

End Py.

Abbreviation str := (list N).

(** ** utils/text_sanitizer.py *)

(** The character class [[\x00-\x08\x0B-\x0C\x0E-\x1F]] of [sanitize_string]. *)
Definition problematic (c : N) : bool :=
  (c <=? 0x08) || ((0x0B <=? c) && (c <=? 0x0C)) || ((0x0E <=? c) && (c <=? 0x1F)).

Definition sanitize_string (text : str) : str :=
  let text := Py.remove_cp 0 text in
  let text := Py.remove_cp 0 text in
  filter (fun c => problematic c = false) text.

(** ** agents/validation_agent.py: label normalisation *)

(** The body of the loop over [words] in [_normalize_label]. *)
Definition normalize_word (word : str) : str :=
  if Py.isupper word && (1 <? length word)%nat then word
  else Py.capitalize word.

Definition _normalize_label (label : str) : str :=
  let label := sanitize_string label in
  let label := Py.strip label in
  let label := Py.join (Py.lit " ") (Py.split label) in
  let words := Py.split label in
  Py.join (Py.lit " ") (map normalize_word words).

(** ** Python dicts and JSON-like values *)

#[local] Set Warnings "-register-all".

Inductive json : Type :=
| JNull
| JBool (b : bool)
| JNum (q : Q)
| JStr (s : str)
| JList (l : list json)
| JDict (d : list (str * json)).

(** A [dict] with string keys, in insertion order. *)
Abbreviation pydict := (list (str * json)).

(** [d.get(k)] *)
Fixpoint dict_get (k : str) (d : pydict) : option json :=
  match d with
  | [] => None
  | (k', v) :: d' => if decide (k' = k) then Some v else dict_get k d'
  end.

(** [d[k] = v]: an existing key keeps its position. *)
Fixpoint dict_set (k : str) (v : json) (d : pydict) : pydict :=
  match d with
  | [] => [(k, v)]
  | (k', v') :: d' =>
      if decide (k' = k) then (k, v) :: d' else (k', v') :: dict_set k v d'
  end.

(** [d.update(other)] *)
Definition dict_update (d other : pydict) : pydict :=
  foldl (fun acc kv => dict_set kv.1 kv.2 acc) d other.

(** [sanitize_dict] and [sanitize_list] recurse into each other through the
    values; [sanitize_value] is the case analysis both of them make on one
    value. *)
Fixpoint sanitize_value (v : json) : json :=
  match v with
  | JStr s => JStr (sanitize_string s)
  | JDict d => JDict (map (fun kv => (kv.1, sanitize_value kv.2)) d)
  | JList l => JList (map sanitize_value l)
  | _ => v
  end.

Definition sanitize_dict (data : pydict) : pydict :=
  map (fun kv => (kv.1, sanitize_value kv.2)) data.

Definition sanitize_list (data : list json) : list json :=
  map sanitize_value data.

(** ** graph/models.py *)

(** Node and edge identifiers ([UUID]s). *)
Abbreviation uuid := N.

Record Node := mkNode {
  node_id : uuid;
  node_type : str;
  node_label : str;
  node_properties : pydict
}.

Record Edge := mkEdge {
  edge_id : uuid;
  from_node_id : uuid;
  to_node_id : uuid;
  edge_type : str;
  edge_confidence : Q;
  edge_properties : pydict
}.

(** Python's [a <= b] and [a < b] on the rationals standing for floats. *)
Definition fle (a b : Q) : bool := Qle_bool a b.
Definition flt (a b : Q) : bool := negb (Qle_bool b a).

(** The constructor [Edge(...)]: pydantic checks [ge=0.0, le=1.0] on
    [confidence] and raises [ValidationError] otherwise. *)
Definition new_Edge (id from to : uuid) (ty : str) (confidence : Q)
    (props : pydict) : option Edge :=
  if fle 0 confidence && fle confidence 1
  then Some (mkEdge id from to ty confidence props)
  else None.

Record ExtractedEntity := mkEntity {
  entity_type : str;
  label : str;
  description : option str;
  properties : pydict
}.

(** [confidence] is [None] for an object without that attribute, the case
    [_validate_relationships] probes with [hasattr]. *)
Record ExtractedRelationship := mkRel {
  from_entity_label : str;
  to_entity_label : str;
  relationship_type : str;
  confidence : option Q;
  rationale : option str;
  evidence_span : option str
}.

Record EntityExtractionResult := mkResult {
  concepts : list ExtractedEntity;
  methods : list ExtractedEntity;
  datasets : list ExtractedEntity;
  metrics : list ExtractedEntity;
  authors : list ExtractedEntity;
  tasks : list ExtractedEntity;
  relationships : list ExtractedRelationship
}.

(** ** agents/validation_agent.py: entities and relationships *)

(** Truthiness of an optional string ([None] and [''] are falsy). *)
Definition opt_truthy (o : option str) : bool :=
  match o with Some s => Py.truthy s | None => false end.

(** The merge branch of [_normalize_entities], applied to the entity object
    that [seen_labels] and [normalized] share. *)
Definition merge_entity (entity existing : ExtractedEntity) : ExtractedEntity :=
  let descr :=
    if opt_truthy (description entity) && negb (opt_truthy (description existing))
    then description entity else description existing in
  mkEntity (entity_type existing) (label existing) descr
           (dict_update (properties existing) (properties entity)).

(** The branch that creates a new normalised entity. *)
Definition fresh_entity (ty : str) (normalized_label : str)
    (entity : ExtractedEntity) : ExtractedEntity :=
  let sanitized_description :=
    if opt_truthy (description entity)
    then sanitize_string <$> description entity else None in
  let sanitized_properties :=
    match properties entity with
    | [] => []
    | _ => sanitize_dict (properties entity)
    end in
  mkEntity ty normalized_label sanitized_description sanitized_properties.

(** The label under which an entity is deduplicated. *)
Definition label_key (raw : str) : str := Py.lower (_normalize_label raw).

(** Whether the loop skips the entity ([not label or not label.strip()]). *)
Definition blank_label (raw : str) : bool :=
  negb (Py.truthy raw) || negb (Py.truthy (Py.strip raw)).

(** One iteration of the loop of [_normalize_entities].  [seen_labels] maps a
    key to the position in [normalized] of the entity object it refers to, so
    that a merge is visible through both. *)
Definition normalize_entities_step (ty : str)
    (st : gmap str nat * list ExtractedEntity) (entity : ExtractedEntity)
    : gmap str nat * list ExtractedEntity :=
  let '(seen_labels, normalized) := st in
  if blank_label (label entity) then st
  else
    let normalized_label := _normalize_label (label entity) in
    let key := Py.lower normalized_label in
    match seen_labels !! key with
    | Some i => (seen_labels, alter (merge_entity entity) i normalized)
    | None =>
        (<[key := length normalized]> seen_labels,
         normalized ++ [fresh_entity ty normalized_label entity])
    end.

Definition _normalize_entities (entities : list ExtractedEntity) (ty : str)
    : list ExtractedEntity :=
  (foldl (normalize_entities_step ty) (∅, []) entities).2.

(** Python's two-argument [min] and [max]: the first argument wins ties. *)
Definition py_min (a b : Q) : Q := if flt b a then b else a.
Definition py_max (a b : Q) : Q := if flt a b then b else a.

Definition clamp_confidence (c : Q) : Q := py_max 0 (py_min 1 c).

(** The loop body of [_validate_relationships]: [None] when the
    relationship is skipped. *)
Definition validate_relationship (rel : ExtractedRelationship)
    : option ExtractedRelationship :=
  if negb (Py.truthy (from_entity_label rel)) then None
  else if negb (Py.truthy (to_entity_label rel)) then None
  else if negb (Py.truthy (relationship_type rel)) then None
  else
    let c := match confidence rel with
             | None => 1 # 2
             | Some c => clamp_confidence c
             end in
    Some (mkRel (from_entity_label rel) (to_entity_label rel)
                (relationship_type rel) (Some c)
                (rationale rel) (evidence_span rel)).

Definition _validate_relationships (rels : list ExtractedRelationship)
    : list ExtractedRelationship :=
  omap validate_relationship rels.

(** The result is built without [tasks], which therefore takes its default,
    the empty list. *)
Definition validate_and_normalize (r : EntityExtractionResult)
    : EntityExtractionResult :=
  mkResult (_normalize_entities (concepts r) (Py.lit "concept"))
           (_normalize_entities (methods r) (Py.lit "method"))
           (_normalize_entities (datasets r) (Py.lit "dataset"))
           (_normalize_entities (metrics r) (Py.lit "metric"))
           (_normalize_entities (authors r) (Py.lit "author"))
           []
           (_validate_relationships (relationships r)).

(** ** db/repository.py: the graph store *)

(** A row of the [papers] table (the bibliographic columns that no modelled
    query reads are left out). *)
Record PaperMetadata := mkPaper {
  paper_node_id : uuid;
  paper_title : str;
  paper_year : option Z
}.

(** The database: the three tables, and the supply of [uuid4()] values. *)
Record Store := mkStore {
  nodes : list Node;
  edges : list Edge;
  papers : list PaperMetadata;
  next_id : uuid
}.

Definition empty_store : Store := mkStore [] [] [] 1.

(** [uuid4()] *)
Definition uuid4 (st : Store) : uuid * Store :=
  (next_id st, mkStore (nodes st) (edges st) (papers st) (next_id st + 1)).

(** [sanitize_node_data] on the columns of a node. *)
Definition sanitize_node_data (n : Node) : Node :=
  mkNode (node_id n) (sanitize_string (node_type n))
         (sanitize_string (node_label n)) (sanitize_dict (node_properties n)).

(** [INSERT ... ON CONFLICT (id) DO UPDATE] on [nodes]. *)
Fixpoint upsert_node (n : Node) (ns : list Node) : list Node :=
  match ns with
  | [] => [n]
  | m :: ns' =>
      if decide (node_id m = node_id n) then n :: ns' else m :: upsert_node n ns'
  end.

Definition create_node_supabase (st : Store) (node : Node) : uuid * Store :=
  let node_data := sanitize_node_data node in
  (node_id node,
   mkStore (upsert_node node_data (nodes st)) (edges st) (papers st) (next_id st)).

Definition get_node_supabase (st : Store) (id : uuid) : option Node :=
  find (fun n => bool_decide (node_id n = id)) (nodes st).

(** [find_node_by_label]: [LIMIT 1] returns some matching row; the model
    returns the oldest one.  The comparison [label = %s] is exact. *)
Definition find_node_by_label (st : Store) (lbl : str) (ty : option str)
    : option Node :=
  if opt_truthy ty then
    find (fun n => bool_decide (node_label n = lbl)
                   && bool_decide (Some (node_type n) = ty)) (nodes st)
  else
    find (fun n => bool_decide (node_label n = lbl)) (nodes st).

(** [INSERT ... ON CONFLICT (id) DO UPDATE SET confidence, properties] on
    [edges]. *)
Fixpoint upsert_edge (e : Edge) (es : list Edge) : list Edge :=
  match es with
  | [] => [e]
  | f :: es' =>
      if decide (edge_id f = edge_id e)
      then mkEdge (edge_id f) (from_node_id f) (to_node_id f) (edge_type f)
                  (edge_confidence e) (edge_properties e) :: es'
      else f :: upsert_edge e es'
  end.

(** [create_edge]; the statement is taken to succeed, and a failure would be
    swallowed by the bare [except]. *)
Definition create_edge (st : Store) (edge : Edge) : Store :=
  let sanitized :=
    mkEdge (edge_id edge) (from_node_id edge) (to_node_id edge)
           (sanitize_string (edge_type edge)) (edge_confidence edge)
           (match edge_properties edge with
            | [] => []
            | _ => sanitize_dict (edge_properties edge)
            end) in
  mkStore (nodes st) (upsert_edge sanitized (edges st)) (papers st) (next_id st).

Fixpoint upsert_paper (p : PaperMetadata) (ps : list PaperMetadata)
    : list PaperMetadata :=
  match ps with
  | [] => [p]
  | q :: ps' =>
      if decide (paper_node_id q = paper_node_id p)
      then p :: ps' else q :: upsert_paper p ps'
  end.

Definition create_paper (st : Store) (paper : PaperMetadata) : Store :=
  mkStore (nodes st) (edges st) (upsert_paper paper (papers st)) (next_id st).

(** [ORDER BY p.year DESC NULLS LAST] *)
Definition year_before (p q : PaperMetadata) : Prop :=
  match paper_year p, paper_year q with
  | Some y, Some z => (z <= y)%Z
  | Some _, None => True
  | None, Some _ => False
  | None, None => True
  end.

#[local] Instance year_before_dec p q : Decision (year_before p q).
Proof. unfold year_before. destruct (paper_year p), (paper_year q); apply _. Defined.

(** [get_all_papers]: the rows of [papers] that join with a node, by year. *)
Definition get_all_papers (st : Store) : list PaperMetadata :=
  merge_sort year_before
    (filter (fun p => is_Some (get_node_supabase st (paper_node_id p))) (papers st)).

Definition get_all_nodes_by_type (st : Store) (ty : str) : list Node :=
  filter (fun n => node_type n = ty) (nodes st).

(** The query shared by [get_paper_dataset_ids], [get_paper_method_ids] and
    [get_paper_concept_ids]: the targets of the edges leaving the paper whose
    node has the given type. *)
Definition paper_linked_ids (ty : str) (st : Store) (paper : uuid) : gset uuid :=
  list_to_set
    (to_node_id <$>
     filter (fun e => from_node_id e = paper ∧
                      Exists (fun d => node_id d = to_node_id e ∧ node_type d = ty)
                             (nodes st))
            (edges st)).

Definition get_paper_dataset_ids := paper_linked_ids (Py.lit "dataset").
Definition get_paper_method_ids := paper_linked_ids (Py.lit "method").
Definition get_paper_concept_ids := paper_linked_ids (Py.lit "concept").

(** [get_edges_from_node] and [get_edges_to_node]: the edges that leave or
    reach a node, of one type when a type is given. *)
Definition get_edges_from_node (st : Store) (id : uuid) (ty : option str)
    : list Edge :=
  if opt_truthy ty then
    filter (fun e => from_node_id e = id ∧ Some (edge_type e) = ty) (edges st)
  else
    filter (fun e => from_node_id e = id) (edges st).

Definition get_edges_to_node (st : Store) (id : uuid) (ty : option str)
    : list Edge :=
  if opt_truthy ty then
    filter (fun e => to_node_id e = id ∧ Some (edge_type e) = ty) (edges st)
  else
    filter (fun e => to_node_id e = id) (edges st).

(** [get_papers_connected_to_node]: [SELECT DISTINCT] of the papers with an
    edge to the node. *)
Definition get_papers_connected_to_node (st : Store) (id : uuid) : list uuid :=
  remove_dups
    (from_node_id <$>
     filter (fun e => to_node_id e = id
                      ∧ from_node_id e ∈ paper_node_id <$> papers st)
            (edges st)).

(** ** services/ingestion_service.py *)

(** A field of the metadata that the code handles as a string: the key is
    absent, its value is [null] (what the extraction prompt asks for when a
    field is missing), or its value is a string. *)
Inductive md_field :=
| Absent
| Null
| Str (s : str).

(** What [ingest_paper] reads of the ingested document: [ingested["metadata"]]
    and [ingested["full_text"]].  The fields that end in a typed column of
    [PaperMetadata] are typed here: [title], [abstract], [venue], [doi] and
    [arxiv_id] are strings, [null] or absent; [year] is an integer, or [null]
    or absent ([None], which [.get] does not tell apart), and so is
    [citation_count], which no modelled code reads.  [md_other] holds the
    other keys of the dictionary. *)
Record Ingested := mkIngested {
  md_title : md_field;
  md_abstract : md_field;
  md_year : option Z;
  md_venue : md_field;
  md_doi : md_field;
  md_arxiv_id : md_field;
  md_other : pydict;
  full_text : str
}.

Definition json_of_opt (o : option str) : json :=
  match o with Some s => JStr s | None => JNull end.

(** [sanitize_string(metadata.get(key, default))]: [sanitize_string] returns
    what is not a string as it is, so [null] stays [None]. *)
Definition sanitized_or (fallback : str) (f : md_field) : option str :=
  match f with
  | Absent => Some (sanitize_string fallback)
  | Null => None
  | Str s => Some (sanitize_string s)
  end.

(** [sanitize_string(metadata.get(key)) if metadata.get(key) else None] *)
Definition sanitized_if_truthy (f : md_field) : option str :=
  match f with
  | Str s => if Py.truthy s then Some (sanitize_string s) else None
  | _ => None
  end.

(** Truthiness of a JSON value. *)
Definition json_truthy (v : json) : bool :=
  match v with
  | JNull => false
  | JBool b => b
  | JNum q => negb (Qeq_bool q 0)
  | JStr s => Py.truthy s
  | JList l => match l with [] => false | _ => true end
  | JDict d => match d with [] => false | _ => true end
  end.

(** [sanitize_dict(v) if isinstance(v, dict) else v], and
    [sanitize_string(v) if isinstance(v, str) else sanitize_dict(v)], where
    [sanitize_dict] returns what is not a dictionary as it is. *)
Definition sanitize_if_dict (v : json) : json :=
  match v with
  | JDict d => JDict (sanitize_dict d)
  | _ => v
  end.

Definition sanitize_str_or_dict (v : json) : json :=
  match v with
  | JStr s => JStr (sanitize_string s)
  | JDict d => JDict (sanitize_dict d)
  | _ => v
  end.

(** [if metadata.get(key): properties[key] = f(metadata[key])] *)
Definition copy_if_truthy (metadata : pydict) (f : json -> json)
    (properties : pydict) (key : str) : pydict :=
  match dict_get key metadata with
  | Some v => if json_truthy v then dict_set key (f v) properties else properties
  | None => properties
  end.

(** The constructor [Node(...)]: pydantic demands a string for [label] and
    raises [ValidationError] on [None]. *)
Definition new_Node (id : uuid) (node_type : str) (label : option str)
    (properties : pydict) : option Node :=
  label ← label;
  Some (mkNode id node_type label properties).

(** The dictionary [properties] that [_create_paper_node] hands to
    [Node(...)]. *)
Definition paper_properties (doc : Ingested) : pydict :=
  let properties :=
    [(Py.lit "abstract", json_of_opt (sanitized_or [] (md_abstract doc)));
     (Py.lit "year",
      match md_year doc with Some y => JNum (inject_Z y) | None => JNull end);
     (Py.lit "venue", json_of_opt (sanitized_if_truthy (md_venue doc)));
     (Py.lit "doi", json_of_opt (sanitized_if_truthy (md_doi doc)));
     (Py.lit "arxiv_id", json_of_opt (sanitized_if_truthy (md_arxiv_id doc)));
     (Py.lit "authors",
      default (JList []) (dict_get (Py.lit "authors") (md_other doc)));
     (Py.lit "full_text", JStr (sanitize_string (full_text doc)))] in
  let properties :=
    foldl (copy_if_truthy (md_other doc) sanitize_if_dict) properties
          [Py.lit "methods"; Py.lit "metrics"] in
  let properties :=
    foldl (copy_if_truthy (md_other doc) sanitize_str_or_dict) properties
          [Py.lit "experimental_setup"; Py.lit "key_results";
           Py.lit "limitations"; Py.lit "future_work";
           Py.lit "code_availability"; Py.lit "data_availability";
           Py.lit "supplementary_materials"] in
  let properties :=
    copy_if_truthy (md_other doc) sanitize_if_dict properties
                   (Py.lit "keywords") in
  sanitize_dict properties.

(** [_create_paper_node]; [None] when [Node(...)] raises, which it does on a
    title that is [null]. *)
Definition _create_paper_node (id : uuid) (doc : Ingested) : option Node :=
  let title := sanitized_or (Py.lit "Unknown Paper") (md_title doc) in
  new_Node id (Py.lit "paper") title (paper_properties doc).

(** The constructor [PaperMetadata(...)] of step 5: [title] and [abstract]
    must be strings; the optional columns are typed in [Ingested]. *)
Definition new_PaperMetadata (node_id : uuid) (title abstract : option str)
    (year : option Z) : option PaperMetadata :=
  title ← title;
  _ ← abstract;
  Some (mkPaper node_id title year).

(** State of the two loops of [ingest_paper]: the store, [entity_nodes] and
    [edges_created]. *)
Record IngestState := mkIngest {
  ig_store : Store;
  entity_nodes : gmap str uuid;
  edges_created : list Edge
}.

(** The find-or-create at the head of the loop over [all_entities]: the id
    the entity resolves to, and the store afterwards. *)
Definition resolve_entity (st : Store) (entity : ExtractedEntity) : uuid * Store :=
  match find_node_by_label st (label entity) (Some (entity_type entity)) with
  | Some existing => (node_id existing, st)
  | None =>
      let '(id, st) := uuid4 st in
      let entity_node :=
        mkNode id (entity_type entity) (label entity)
               (dict_update [(Py.lit "description", json_of_opt (description entity))]
                            (properties entity)) in
      create_node_supabase st entity_node
  end.

(** One iteration of the loop over [all_entities] (step 6).  The edge to
    the entity is built with the confidence 1.0, which the [Edge] constructor
    accepts. *)
Definition ingest_entity (paper : uuid) (s : IngestState)
    (entity : ExtractedEntity) : IngestState :=
  let '(entity_node_id, st) := resolve_entity (ig_store s) entity in
  let edge_ty :=
    if bool_decide (entity_type entity = Py.lit "author")
       || bool_decide (entity_type entity = Py.lit "authors")
    then Py.lit "AUTHORED_BY" else Py.lit "INTRODUCES" in
  let '(eid, st) := uuid4 st in
  let introduces_edge := mkEdge eid paper entity_node_id edge_ty 1 [] in
  mkIngest (create_edge st introduces_edge)
           (<[label entity := entity_node_id]> (entity_nodes s))
           (edges_created s ++ [introduces_edge]).

(** One iteration of the loop over the relationships (step 7); [None] when
    the [Edge] constructor raises. *)
Definition ingest_relationship (s : IngestState) (rel : ExtractedRelationship)
    : option IngestState :=
  match entity_nodes s !! from_entity_label rel,
        entity_nodes s !! to_entity_label rel with
  | Some from_id, Some to_id =>
      let '(eid, st) := uuid4 (ig_store s) in
      c ← confidence rel;
      edge ← new_Edge eid from_id to_id (relationship_type rel) c
                [(Py.lit "rationale", json_of_opt (rationale rel));
                 (Py.lit "evidence_span", json_of_opt (evidence_span rel))];
      Some (mkIngest (create_edge st edge) (entity_nodes s)
                     (edges_created s ++ [edge]))
  | _, _ => Some s
  end.

Definition ingest_relationships (s : IngestState)
    (rels : list ExtractedRelationship) : option IngestState :=
  foldl (fun acc rel => s ← acc; ingest_relationship s rel) (Some s) rels.

(** The list the loop of step 6 runs over. *)
Definition all_entities (r : EntityExtractionResult) : list ExtractedEntity :=
  concepts r ++ methods r ++ datasets r ++ metrics r ++ authors r ++ tasks r.

Record IngestSummary := mkSummary {
  sum_paper_node_id : uuid;
  sum_entities_created : nat;
  sum_edges_created : nat
}.

(** [ingest_paper] from step 3 on: [doc] is what the ingestion agent
    returned and [extraction_result] what the extraction agent returned.
    [None] when an exception leaves the function: [Node(...)] in step 4,
    [PaperMetadata(...)] in step 5 or [Edge(...)] in step 7.  Computing and
    storing the embedding touches no modelled column. *)
Definition ingest_paper (st : Store) (doc : Ingested)
    (extraction_result : EntityExtractionResult)
    : option (Store * IngestSummary) :=
  let validated_result := validate_and_normalize extraction_result in
  let '(pid, st) := uuid4 st in
  paper_node ← _create_paper_node pid doc;
  let '(paper_id, st) := create_node_supabase st paper_node in
  paper_metadata ←
    new_PaperMetadata paper_id
      (sanitized_or (Py.lit "Unknown") (md_title doc))
      (sanitized_or [] (md_abstract doc))
      (md_year doc);
  let st := create_paper st paper_metadata in
  let s := foldl (ingest_entity paper_id) (mkIngest st ∅ [])
                 (all_entities validated_result) in
  s ← ingest_relationships s (relationships validated_result);
  Some (ig_store s,
        mkSummary paper_id (size (entity_nodes s)) (length (edges_created s))).

(** ** agents/relationship_linking_agent.py *)

(** The relationship types whose edge is turned around. *)
Definition inverted_types : list str :=
  [Py.lit "IMPROVES_ON"; Py.lit "EXTENDS"; Py.lit "REFINES_CONCEPT"].

(** [rel_data.get("relationship_type") in ["IMPROVES_ON", "EXTENDS",
    "REFINES_CONCEPT"]] *)
Definition is_inverted (rel_data : pydict) : bool :=
  match dict_get (Py.lit "relationship_type") rel_data with
  | Some (JStr s) => bool_decide (s ∈ inverted_types)
  | _ => false
  end.

Section Linking.

(** The environment of the linking code: Python's [float] on a string, the
    flag [Config.DEBUG], the language model behind [complete_json] ([None]
    when the call raises), the debugger behind [import ipdb;
    ipdb.set_trace()], entered by the shared-neighbour pass for a pair of
    papers ([true] when it returns, [false] when the import or the session
    raises), and the vector index behind [get_similar_papers_for_node], a
    query over the node embeddings and the [papers] table, neither of which
    a linking pass writes. *)
Variable float_of_str : str -> option Q.
Variable DEBUG : bool.
Variable complete_json : Node -> Node -> list Node -> list Node -> option json.
Variable set_trace : uuid -> uuid -> bool.
Variable get_similar_papers_for_node : uuid -> nat -> list uuid.

(** [float(v)] *)
Definition py_float (v : json) : option Q :=
  match v with
  | JNum q => Some q
  | JBool b => Some (if b then 1%Q else 0%Q)
  | JStr s => float_of_str s
  | _ => None
  end.

(** The [Edge(...)] built from one dictionary of the model's answer; [None]
    when [float] or the constructor raises. *)
Definition edge_of_rel_data (id : uuid) (paper1 paper2 : Node)
    (rel_data : pydict) : option Edge :=
  let from_id := if is_inverted rel_data then node_id paper2 else node_id paper1 in
  let to_id := if is_inverted rel_data then node_id paper1 else node_id paper2 in
  ty ← match default (JStr (Py.lit "SIMILAR_TO"))
                     (dict_get (Py.lit "relationship_type") rel_data) with
       | JStr s => Some s
       | _ => None
       end;
  c ← py_float (default (JNum (1 # 2)) (dict_get (Py.lit "confidence") rel_data));
  new_Edge id from_id to_id ty c
    [(Py.lit "rationale",
      default (JStr []) (dict_get (Py.lit "rationale") rel_data));
     (Py.lit "evidence_concepts",
      default (JList []) (dict_get (Py.lit "evidence_concepts") rel_data))].

(** The loop over [result_json]; entries that are not dictionaries are
    passed over.  [next] is the supply of edge ids. *)
Fixpoint parse_relationships (next : uuid) (paper1 paper2 : Node)
    (items : list json) : option (list Edge) :=
  match items with
  | [] => Some []
  | JDict rel_data :: items' =>
      edge ← edge_of_rel_data next paper1 paper2 rel_data;
      rest ← parse_relationships (next + 1) paper1 paper2 items';
      Some (edge :: rest)
  | _ :: items' => parse_relationships next paper1 paper2 items'
  end.

Definition _get_default_relationships (next : uuid) (paper1 paper2 : Node)
    : list Edge :=
  match new_Edge next (node_id paper1) (node_id paper2) (Py.lit "SIMILAR_TO")
          (3 # 4)
          [(Py.lit "rationale",
            JStr (Py.lit "Papers appear to be related based on similar topics (DEBUG mode)"));
           (Py.lit "evidence_concepts",
            JList [JStr (Py.lit "3D Gaussian Splatting"); JStr (Py.lit "Neural Rendering")])]
  with
  | Some edge => [edge]
  | None => []
  end.

(** [_infer_with_llm]: any exception inside the [try] gives the empty list. *)
Definition _infer_with_llm (next : uuid) (paper1 paper2 : Node)
    (concept_nodes method_nodes : list Node) : list Edge :=
  if DEBUG then _get_default_relationships next paper1 paper2
  else
    match complete_json paper1 paper2 concept_nodes method_nodes with
    | None => []
    | Some result_json =>
        let items :=
          match result_json with
          | JDict d => Some [JDict d]
          | JList l => Some l
          | _ => None
          end in
        match items with
        | None => []
        | Some items => default [] (parse_relationships next paper1 paper2 items)
        end
    end.

(** [paper.get("label", "") or paper.get("properties", {}).get("title", "")]
    is truthy. *)
Definition has_title (paper : Node) : bool :=
  Py.truthy (node_label paper)
  || match dict_get (Py.lit "title") (node_properties paper) with
     | Some v => json_truthy v
     | None => false
     end.

Definition _compare_papers (next : uuid) (paper1 paper2 : Node)
    (concept_nodes method_nodes : list Node) : list Edge :=
  if negb (has_title paper1) || negb (has_title paper2) then []
  else _infer_with_llm next paper1 paper2 concept_nodes method_nodes.

(** [infer_relationships]: the loop over [paper_nodes[i+1:]] inside the loop
    over [paper_nodes].  The state is [edges], with the ordered pairs handed
    to [_compare_papers] so far, which are not a variable of the program;
    [next] is the id supply at the start, of which one id is used by each
    edge built. *)
Definition infer_inner (next : uuid) (concept_nodes method_nodes : list Node)
    (paper1 : Node) (state : list Edge * list (uuid * uuid)) (paper2 : Node)
    : list Edge * list (uuid * uuid) :=
  let relationships :=
    _compare_papers (next + N.of_nat (length state.1)) paper1 paper2
                    concept_nodes method_nodes in
  (state.1 ++ relationships, state.2 ++ [(node_id paper1, node_id paper2)]).

Fixpoint infer_outer (next : uuid) (concept_nodes method_nodes : list Node)
    (state : list Edge * list (uuid * uuid)) (paper_nodes : list Node)
    : list Edge * list (uuid * uuid) :=
  match paper_nodes with
  | [] => state
  | paper1 :: rest =>
      infer_outer next concept_nodes method_nodes
        (foldl (infer_inner next concept_nodes method_nodes paper1) state rest)
        rest
  end.

Definition infer_relationships (next : uuid)
    (paper_nodes concept_nodes method_nodes : list Node)
    : list Edge * list (uuid * uuid) :=
  infer_outer next concept_nodes method_nodes ([], []) paper_nodes.

(** ** services/graph_service.py *)

(** [tuple(sorted([str(a), str(b)]))]: canonical UUID strings have a fixed
    width, so their order is the order of the numbers. *)
Definition pair_key (a b : uuid) : uuid * uuid :=
  if decide (a ≤ b)%N then (a, b) else (b, a).

(** [d[k] = v] on a dict with UUID keys whose key order is iterated. *)
Fixpoint odict_set {V} (k : uuid) (v : V) (d : list (uuid * V)) : list (uuid * V) :=
  match d with
  | [] => [(k, v)]
  | (k', v') :: d' =>
      if decide (k' = k) then (k, v) :: d' else (k', v') :: odict_set k v d'
  end.

Definition odict_get {V} (k : uuid) (d : list (uuid * V)) : option V :=
  snd <$> find (fun kv => bool_decide (kv.1 = k)) d.

(** The dictionaries preloaded by both passes. *)
Record Preload := mkPreload {
  paper_nodes : list (uuid * Node);
  paper_datasets : gmap uuid (gset uuid);
  paper_methods : gmap uuid (gset uuid);
  paper_concepts : gmap uuid (gset uuid)
}.

Definition preload_step (st : Store) (pl : Preload) (p : PaperMetadata) : Preload :=
  let id := paper_node_id p in
  match get_node_supabase st id with
  | None => pl
  | Some node =>
      mkPreload (odict_set id node (paper_nodes pl))
                (<[id := get_paper_dataset_ids st id]> (paper_datasets pl))
                (<[id := get_paper_method_ids st id]> (paper_methods pl))
                (<[id := get_paper_concept_ids st id]> (paper_concepts pl))
  end.

Definition preload (st : Store) (rows : list PaperMetadata) : Preload :=
  foldl (preload_step st) (mkPreload [] ∅ ∅ ∅) rows.

(** [d.get(k, set())] *)
Definition get_set (d : gmap uuid (gset uuid)) (k : uuid) : gset uuid :=
  default ∅ (d !! k).

(** State of a linking pass.  [calls] records, oldest first, the ordered
    pairs handed to [_compare_papers]; it is not a variable of the program.
    [lk_raised] tells that an exception has left the pass: the store is the
    database at that moment, and the pass returns no count. *)
Record LinkState := mkLink {
  lk_store : Store;
  seen_pairs : gset (uuid * uuid);
  lk_edges_created : nat;
  calls : list (uuid * uuid);
  lk_raised : bool
}.

(** The call of [_compare_papers] and the loop that stores its edges, as the
    similarity pass has them. *)
Definition compare_and_store (concepts_ctx methods_ctx : list Node)
    (src_node dst_node : Node) (s : LinkState) : LinkState :=
  let st := lk_store s in
  let rels := _compare_papers (next_id st) src_node dst_node concepts_ctx methods_ctx in
  let st := mkStore (nodes st) (edges st) (papers st)
                    (next_id st + N.of_nat (length rels)) in
  mkLink (foldl create_edge st rels) (seen_pairs s)
         (lk_edges_created s + length rels)
         (calls s ++ [(node_id src_node, node_id dst_node)])
         (lk_raised s).

(** The same in the shared-neighbour pass, where
    [if len(relationships)==0: import ipdb; ipdb.set_trace()] stands between
    the call and the loop, outside any [try]: on an empty answer the
    debugger is entered, and when it raises the exception leaves the pass
    with the pair handed over and nothing stored for it. *)
Definition compare_break_and_store (concepts_ctx methods_ctx : list Node)
    (src_node dst_node : Node) (s : LinkState) : LinkState :=
  let st := lk_store s in
  let relationships :=
    _compare_papers (next_id st) src_node dst_node concepts_ctx methods_ctx in
  let called := calls s ++ [(node_id src_node, node_id dst_node)] in
  if (length relationships =? 0)%nat
     && negb (set_trace (node_id src_node) (node_id dst_node))
  then mkLink st (seen_pairs s) (lk_edges_created s) called true
  else
    let st := mkStore (nodes st) (edges st) (papers st)
                      (next_id st + N.of_nat (length relationships)) in
    mkLink (foldl create_edge st relationships) (seen_pairs s)
           (lk_edges_created s + length relationships) called (lk_raised s).

(** *** Shared-neighbour pruning: [link_cross_paper_relationships_pruned_2] *)

(** [node_to_papers[n].add(paper_id)], creating the set when needed. *)
Definition index_add (paper_id : uuid) (idx : gmap uuid (gset uuid)) (n : uuid)
    : gmap uuid (gset uuid) :=
  <[n := get_set idx n ∪ {[paper_id]}]> idx.

Definition index_paper (pl : Preload) (idx : gmap uuid (gset uuid))
    (paper_id : uuid) : gmap uuid (gset uuid) :=
  let idx := foldl (index_add paper_id) idx
               (elements (get_set (paper_datasets pl) paper_id)) in
  let idx := foldl (index_add paper_id) idx
               (elements (get_set (paper_methods pl) paper_id)) in
  foldl (index_add paper_id) idx
        (elements (get_set (paper_concepts pl) paper_id)).

Definition node_to_papers (pl : Preload) : gmap uuid (gset uuid) :=
  foldl (index_paper pl) ∅ (fst <$> paper_nodes pl).

Definition all_connected_nodes (pl : Preload) (paper_id : uuid) : gset uuid :=
  get_set (paper_datasets pl) paper_id ∪ get_set (paper_methods pl) paper_id
  ∪ get_set (paper_concepts pl) paper_id.

Definition candidate_papers (pl : Preload) (idx : gmap uuid (gset uuid))
    (paper_id : uuid) : gset uuid :=
  foldl (fun acc n => acc ∪ get_set idx n) ∅
        (elements (all_connected_nodes pl paper_id))
  ∖ {[paper_id]}.

(** Whether the two papers have a dataset, a method or a concept in common. *)
Definition share_node (pl : Preload) (src dst : uuid) : bool :=
  let shared_datasets := get_set (paper_datasets pl) src ∩ get_set (paper_datasets pl) dst in
  let shared_methods := get_set (paper_methods pl) src ∩ get_set (paper_methods pl) dst in
  let shared_concepts := get_set (paper_concepts pl) src ∩ get_set (paper_concepts pl) dst in
  negb (bool_decide (shared_datasets = ∅))
  || negb (bool_decide (shared_methods = ∅))
  || negb (bool_decide (shared_concepts = ∅)).

(** The body of the loop over [candidate_papers].  Once the debugger has
    raised, the exception has left both loops: no later iteration runs. *)
Definition pruned_2_inner (pl : Preload) (ctx_c ctx_m : list Node)
    (paper_id : uuid) (src_node : Node) (s : LinkState) (dst_id : uuid) : LinkState :=
  if lk_raised s then s
  else if decide (dst_id = paper_id) then s
  else
    let key := pair_key paper_id dst_id in
    if decide (key ∈ seen_pairs s) then s
    else
      let s := mkLink (lk_store s) (seen_pairs s ∪ {[key]})
                      (lk_edges_created s) (calls s) (lk_raised s) in
      if negb (share_node pl paper_id dst_id) then s
      else
        match odict_get dst_id (paper_nodes pl) with
        | None => s
        | Some dst_node => compare_break_and_store ctx_c ctx_m src_node dst_node s
        end.

(** The body of the loop over [paper_nodes.keys()]. *)
Definition pruned_2_outer (pl : Preload) (idx : gmap uuid (gset uuid))
    (ctx_c ctx_m : list Node) (s : LinkState) (paper_id : uuid) : LinkState :=
  if lk_raised s then s
  else
    match odict_get paper_id (paper_nodes pl) with
    | None => s
    | Some src_node =>
        if decide (all_connected_nodes pl paper_id = ∅) then s
        else foldl (pruned_2_inner pl ctx_c ctx_m paper_id src_node) s
                   (elements (candidate_papers pl idx paper_id))
    end.

Definition link_cross_paper_relationships_pruned_2 (st : Store) : LinkState :=
  let rows := get_all_papers st in
  if (length rows <? 2)%nat then mkLink st ∅ 0 [] false
  else
    let pl := preload st rows in
    let ctx_c := get_all_nodes_by_type st (Py.lit "concept") in
    let ctx_m := get_all_nodes_by_type st (Py.lit "method") in
    let idx := node_to_papers pl in
    foldl (pruned_2_outer pl idx ctx_c ctx_m) (mkLink st ∅ 0 [] false)
          (fst <$> paper_nodes pl).

(** *** Similarity and shared-dataset pruning:
        [link_cross_paper_relationships_pruned] *)

(** The body of the loop over [neighbors]. *)
Definition pruned_inner (pl : Preload) (ctx_c ctx_m : list Node)
    (src_id : uuid) (src_node : Node) (src_datasets : gset uuid)
    (s : LinkState) (dst_id : uuid) : LinkState :=
  if decide (dst_id = src_id) then s
  else
    let key := pair_key src_id dst_id in
    if decide (key ∈ seen_pairs s) then s
    else
      let s := mkLink (lk_store s) (seen_pairs s ∪ {[key]})
                      (lk_edges_created s) (calls s) (lk_raised s) in
      let dst_datasets := get_set (paper_datasets pl) dst_id in
      if decide (dst_datasets = ∅) then s
      else if decide (src_datasets ∩ dst_datasets = ∅) then s
      else
        match odict_get dst_id (paper_nodes pl) with
        | None => s
        | Some dst_node => compare_and_store ctx_c ctx_m src_node dst_node s
        end.

(** The body of the loop over [papers]. *)
Definition pruned_outer (pl : Preload) (ctx_c ctx_m : list Node)
    (k_neighbors : nat) (s : LinkState) (p : PaperMetadata) : LinkState :=
  let src_id := paper_node_id p in
  match odict_get src_id (paper_nodes pl) with
  | None => s
  | Some src_node =>
      let src_datasets := get_set (paper_datasets pl) src_id in
      if decide (src_datasets = ∅) then s
      else
        let neighbors := get_similar_papers_for_node src_id k_neighbors in
        foldl (pruned_inner pl ctx_c ctx_m src_id src_node src_datasets) s neighbors
  end.

Definition link_cross_paper_relationships_pruned (st : Store)
    (k_neighbors : nat) : LinkState :=
  let rows := get_all_papers st in
  if (length rows <? 2)%nat then mkLink st ∅ 0 [] false
  else
    let pl := preload st rows in
    let ctx_c := get_all_nodes_by_type st (Py.lit "concept") in
    let ctx_m := get_all_nodes_by_type st (Py.lit "method") in
    foldl (pruned_outer pl ctx_c ctx_m k_neighbors) (mkLink st ∅ 0 [] false) rows.

(** *** No pruning: [link_cross_paper_relationships] *)

(** This pass keeps no [seen_pairs]; the field stays empty. *)
Definition link_cross_paper_relationships (st : Store) : LinkState :=
  let rows := get_all_papers st in
  if (length rows <? 2)%nat then mkLink st ∅ 0 [] false
  else
    let paper_nodes :=
      omap (fun p => get_node_supabase st (paper_node_id p)) rows in
    let ctx_c := get_all_nodes_by_type st (Py.lit "concept") in
    let ctx_m := get_all_nodes_by_type st (Py.lit "method") in
    let inferred := infer_relationships (next_id st) paper_nodes ctx_c ctx_m in
    let st := mkStore (nodes st) (edges st) (papers st)
                      (next_id st + N.of_nat (length inferred.1)) in
    mkLink (foldl create_edge st inferred.1) ∅ (length inferred.1) inferred.2
           false.

End Linking.

(** *** Queries on one paper *)

(** The results pair a node with the edge that led to it. *)
Definition get_paper_improvements (st : Store) (paper : uuid) : list (Node * Edge) :=
  omap (fun edge =>
          node ← get_node_supabase st (from_node_id edge);
          Some (node, edge))
       (get_edges_to_node st paper (Some (Py.lit "IMPROVES_ON"))).

Definition get_paper_concepts (st : Store) (paper : uuid) : list (Node * Edge) :=
  omap (fun edge =>
          node ← get_node_supabase st (to_node_id edge);
          if decide (node_type node = Py.lit "concept")
          then Some (node, edge) else None)
       (get_edges_from_node st paper (Some (Py.lit "INTRODUCES"))).

Definition get_paper_datasets (st : Store) (paper : uuid) : list (Node * Edge) :=
  omap (fun edge =>
          if decide (edge_type edge ∈ [Py.lit "USES_DATASET"; Py.lit "EVALUATES_ON"])
          then
            node ← get_node_supabase st (to_node_id edge);
            if decide (node_type node = Py.lit "dataset")
            then Some (node, edge) else None
          else None)
       (get_edges_from_node st paper None).

Definition get_paper_metrics (st : Store) (paper : uuid) : list (Node * Edge) :=
  omap (fun edge =>
          node ← get_node_supabase st (to_node_id edge);
          if decide (node_type node = Py.lit "metric")
          then Some (node, edge) else None)
       (get_edges_from_node st paper (Some (Py.lit "EVALUATES_WITH"))).

(** [get_similar_papers]: the loop over the SIMILAR_TO edges from and to the
    paper; the state is [seen_paper_ids] and [similar_papers]. *)
Definition similar_papers_step (st : Store) (paper : uuid)
    (state : gset uuid * list (Node * Edge)) (edge : Edge)
    : gset uuid * list (Node * Edge) :=
  let similar_paper_id :=
    if decide (from_node_id edge = paper) then to_node_id edge
    else from_node_id edge in
  if decide (similar_paper_id ∈ state.1) then state
  else
    let seen := state.1 ∪ {[similar_paper_id]} in
    match get_node_supabase st similar_paper_id with
    | Some node => (seen, state.2 ++ [(node, edge)])
    | None => (seen, state.2)
    end.

Definition get_similar_papers (st : Store) (paper : uuid) : list (Node * Edge) :=
  let edges_from := get_edges_from_node st paper (Some (Py.lit "SIMILAR_TO")) in
  let edges_to := get_edges_to_node st paper (Some (Py.lit "SIMILAR_TO")) in
  (foldl (similar_papers_step st paper) (∅, []) (edges_from ++ edges_to)).2.

(** ** agents/paper_ingestion_agent.py *)

(** Python's [s[start:stop]] for integers of either sign: a negative index
    counts from the end, and both are clamped to the string. *)
Definition py_index (n i : Z) : Z :=
  if decide (i < 0)%Z then Z.max 0 (i + n) else Z.min i n.

Definition py_slice (s : str) (start stop : Z) : str :=
  let n := Z.of_nat (length s) in
  let b := py_index n start in
  let e := py_index n stop in
  take (Z.to_nat (e - b)) (drop (Z.to_nat b) s).

(** [s.rfind(chr(c))]: the highest position of the character, or -1. *)
Definition rfind (c : N) (s : str) : Z :=
  (foldl (fun st d => ((st.1 + 1)%Z, if decide (d = c) then st.1 else st.2))
         (0%Z, (-1)%Z) s).2.

Section Chunking.

(** The float [chunk_size * 0.7]. *)
Variable times_0_7 : Z -> Q.

(** The body of the loop of [_chunk_text] up to [chunks.append]: the chunk
    before it is stripped, and the value of [end]. *)
Definition chunk_step (text : str) (chunk_size start : Z) : str * Z :=
  let end_ := (start + chunk_size)%Z in
  let chunk := py_slice text start end_ in
  if decide (end_ < Z.of_nat (length text))%Z then
    let last_period := rfind 46 chunk in
    let last_newline := rfind 10 chunk in
    let break_point := Z.max last_period last_newline in
    if flt (times_0_7 chunk_size) (inject_Z break_point)
    then (py_slice chunk 0 (break_point + 1), (start + break_point + 1)%Z)
    else (chunk, end_)
  else (chunk, end_).

(** The [while] loop; [None] when the fuel does not suffice. *)
Fixpoint chunk_loop (fuel : nat) (text : str) (chunk_size overlap : Z)
    (start : Z) (chunks : list str) : option (list str) :=
  match fuel with
  | O => None
  | S fuel =>
      if decide (start < Z.of_nat (length text))%Z then
        let '(chunk, end_) := chunk_step text chunk_size start in
        chunk_loop fuel text chunk_size overlap (end_ - overlap)%Z
                   (chunks ++ [Py.strip chunk])
      else Some chunks
  end.

Definition _chunk_text (fuel : nat) (text : str) (chunk_size overlap : Z)
    : option (list str) :=
  if decide (Z.of_nat (length text) ≤ chunk_size)%Z then Some [text]
  else chunk_loop fuel text chunk_size overlap 0 [].

End Chunking.

(** * Reference definitions *)

(** ** Label normalisation on ASCII text, in the words of the specification *)

(** The letters A to Z and a to z, and the change of case between them;
    every other code point is left as it is. *)
Definition ascii_capital (c : N) : bool := (0x41 <=? c) && (c <=? 0x5A).
Definition ascii_small (c : N) : bool := (0x61 <=? c) && (c <=? 0x7A).
Definition to_small (c : N) : N := if ascii_capital c then c + 0x20 else c.
Definition to_capital (c : N) : N := if ascii_small c then c - 0x20 else c.

(** A token is entirely uppercase when it has a capital letter and no small
    one. *)
Definition entirely_uppercase (w : str) : bool :=
  existsb ascii_capital w && negb (existsb ascii_small w).

(** A token in title case: its first character as a capital, the others as
    small letters. *)
Definition title_cased (w : str) : str :=
  match w with
  | [] => []
  | c :: r => to_capital c :: map to_small r
  end.

(** The rule for one token: kept verbatim when it is entirely uppercase and
    longer than one character, title-cased otherwise. *)
Definition cased_token (w : str) : str :=
  if entirely_uppercase w && (1 <? length w)%nat then w else title_cased w.

(** The rule for a label: the control characters are removed, the label is
    cut into its whitespace-delimited tokens, each token is cased, and the
    tokens are joined by single spaces. *)
Definition normalized_spec (raw : str) : str :=
  Py.join (Py.lit " ")
          (map cased_token
               (Py.split (filter (fun c => problematic c = false) raw))).

(** The key of the specification: the small letters of the normalised
    label. *)
Definition key_spec (raw : str) : str := map to_small (normalized_spec raw).

(** ** Intra-batch deduplication, group by group *)

(** The entities the loop of [_normalize_entities] does not skip. *)
Definition retained (entities : list ExtractedEntity) : list ExtractedEntity :=
  filter (fun e => blank_label (label e) = false) entities.

(** The key an entity is grouped under: the lower case of its normalised
    label. *)
Definition entity_key (e : ExtractedEntity) : str := label_key (label e).

(** The groups of a batch in the order of their first members: each first
    member with the later members of its group.  [seen] holds the keys whose
    group started earlier. *)
Fixpoint groups (seen : gset str) (es : list ExtractedEntity)
    : list (ExtractedEntity * list ExtractedEntity) :=
  match es with
  | [] => []
  | e :: r =>
      if decide (entity_key e ∈ seen) then groups seen r
      else (e, filter (fun e' => entity_key e' = entity_key e) r)
           :: groups ({[entity_key e]} ∪ seen) r
  end.

(** The canonical entity of a group: the normalised first member, into which
    the later members are merged one after the other. *)
Definition canonical (ty : str) (g : ExtractedEntity * list ExtractedEntity)
    : ExtractedEntity :=
  foldl (fun existing e => merge_entity e existing)
        (fresh_entity ty (_normalize_label (label g.1)) g.1) g.2.

Definition resolve_groups (ty : str) (entities : list ExtractedEntity)
    : list ExtractedEntity :=
  canonical ty <$> groups ∅ (retained entities).

(** ** Stores built by ingestion *)

(** The types [validate_and_normalize] gives to entities, and the types of
    the nodes [ingest_paper] creates. *)
Definition entity_types : list str :=
  [Py.lit "concept"; Py.lit "method"; Py.lit "dataset"; Py.lit "metric";
   Py.lit "author"].

Definition node_types : list str := Py.lit "paper" :: entity_types.

(** The database after an [ingest_paper] that an exception has left: when
    [Node(...)] raises in step 4 nothing is written yet, and when
    [PaperMetadata(...)] raises in step 5 the paper node is written and
    nothing else.  ([Edge(...)] in step 7 is given validated confidences,
    which it accepts.) *)
Definition ingest_paper_raised (st : Store) (doc : Ingested) : Store :=
  let '(pid, st1) := uuid4 st in
  match _create_paper_node pid doc with
  | None => st
  | Some paper_node => (create_node_supabase st1 paper_node).2
  end.

(** The stores that a sequence of calls of [ingest_paper], each of which
    returns or raises, builds from the empty database. *)
Inductive reachable : Store → Prop :=
| reachable_empty : reachable empty_store
| reachable_ingest st doc r st' summary :
    reachable st →
    ingest_paper st doc r = Some (st', summary) →
    reachable st'
| reachable_raised st doc r :
    reachable st →
    ingest_paper st doc r = None →
    reachable (ingest_paper_raised st doc).

(** The node ids are older than the next [uuid4()], no two entity nodes have
    the same type and the same label, and every node has one of the six
    types. *)
Record store_inv (st : Store) : Prop := mkInv {
  inv_fresh : Forall (fun n => node_id n < next_id st) (nodes st);
  inv_unique : ∀ n1 n2,
    n1 ∈ nodes st → n2 ∈ nodes st →
    node_type n1 ≠ Py.lit "paper" →
    node_type n1 = node_type n2 → node_label n1 = node_label n2 →
    node_id n1 = node_id n2;
  inv_types : Forall (fun n => node_type n ∈ node_types) (nodes st)
}.

(** The endpoints the relationship loop finds for a relationship. *)
Definition endpoints (entity_nodes : gmap str uuid) (rel : ExtractedRelationship)
    : option (uuid * uuid) :=
  from_id ← entity_nodes !! from_entity_label rel;
  to_id ← entity_nodes !! to_entity_label rel;
  Some (from_id, to_id).

(** The endpoints, type and confidence of the edge the relationship loop
    builds for a relationship, when it builds one. *)
Definition expected_edge (entity_nodes : gmap str uuid) (rel : ExtractedRelationship)
    : option (uuid * uuid * str * Q) :=
  ends ← endpoints entity_nodes rel;
  c ← confidence rel;
  Some (ends.1, ends.2, relationship_type rel, c).

(** The endpoints, type and confidence of an edge. *)
Definition edge_summary (e : Edge) : uuid * uuid * str * Q :=
  (from_node_id e, to_node_id e, edge_type e, edge_confidence e).

(** The title of a document whose title is not [null]. *)
Definition title_or (fallback : str) (f : md_field) : str :=
  match f with
  | Str s => s
  | _ => fallback
  end.

(** Neither the title nor the abstract of the document is [null]: the two
    constructors of steps 4 and 5 accept it. *)
Definition accepted (doc : Ingested) : bool :=
  match md_title doc, md_abstract doc with
  | Null, _ | _, Null => false
  | _, _ => true
  end.

(** The paper node and the row of [papers] built for an accepted
    document. *)
Definition paper_node_of (id : uuid) (doc : Ingested) : Node :=
  mkNode id (Py.lit "paper")
         (sanitize_string (title_or (Py.lit "Unknown Paper") (md_title doc)))
         (paper_properties doc).

Definition paper_row_of (id : uuid) (doc : Ingested) : PaperMetadata :=
  mkPaper id (sanitize_string (title_or (Py.lit "Unknown") (md_title doc)))
          (md_year doc).

(** The state of [ingest_paper] on an accepted document when the loop over
    the entities is over. *)
Definition after_entities (st : Store) (doc : Ingested)
    (extraction_result : EntityExtractionResult) : IngestState :=
  let validated_result := validate_and_normalize extraction_result in
  let '(pid, st) := uuid4 st in
  let '(paper_id, st) := create_node_supabase st (paper_node_of pid doc) in
  let st := create_paper st (paper_row_of paper_id doc) in
  foldl (ingest_entity paper_id) (mkIngest st ∅ [])
        (all_entities validated_result).

(** ** Sample inputs *)

(** A document with a title and nothing else, and a document for which the
    language model found no title and answered [null]. *)
Definition sample_doc (title : string) : Ingested :=
  mkIngested (Str (Py.lit title)) Absent None Absent Absent Absent [] [].

Definition untitled_doc : Ingested :=
  mkIngested Null (Str (Py.lit "We study splatting.")) None Absent Absent Absent
             [] (Py.lit "We study splatting.").

(** A document with a title for which the language model answered [null] as
    the abstract. *)
Definition abstractless_doc : Ingested :=
  mkIngested (Str (Py.lit "P3")) Null None Absent Absent Absent [] [].

(** An extraction with one metric and nothing else. *)
Definition one_metric (name : string) : EntityExtractionResult :=
  mkResult [] [] [] [mkEntity (Py.lit "metric") (Py.lit name) None []] [] [] [].

(** An extraction with a concept, a method and two relationships that leave
    the method; the second one names an entity that was not extracted. *)
Definition one_unresolvable : EntityExtractionResult :=
  mkResult [mkEntity (Py.lit "concept") (Py.lit "Splatting") None []]
           [mkEntity (Py.lit "method") (Py.lit "Fastsplat") None []]
           [] [] [] []
           [mkRel (Py.lit "Fastsplat") (Py.lit "Splatting") (Py.lit "USES")
                  (Some (9 # 10)) None None;
            mkRel (Py.lit "Fastsplat") (Py.lit "Radiance Fields")
                  (Py.lit "EXTENDS") (Some (1 # 1)) None None].

(** The store after the ingestion of a document, whether [ingest_paper]
    returns or raises. *)
Definition ingested (st : Store) (doc : Ingested) (r : EntityExtractionResult)
    : Store :=
  match ingest_paper st doc r with
  | Some (st', _) => st'
  | None => ingest_paper_raised st doc
  end.

(** The identifier, type and label of the nodes of a type. *)
Definition nodes_of_type (ty : str) (st : Store) : list (uuid * str * str) :=
  (fun n => (node_id n, node_type n, node_label n))
    <$> filter (fun n => node_type n = ty) (nodes st).

(** An ingestion state in which two labels are known: "A" is node 1 and
    "B" is node 2. *)
Definition sample_state : IngestState :=
  mkIngest (mkStore [] [] [] 3)
           (<[Py.lit "A" := 1]> (<[Py.lit "B" := 2]> ∅)) [].

(** A relationship from "A" to the given label, with the given confidence. *)
Definition sample_rel (target : string) (c : Q) : ExtractedRelationship :=
  mkRel (Py.lit "A") (Py.lit target) (Py.lit "IMPROVES_ON") (Some c) None None.

(** An extraction result with other tasks. *)
Definition with_tasks (ts : list ExtractedEntity) (r : EntityExtractionResult)
    : EntityExtractionResult :=
  mkResult (concepts r) (methods r) (datasets r) (metrics r) (authors r) ts
           (relationships r).

(** Two papers, and the edge expected for the answer
    [{"relationship_type": "EXTENDS"}] on them when 7 is the next id. *)
Definition sample_paper1 : Node := mkNode 1 (Py.lit "paper") (Py.lit "P1") [].
Definition sample_paper2 : Node := mkNode 2 (Py.lit "paper") (Py.lit "P2") [].

Definition sample_extends_edge : Edge :=
  mkEdge 7 2 1 (Py.lit "EXTENDS") (1 # 2)
         [(Py.lit "rationale", JStr []); (Py.lit "evidence_concepts", JList [])].

(** ** Pairs of papers *)

(** The unordered pair behind an ordered pair of papers. *)
Definition key_of (pq : uuid * uuid) : uuid * uuid := pair_key pq.1 pq.2.

(** The two papers have a dataset in common. *)
Definition shares_dataset (st : Store) (p q : uuid) : Prop :=
  get_paper_dataset_ids st p ∩ get_paper_dataset_ids st q ≠ ∅.


(** Five papers, 1 to 5: papers 1 and 2 have the dataset 10 in common,
    papers 2 and 3 the method 11, and papers 4 and 5 are linked to a concept
    of their own each. *)
Definition five_papers : Store :=
  let paper (id : uuid) (title : string) :=
    mkNode id (Py.lit "paper") (Py.lit title) [] in
  let introduces (id from to : uuid) :=
    mkEdge id from to (Py.lit "INTRODUCES") 1 [] in
  mkStore
    [paper 1 "A"%string; paper 2 "B"%string; paper 3 "C"%string;
     paper 4 "D"%string; paper 5 "E"%string;
     mkNode 10 (Py.lit "dataset") (Py.lit "DatasetX") [];
     mkNode 11 (Py.lit "method") (Py.lit "Fastsplat") [];
     mkNode 12 (Py.lit "concept") (Py.lit "Splatting") [];
     mkNode 13 (Py.lit "concept") (Py.lit "Radiance Fields") []]
    [introduces 20 1 10; introduces 21 2 10; introduces 22 2 11;
     introduces 23 3 11; introduces 24 4 12; introduces 25 5 13]
    [mkPaper 1 (Py.lit "A") None; mkPaper 2 (Py.lit "B") None;
     mkPaper 3 (Py.lit "C") None; mkPaper 4 (Py.lit "D") None;
     mkPaper 5 (Py.lit "E") None]
    30.

(** ** Predicates used in the proofs *)

(** A token: not empty and free of whitespace. *)
Definition token (w : str) : Prop :=
  w ≠ [] ∧ Forall (fun c => Py.isspace c = false) w.

(** A code point that [sanitize_string] keeps. *)
Definition clean (c : N) : Prop := problematic c = false.

(** The words of a normalised label: the transformed words of the sanitised
    label. *)
Definition normalized_words (raw : str) : list str :=
  map normalize_word (Py.split (sanitize_string raw)).

(** A string of ASCII characters. *)
Definition ascii_str (s : str) : Prop := Forall (fun c => c < 128) s.

(** What the rest of the batch does to an entity already in [normalized]. *)
Definition absorb (es : list ExtractedEntity) (a : ExtractedEntity) : ExtractedEntity :=
  foldl (fun existing e => merge_entity e existing) a
        (filter (fun e => entity_key e = Py.lower (label a)) (retained es)).

(** [seen_labels] points at the entity of [normalized] with that key. *)
Definition points_to (seen : gmap str nat) (acc : list ExtractedEntity) : Prop :=
  ∀ k i, seen !! k = Some i ↔ ∃ a, acc !! i = Some a ∧ Py.lower (label a) = k.

(** A validated relationship carries a confidence between 0 and 1. *)
Definition valid_confidence (rel : ExtractedRelationship) : Prop :=
  ∃ c, confidence rel = Some c ∧ (0 <= c)%Q ∧ (c <= 1)%Q.

(** What [validate_and_normalize] guarantees of an entity. *)
Definition valid_entity (e : ExtractedEntity) : Prop :=
  entity_type e ∈ entity_types ∧ ∃ raw, label e = _normalize_label raw.

(** An edge between two papers points the way its type demands. *)
Definition directed (paper1 paper2 : Node) (e : Edge) : Prop :=
  if bool_decide (edge_type e ∈ inverted_types)
  then from_node_id e = node_id paper2 ∧ to_node_id e = node_id paper1
  else from_node_id e = node_id paper1 ∧ to_node_id e = node_id paper2.

(** The preloaded dictionaries hold what the repository answers. *)
Record preload_ok (st : Store) (pl : Preload) : Prop := mkPreloadOk {
  pl_nodes : ∀ id n, odict_get id (paper_nodes pl) = Some n → node_id n = id;
  pl_datasets : ∀ id X, paper_datasets pl !! id = Some X → X = get_paper_dataset_ids st id;
  pl_methods : ∀ id X, paper_methods pl !! id = Some X → X = get_paper_method_ids st id;
  pl_concepts : ∀ id X, paper_concepts pl !! id = Some X → X = get_paper_concept_ids st id
}.

(** What a pass maintains: no unordered pair was handed over twice, every
    pair handed over is marked as seen, and every pair handed over satisfies
    the criterion [P] of the pass. *)
Definition link_inv (P : uuid * uuid → Prop) (s : LinkState) : Prop :=
  NoDup (key_of <$> calls s)
  ∧ (∀ k, k ∈ key_of <$> calls s → k ∈ seen_pairs s)
  ∧ Forall P (calls s).

(** The criterion of the similarity pass for the pair [(P, Q)]. *)
Definition similar_and_shared (get_similar_papers_for_node : uuid → nat → list uuid)
    (st : Store) (k_neighbors : nat) (pq : uuid * uuid) : Prop :=
  pq.1 ≠ pq.2
  ∧ get_paper_dataset_ids st pq.1 ≠ ∅
  ∧ pq.2 ∈ get_similar_papers_for_node pq.1 k_neighbors
  ∧ get_paper_dataset_ids st pq.2 ≠ ∅
  ∧ shares_dataset st pq.1 pq.2.

(** ** What ingestion stores for a document *)

(** The node and the row of [papers] that [ingest_paper] stores for a
    document when [st] is the store it starts from. *)
Definition stored_paper_node (st : Store) (doc : Ingested) : Node :=
  sanitize_node_data (paper_node_of (next_id st) doc).

Definition stored_paper_row (st : Store) (doc : Ingested) : PaperMetadata :=
  paper_row_of (next_id st) doc.

(** The store has a node for the entity: same label, same type. *)
Definition has_node (st : Store) (e : ExtractedEntity) : Prop :=
  ∃ n, n ∈ nodes st ∧ node_label n = label e ∧ node_type n = entity_type e.

(** An extraction in which two entities of different types have the label
    "Nerf". *)
Definition same_label_twice : EntityExtractionResult :=
  mkResult [mkEntity (Py.lit "concept") (Py.lit "Nerf") None []]
           [mkEntity (Py.lit "method") (Py.lit "Nerf") None []]
           [] [] [] [] [].

(** The store after the ingestion of a paper with the metric PSNR, and after
    the ingestion of a second paper with the same metric. *)
Definition psnr_once : Store :=
  ingested empty_store (sample_doc "P1") (one_metric "PSNR").

Definition psnr_twice : Store :=
  ingested psnr_once (sample_doc "P2") (one_metric "PSNR").

(** ** The edges that ingestion writes *)

(** The types of the edges from a paper to its entities. *)
Definition paper_edge_types : list str :=
  [Py.lit "INTRODUCES"; Py.lit "AUTHORED_BY"].

(** The identifier of an entity node of the store. *)
Definition entity_node_id (st : Store) (id : uuid) : Prop :=
  ∃ n, n ∈ nodes st ∧ node_id n = id ∧ node_type n ∈ entity_types.

(** No two nodes have the same identifier, and every edge is an edge from a
    paper to an entity or leaves an entity node. *)
Record graph_inv (st : Store) : Prop := mkGraphInv {
  ginv_nodup : NoDup (node_id <$> nodes st);
  ginv_edges :
    Forall (fun e => edge_type e ∈ paper_edge_types
                     ∨ entity_node_id st (from_node_id e))
           (edges st)
}.

(** The identifiers that [entity_nodes] holds are those of entity nodes. *)
Definition entity_nodes_inv (s : IngestState) : Prop :=
  ∀ lbl id, entity_nodes s !! lbl = Some id → entity_node_id (ig_store s) id.

(** The store after the ingestion of a paper with the dataset Mip-NeRF 360. *)
Definition dataset_once : Store :=
  ingested empty_store (sample_doc "P1")
    (mkResult [] [] [mkEntity (Py.lit "dataset") (Py.lit "Mip-NeRF 360") None []]
              [] [] [] []).

(** ** Stores built by ingestion and linking *)

(** The stores that ingestions and linking passes build from the empty
    database, whatever the language model, the debugger and the vector
    index answer in each pass; the store that an ingestion or a pass left by
    an exception leaves behind is one of them. *)
Inductive built : Store → Prop :=
| built_empty : built empty_store
| built_ingest st doc r st' summary :
    built st →
    ingest_paper st doc r = Some (st', summary) →
    built st'
| built_raised st doc r :
    built st →
    ingest_paper st doc r = None →
    built (ingest_paper_raised st doc)
| built_link st float_of_str DEBUG complete_json :
    built st →
    built (lk_store (link_cross_paper_relationships float_of_str DEBUG
                       complete_json st))
| built_link_pruned st float_of_str DEBUG complete_json
    get_similar_papers_for_node k_neighbors :
    built st →
    built (lk_store (link_cross_paper_relationships_pruned float_of_str DEBUG
                       complete_json get_similar_papers_for_node st k_neighbors))
| built_link_pruned_2 st float_of_str DEBUG complete_json set_trace :
    built st →
    built (lk_store (link_cross_paper_relationships_pruned_2 float_of_str DEBUG
                       complete_json set_trace st)).

(** The confidence of the edge is between 0 and 1. *)
Definition confidence_in_range (e : Edge) : Prop :=
  (0 <= edge_confidence e)%Q ∧ (edge_confidence e <= 1)%Q.






(** ** What a linking pass leaves alone *)

(** The columns of an edge that an upsert never writes. *)
Definition edge_key (e : Edge) : uuid * uuid * uuid * str :=
  (edge_id e, from_node_id e, to_node_id e, edge_type e).

(** The state [s] of a pass started on [st]: the nodes and the papers are
    those of [st], the edges of [st] are still there, in their place and
    with their identifier, endpoints and type, at most one edge was added
    for each edge counted, and one identifier was drawn for each. *)
Definition pass_preserves (st : Store) (s : LinkState) : Prop :=
  nodes (lk_store s) = nodes st
  ∧ papers (lk_store s) = papers st
  ∧ (edge_key <$> edges st) `prefix_of` (edge_key <$> edges (lk_store s))
  ∧ (length (edges (lk_store s)) ≤ length (edges st) + lk_edges_created s)%nat
  ∧ next_id (lk_store s) = next_id st + N.of_nat (lk_edges_created s).




(** A pass that was left was left right after the last pair was handed
    over, by a debugger that raised for that pair. *)
Definition left_after_last_call (set_trace : uuid → uuid → bool)
    (s : LinkState) : Prop :=
  lk_raised s = true →
  ∃ pq, last (calls s) = Some pq ∧ set_trace pq.1 pq.2 = false.



(** ** The ranges of the chunks *)

(** The values of [start] and [end] at each [chunks.append] of the loop of
    [_chunk_text]. *)
Fixpoint chunk_ranges (times_0_7 : Z → Q) (fuel : nat) (text : str)
    (chunk_size overlap : Z) (start : Z) : option (list (Z * Z)) :=
  match fuel with
  | O => None
  | S fuel =>
      if decide (start < Z.of_nat (length text))%Z then
        let end_ := (chunk_step times_0_7 text chunk_size start).2 in
        rest ← chunk_ranges times_0_7 fuel text chunk_size overlap
                 (end_ - overlap)%Z;
        Some ((start, end_) :: rest)
      else Some []
  end.

(** The product in exact arithmetic; for the chunk size 2000 of the call in
    [ingest_from_text] the float product is 1400.0 as well. *)
Definition exact_times_0_7 (chunk_size : Z) : Q := inject_Z chunk_size * (7 # 10).

(** ** Answers of the language model *)

(** The dictionaries among the entries of an answer. *)
Definition as_dict (v : json) : option pydict :=
  match v with JDict d => Some d | _ => None end.

(** An answer with two relationships, the second with a confidence above 1. *)
Definition answer_with_bad_confidence : json :=
  JList [JDict [(Py.lit "relationship_type", JStr (Py.lit "EXTENDS"));
                (Py.lit "confidence", JNum (9 # 10))];
         JDict [(Py.lit "relationship_type", JStr (Py.lit "SIMILAR_TO"));
                (Py.lit "confidence", JNum (3 # 2))]].

(** A language model that gives this answer for every pair. *)
Definition bad_confidence_model (_ _ : Node) (_ _ : list Node) : option json :=
  Some answer_with_bad_confidence.

(** A [float] that accepts no string. *)
Definition no_float (_ : str) : option Q := None.


(** A language model whose every call raises, a debugger that raises each
    time it is entered, and one that always returns. *)
Definition failing_model (_ _ : Node) (_ _ : list Node) : option json := None.
Definition debugger_raises (_ _ : uuid) : bool := false.

(** ** Pairs of a list *)


(** ** Neighbours of a paper *)

(** The two sample papers with a SIMILAR_TO edge from the first to the
    second. *)
Definition two_similar_papers : Store :=
  mkStore [sample_paper1; sample_paper2]
          [mkEdge 7 1 2 (Py.lit "SIMILAR_TO") (3 # 4) []]
          [mkPaper 1 (Py.lit "P1") None; mkPaper 2 (Py.lit "P2") None]
          8.


(** The end of an edge that is not the given paper, as [get_similar_papers]
    determines it. *)
Definition other_end (paper : uuid) (e : Edge) : uuid :=
  if decide (from_node_id e = paper) then to_node_id e else from_node_id e.

(** ** Sanitised values *)

(** No string inside the value, at any depth, has a code point that
    [sanitize_string] removes.  Keys are not looked at. *)
Fixpoint json_clean (v : json) : bool :=
  match v with
  | JStr s => forallb (fun c => negb (problematic c)) s
  | JList l => forallb json_clean l
  | JDict d => forallb (fun kv => json_clean kv.2) d
  | _ => true
  end.

(** An induction principle that reaches the values inside lists and
    dictionaries. *)
Section JsonInduction.

Variable P : json → Prop.
Hypothesis Hnull : P JNull.
Hypothesis Hbool : ∀ b, P (JBool b).
Hypothesis Hnum : ∀ q, P (JNum q).
Hypothesis Hstr : ∀ s, P (JStr s).
Hypothesis Hlist : ∀ l, Forall P l → P (JList l).
Hypothesis Hdict : ∀ d, Forall (fun kv => P kv.2) d → P (JDict d).

Fixpoint json_nested_ind (v : json) : P v :=
  match v with
  | JNull => Hnull
  | JBool b => Hbool b
  | JNum q => Hnum q
  | JStr s => Hstr s
  | JList l =>
      Hlist l ((fix go (l : list json) : Forall P l :=
                  match l with
                  | [] => @List.Forall_nil _ P
                  | x :: r => @List.Forall_cons _ P x r (json_nested_ind x) (go r)
                  end) l)
  | JDict d =>
      Hdict d ((fix go (d : list (str * json)) : Forall (fun kv => P kv.2) d :=
                  match d with
                  | [] => @List.Forall_nil _ _
                  | kv :: r => @List.Forall_cons _ _ kv r (json_nested_ind kv.2) (go r)
                  end) d)
  end.

End JsonInduction.

(** * Properties *)

(** ** Python strings *)

(** Comparisons on code points, as propositions. *)
Ltac cp_bool :=
  repeat progress
    (rewrite ?andb_true_iff, ?orb_false_iff, ?andb_false_iff, ?orb_true_iff,
       ?N.leb_le, ?N.leb_gt, ?N.eqb_eq, ?N.eqb_neq in * ).

Ltac cp_solve := cp_bool; lia.

Module PyFacts.
Import Py.

Lemma tolower_cp_idem c : tolower_cp (tolower_cp c) = tolower_cp c.
Proof.
  unfold tolower_cp. destruct (isupper_cp c) eqn:E; [|by rewrite E].
  assert (isupper_cp (c + 32) = false) as ->; [|done].
  unfold isupper_cp in *. cp_solve.
Qed.

Lemma lower_idem s : lower (lower s) = lower s.
Proof.
  unfold lower. rewrite <-list_fmap_compose.
  apply list_fmap_ext. intros _ c _. apply tolower_cp_idem.
Qed.

Lemma tolower_cp_nospace c : isspace c = false → isspace (tolower_cp c) = false.
Proof.
  unfold tolower_cp. destruct (isupper_cp c) eqn:E; [|done].
  intros _. unfold isupper_cp, isspace in *. cp_solve.
Qed.

Lemma totitle_cp_nospace c :
  isspace c = false → Forall (fun d => isspace d = false) (totitle_cp c).
Proof.
  intros Hc. unfold totitle_cp.
  destruct ((97 <=? c) && (c <=? 122)) eqn:E.
  - constructor; [|constructor]. unfold isspace. cp_solve.
  - destruct (c =? 329) eqn:E'; repeat constructor; done.
Qed.

Lemma totitle_cp_nonempty c : totitle_cp c ≠ [].
Proof. unfold totitle_cp. repeat case_match; done. Qed.

Lemma capitalize_token w : token w → token (capitalize w).
Proof.
  intros [Hne Hw]. destruct w as [|c r]; [done|]. simpl.
  apply Forall_cons in Hw as [Hc Hr]. split.
  - pose proof (totitle_cp_nonempty c). destruct (totitle_cp c); done.
  - apply Forall_app. split; [by apply totitle_cp_nospace|].
    unfold lower. apply Forall_fmap. eapply Forall_impl; [exact Hr|].
    intros d. apply tolower_cp_nospace.
Qed.

(** *** [split] *)

Lemma split_from_token tok w s :
  Forall (fun c => isspace c = false) w →
  split_from tok (w ++ s) = split_from (tok ++ w) s.
Proof.
  revert tok. induction w as [|c w IH]; intros tok Hw; simpl.
  - by rewrite app_nil_r.
  - apply Forall_cons in Hw as [-> Hw]. rewrite IH by done.
    by rewrite <-app_assoc.
Qed.

Lemma split_from_space tok c s :
  isspace c = true → tok ≠ [] →
  split_from tok (c :: s) = tok :: split s.
Proof. intros Hc Htok. simpl. rewrite Hc. by destruct tok. Qed.

Lemma split_from_spaces tok ws :
  Forall (fun c => isspace c = true) ws →
  split_from tok ws = split_from tok [].
Proof.
  intros Hws. revert tok. induction Hws as [|c ws Hc _ IH]; intros tok; [done|].
  simpl. rewrite Hc. destruct tok; by rewrite IH.
Qed.

Lemma split_from_trailing tok s ws :
  Forall (fun c => isspace c = true) ws →
  split_from tok (s ++ ws) = split_from tok s.
Proof.
  intros Hws. revert tok. induction s as [|c s IH]; intros tok.
  - by apply split_from_spaces.
  - simpl. destruct (isspace c); [destruct tok|]; by rewrite ?IH.
Qed.

Lemma lstrip_decomp s :
  ∃ ws, s = ws ++ lstrip s ∧ Forall (fun c => isspace c = true) ws.
Proof.
  induction s as [|c s (ws & Hs & Hws)]; [by exists []|]. simpl.
  destruct (isspace c) eqn:E.
  - exists (c :: ws). split; [by rewrite Hs at 1 | by constructor].
  - by exists [].
Qed.

Lemma split_lstrip s : split (lstrip s) = split s.
Proof.
  unfold split. induction s as [|c s IH]; [done|]. simpl.
  destruct (isspace c) eqn:E; [done|]. simpl. by rewrite E.
Qed.

Lemma split_rstrip s : split (rstrip s) = split s.
Proof.
  unfold rstrip, split. destruct (lstrip_decomp (rev s)) as (ws & Hs & Hws).
  apply (f_equal (@rev N)) in Hs. rewrite rev_involutive, rev_app_distr in Hs.
  rewrite Hs at 2. symmetry. apply split_from_trailing.
  by apply List.Forall_rev.
Qed.

Lemma split_strip s : split (strip s) = split s.
Proof. unfold strip. by rewrite split_rstrip, split_lstrip. Qed.

(** Every word that [split] returns is a token. *)
Lemma split_from_tokens tok s :
  Forall (fun c => isspace c = false) tok →
  Forall token (split_from tok s).
Proof.
  revert tok. induction s as [|c s IH]; intros tok Htok; simpl.
  - destruct tok as [|t tok]; [constructor|].
    constructor; [by split|constructor].
  - destruct (isspace c) eqn:E.
    + destruct tok; [by apply IH|].
      constructor; [done|]. by apply IH.
    + apply IH. apply Forall_app. by repeat constructor.
Qed.

Lemma split_tokens s : Forall token (split s).
Proof. by apply split_from_tokens. Qed.

(** The characters of the words are characters of the string. *)
Lemma split_from_Forall (P : N → Prop) tok s :
  Forall P tok → Forall P s → Forall (Forall P) (split_from tok s).
Proof.
  revert tok. induction s as [|c s IH]; intros tok Htok Hs; simpl.
  - destruct tok as [|t tok]; [constructor|].
    constructor; [done|constructor].
  - apply Forall_cons in Hs as [Hc Hs]. destruct (isspace c).
    + destruct tok; [by apply IH|]. constructor; [done|]. by apply IH.
    + apply IH; [|done]. apply Forall_app. by repeat constructor.
Qed.

Lemma split_Forall (P : N → Prop) s : Forall P s → Forall (Forall P) (split s).
Proof. by apply split_from_Forall. Qed.

(** *** [join] with a single space *)

Local Abbreviation sp := (lit " ").

Lemma join_cons w w' ws : join sp (w :: w' :: ws) = w ++ sp ++ join sp (w' :: ws).
Proof. done. Qed.

Lemma split_join ws : Forall token ws → split (join sp ws) = ws.
Proof.
  induction 1 as [|w ws [Hne Hw] Hws IH]; [done|].
  destruct ws as [|w' ws].
  - simpl. unfold split.
    pose proof (split_from_token [] w [] Hw) as H.
    rewrite app_nil_r in H. rewrite H. simpl. by destruct w.
  - rewrite join_cons. unfold split.
    rewrite split_from_token, app_nil_l by done.
    change (sp ++ join sp (w' :: ws)) with (32 :: join sp (w' :: ws)).
    rewrite split_from_space by done. by rewrite IH.
Qed.

Lemma join_Forall (P : N → Prop) ws :
  P 32 → Forall (Forall P) ws → Forall P (join sp ws).
Proof.
  intros Hsp. induction 1 as [|w ws Hw Hws IH]; [constructor|].
  destruct ws as [|w' ws]; [done|].
  rewrite join_cons. apply Forall_app. split; [done|]. by constructor.
Qed.

Lemma join_last ws :
  ws ≠ [] → Forall token ws →
  ∃ s c, join sp ws = s ++ [c] ∧ isspace c = false.
Proof.
  intros Hne Hws. induction Hws as [|w ws [Hw Hsp] Hws IH]; [done|].
  destruct ws as [|w' ws].
  - destruct (exists_last Hw) as (s & c & ->). exists s, c. split; [done|].
    apply Forall_app in Hsp as [_ Hc]. exact (Forall_inv Hc).
  - destruct IH as (s & c & Hs & Hc); [done|].
    exists (w ++ sp ++ s), c. split; [|done].
    rewrite join_cons, Hs. by rewrite <-!app_assoc.
Qed.

Lemma strip_join ws : Forall token ws → strip (join sp ws) = join sp ws.
Proof.
  intros Hws. destruct ws as [|w ws]; [done|].
  assert (lstrip (join sp (w :: ws)) = join sp (w :: ws)) as Hl.
  { apply Forall_cons in Hws as [[Hne Hw] _].
    destruct w as [|c w]; [done|]. apply Forall_cons in Hw as [Hc _].
    destruct ws; simpl; by rewrite Hc. }
  unfold strip. rewrite Hl. unfold rstrip.
  destruct (join_last (w :: ws)) as (s & c & -> & Hc); [done..|].
  rewrite rev_app_distr. simpl. rewrite Hc. simpl.
  by rewrite rev_involutive.
Qed.

End PyFacts.

(** ** Lists *)

Lemma omap_cons {A B} (f : A → option B) x l :
  omap f (x :: l) = match f x with Some y => y :: omap f l | None => omap f l end.
Proof. done. Qed.

Lemma Forall_filter_keep {A} (P Q : A → Prop) `{!∀ x, Decision (P x)} l :
  Forall Q l → Forall Q (filter P l).
Proof.
  rewrite !Forall_forall. intros HQ x Hx.
  apply list_elem_of_filter in Hx as [_ Hx]. by apply HQ.
Qed.

(** ** Label normalisation *)

Section Normalize.
Import Py PyFacts.

Lemma sanitize_string_clean s : Forall clean (sanitize_string s).
Proof.
  unfold sanitize_string. apply Forall_forall. intros c Hc.
  by apply list_elem_of_filter in Hc as [Hc _].
Qed.

Lemma sanitize_string_id s : Forall clean s → sanitize_string s = s.
Proof.
  intros Hs. unfold sanitize_string, remove_cp.
  induction Hs as [|c s Hc Hs IH]; [done|].
  assert (c ≠ 0) as Hc0 by (intros ->; done).
  rewrite !filter_cons. rewrite !decide_True by done.
  rewrite !filter_cons, !decide_True by done.
  rewrite !filter_cons, !decide_True by done.
  by rewrite IH.
Qed.

Lemma tolower_cp_clean c : clean c → clean (tolower_cp c).
Proof.
  unfold clean, tolower_cp. destruct (isupper_cp c) eqn:E; [|done].
  intros _. unfold isupper_cp, problematic in *. cp_solve.
Qed.

Lemma totitle_cp_clean c : clean c → Forall clean (totitle_cp c).
Proof.
  intros Hc. unfold totitle_cp.
  destruct ((97 <=? c) && (c <=? 122)) eqn:E.
  - constructor; [|constructor]. unfold clean, problematic. cp_solve.
  - destruct (c =? 329) eqn:E'; repeat constructor; done.
Qed.

Lemma normalize_word_token w : token w → token (normalize_word w).
Proof.
  intros Hw. unfold normalize_word. case_match; [done|].
  by apply capitalize_token.
Qed.

Lemma normalize_word_clean w : Forall clean w → Forall clean (normalize_word w).
Proof.
  intros Hw. unfold normalize_word. case_match; [done|].
  destruct w as [|c r]; [done|]. simpl.
  apply Forall_cons in Hw as [Hc Hr]. apply Forall_app. split.
  - by apply totitle_cp_clean.
  - unfold lower. apply Forall_fmap. eapply Forall_impl; [exact Hr|].
    intros d. apply tolower_cp_clean.
Qed.

Lemma normalize_label_words raw :
  _normalize_label raw = join (lit " ") (normalized_words raw).
Proof.
  unfold _normalize_label, normalized_words.
  rewrite split_join by apply split_tokens.
  by rewrite split_strip.
Qed.

Lemma normalized_words_tokens raw : Forall token (normalized_words raw).
Proof.
  unfold normalized_words. apply Forall_fmap.
  eapply Forall_impl; [apply split_tokens|]. apply normalize_word_token.
Qed.

Lemma normalized_words_clean raw : Forall (Forall clean) (normalized_words raw).
Proof.
  unfold normalized_words. apply Forall_fmap.
  eapply Forall_impl; [apply split_Forall, sanitize_string_clean|].
  apply normalize_word_clean.
Qed.

Lemma normalize_label_clean raw : Forall clean (_normalize_label raw).
Proof.
  rewrite normalize_label_words. apply join_Forall; [done|].
  apply normalized_words_clean.
Qed.

Lemma sanitize_normalize_label raw :
  sanitize_string (_normalize_label raw) = _normalize_label raw.
Proof. apply sanitize_string_id, normalize_label_clean. Qed.

Lemma split_normalize_label raw :
  split (_normalize_label raw) = normalized_words raw.
Proof. rewrite normalize_label_words. apply split_join, normalized_words_tokens. Qed.

(** Whitespace other than U+0020 and the code points below it do not occur
    in a normalised label. *)
Lemma normalize_label_chars raw :
  Forall (fun c => 0x20 ≤ c ∧ (isspace c = true → c = 0x20)) (_normalize_label raw).
Proof.
  rewrite normalize_label_words. apply join_Forall; [split; [lia|done]|].
  pose proof (normalized_words_tokens raw) as Ht.
  pose proof (normalized_words_clean raw) as Hc.
  induction Ht as [|w ws [_ Hw] _ IH]; [constructor|].
  apply Forall_cons in Hc as [Hc Hcs]. constructor; [|by apply IH].
  clear -Hw Hc. induction Hw as [|c w Hsp _ IH]; [constructor|].
  apply Forall_cons in Hc as [Hc Hcs]. constructor; [|by apply IH].
  split; [|congruence].
  unfold clean, problematic, isspace in *. cp_solve.
Qed.

Lemma strip_normalize_label raw : strip (_normalize_label raw) = _normalize_label raw.
Proof. rewrite normalize_label_words. apply strip_join, normalized_words_tokens. Qed.

(** *** ASCII labels *)

Lemma sanitize_string_ascii s : ascii_str s → ascii_str (sanitize_string s).
Proof.
  unfold ascii_str, sanitize_string, remove_cp. intros Hs.
  by do 3 apply Forall_filter_keep.
Qed.

Lemma capitalize_idem_ascii w : ascii_str w → capitalize (capitalize w) = capitalize w.
Proof.
  intros Hw. destruct w as [|c r]; [done|].
  apply Forall_cons in Hw as [Hc _]. simpl. unfold totitle_cp.
  destruct ((97 <=? c) && (c <=? 122)) eqn:E.
  - simpl. unfold totitle_cp.
    assert ((97 <=? c - 32) && (c - 32 <=? 122) = false) as -> by cp_solve.
    assert ((c - 32 =? 329) = false) as -> by cp_solve.
    by rewrite lower_idem.
  - assert ((c =? 329) = false) as -> by cp_solve.
    simpl. unfold totitle_cp. rewrite E.
    assert ((c =? 329) = false) as -> by cp_solve.
    by rewrite lower_idem.
Qed.

Lemma normalize_word_idem_ascii w :
  ascii_str w → normalize_word (normalize_word w) = normalize_word w.
Proof.
  intros Hw. unfold normalize_word at 2 3.
  destruct (isupper w && (1 <? length w)%nat) eqn:E.
  - unfold normalize_word. by rewrite E.
  - unfold normalize_word. case_match; [done|].
    by apply capitalize_idem_ascii.
Qed.

(** On ASCII text the casing functions of Python are those of the
    specification. *)
Lemma lower_to_small s : lower s = map to_small s.
Proof. done. Qed.

Lemma isupper_ascii w : ascii_str w → isupper w = entirely_uppercase w.
Proof.
  intros Hw. unfold isupper, entirely_uppercase. rewrite andb_comm. f_equal.
  induction Hw as [|c w Hc _ IH]; [done|]. cbn [forallb existsb].
  rewrite IH, negb_orb. f_equal. f_equal.
  unfold islower_cp, ascii_small.
  assert ((c =? 329) = false) as -> by (apply N.eqb_neq; lia).
  by rewrite orb_false_r.
Qed.

Lemma capitalize_ascii w : ascii_str w → capitalize w = title_cased w.
Proof.
  intros Hw. destruct w as [|c r]; [done|].
  apply Forall_cons in Hw as [Hc _]. cbn [capitalize title_cased].
  unfold totitle_cp, to_capital, ascii_small.
  destruct ((97 <=? c) && (c <=? 122)); [done|].
  by assert ((c =? 329) = false) as -> by (apply N.eqb_neq; lia).
Qed.

Lemma normalize_word_ascii w : ascii_str w → normalize_word w = cased_token w.
Proof.
  intros Hw. unfold normalize_word, cased_token.
  by rewrite isupper_ascii, capitalize_ascii.
Qed.

Lemma sanitize_string_pattern s :
  sanitize_string s = filter (fun c => problematic c = false) s.
Proof.
  unfold sanitize_string, remove_cp.
  rewrite !list_filter_filter. apply list_filter_iff.
  intros c. split; [tauto|]. intros Hc. split_and!; try done.
  all: intros ->; done.
Qed.

Lemma normalize_label_ascii raw :
  ascii_str raw → _normalize_label raw = normalized_spec raw.
Proof.
  intros Hraw. rewrite normalize_label_words.
  unfold normalized_words, normalized_spec.
  rewrite <-sanitize_string_pattern. f_equal.
  apply Forall_fmap_ext_1.
  eapply Forall_impl; [apply split_Forall, sanitize_string_ascii, Hraw|].
  intros w. apply normalize_word_ascii.
Qed.

Lemma label_key_spec raw : ascii_str raw → label_key raw = key_spec raw.
Proof.
  intros Hraw. unfold label_key, key_spec.
  by rewrite lower_to_small, normalize_label_ascii.
Qed.

Lemma to_small_ascii c : c < 128 → to_small c < 128.
Proof. unfold to_small, ascii_capital. intros Hc. case_match; [cp_solve|done]. Qed.

Lemma to_capital_ascii c : c < 128 → to_capital c < 128.
Proof. unfold to_capital, ascii_small. intros Hc. case_match; [cp_solve|done]. Qed.

Lemma cased_token_ascii w : ascii_str w → ascii_str (cased_token w).
Proof.
  intros Hw. unfold cased_token. case_match; [done|].
  destruct w as [|c r]; [done|]. apply Forall_cons in Hw as [Hc Hr].
  cbn [title_cased]. constructor; [by apply to_capital_ascii|].
  apply Forall_fmap. eapply Forall_impl; [exact Hr|]. apply to_small_ascii.
Qed.

Lemma normalize_label_keeps_ascii raw :
  ascii_str raw → ascii_str (_normalize_label raw).
Proof.
  intros Hraw. rewrite normalize_label_ascii by done. unfold normalized_spec.
  apply join_Forall; [by vm_compute|].
  apply Forall_fmap. rewrite <-sanitize_string_pattern.
  eapply Forall_impl; [apply split_Forall, sanitize_string_ascii, Hraw|].
  apply cased_token_ascii.
Qed.

End Normalize.

(** C5.  On a label of ASCII characters [_normalize_label] computes what the
    specification describes ([normalized_spec]): the code points
    U+0000..U+0008, U+000B, U+000C and U+000E..U+001F are removed (U+007F is
    kept; tab, line feed and carriage return count as white space); what is
    left is cut into its whitespace-delimited tokens; a token with a capital
    letter, without a small letter and longer than one character is kept as
    it is, and any other token gets a capital first character and small
    letters after it; the tokens are joined by single spaces.  Hence the
    tokens of the result are the cased tokens of the input, the result is
    ASCII again, it has no code point below U+0020 and no white space other
    than U+0020, no white space at either end and one space between two
    tokens.  "PSNR" and "3D" are kept, "gpu" becomes "Gpu", "NeRF" becomes
    "Nerf", "A" stays "A", and "  3d gaussian splatting  " becomes
    "3d Gaussian Splatting". *)
Theorem normalize_label_spec (raw : str) :
  (ascii_str raw →
   _normalize_label raw = normalized_spec raw
   ∧ Py.split (_normalize_label raw)
     = map cased_token (Py.split (filter (fun c => problematic c = false) raw))
   ∧ Forall (fun c => 0x20 ≤ c < 128 ∧ (c = 0x20 ∨ Py.isspace c = false))
            (_normalize_label raw)
   ∧ Py.strip (_normalize_label raw) = _normalize_label raw
   ∧ Py.join (Py.lit " ") (Py.split (_normalize_label raw)) = _normalize_label raw)
  ∧ _normalize_label (Py.lit "PSNR") = Py.lit "PSNR"
  ∧ _normalize_label (Py.lit "  3d gaussian splatting  ")
    = Py.lit "3d Gaussian Splatting"
  ∧ _normalize_label (Py.lit "gpu") = Py.lit "Gpu"
  ∧ _normalize_label (Py.lit "NeRF") = Py.lit "Nerf"
  ∧ _normalize_label (Py.lit "3D") = Py.lit "3D"
  ∧ _normalize_label (Py.lit "A") = Py.lit "A"
  ∧ _normalize_label (Py.lit "mIP-NeRF  360") = Py.lit "Mip-nerf 360"
  ∧ _normalize_label [0x50; 0x00; 0x53; 0x09; 0x1F; 0x4E; 0x52] = Py.lit "PS NR".
Proof.
  split; [|split_and!; by vm_compute].
  intros Hraw.
  assert (Py.split (_normalize_label raw)
          = map cased_token (Py.split (filter (fun c => problematic c = false) raw)))
    as Hsplit.
  { rewrite split_normalize_label. unfold normalized_words.
    rewrite <-sanitize_string_pattern.
    apply Forall_fmap_ext_1.
    eapply Forall_impl; [apply PyFacts.split_Forall, sanitize_string_ascii, Hraw|].
    intros w. apply normalize_word_ascii. }
  split_and!.
  - by apply normalize_label_ascii.
  - exact Hsplit.
  - pose proof (normalize_label_chars raw) as H1.
    pose proof (normalize_label_keeps_ascii raw Hraw) as H2.
    unfold ascii_str in H2. rewrite Forall_forall in H1, H2.
    apply Forall_forall. intros c Hc. destruct (H1 c Hc) as [Hlo Hsp].
    split; [split; [done|by apply H2]|].
    destruct (Py.isspace c); [left; by apply Hsp | by right].
  - apply strip_normalize_label.
  - rewrite split_normalize_label. symmetry. apply normalize_label_words.
Qed.

Lemma normalize_label_spec_witness :
  ascii_str (Py.lit " neural  RADIANCE fields (NeRF) ")
  ∧ _normalize_label (Py.lit " neural  RADIANCE fields (NeRF) ")
    = normalized_spec (Py.lit " neural  RADIANCE fields (NeRF) ")
  ∧ normalized_spec (Py.lit " neural  RADIANCE fields (NeRF) ")
    = Py.lit "Neural RADIANCE Fields (nerf)".
Proof.
  assert (ascii_str (Py.lit " neural  RADIANCE fields (NeRF) ")) as H.
  { repeat constructor. }
  split; [exact H|].
  split; [|by vm_compute].
  exact (proj1 (proj1 (normalize_label_spec _) H)).
Defined.

(** C6, as it holds.  Normalising a normalised label changes nothing when
    the label is made of ASCII characters. *)
Theorem normalize_label_idempotent_ascii (x : str) :
  Forall (fun c => c < 128) x →
  _normalize_label (_normalize_label x) = _normalize_label x.
Proof.
  intros Hx. rewrite (normalize_label_words (_normalize_label x)).
  rewrite (normalize_label_words x) at 2. f_equal.
  unfold normalized_words at 1.
  rewrite sanitize_normalize_label, split_normalize_label.
  unfold normalized_words. rewrite <-list_fmap_compose.
  apply Forall_fmap_ext_1.
  eapply Forall_impl; [apply PyFacts.split_Forall, sanitize_string_ascii, Hx|].
  intros w. apply normalize_word_idem_ascii.
Qed.

Lemma normalize_label_idempotent_ascii_witness :
  Forall (fun c => c < 128) (Py.lit " neural  radiance fields (NeRF) ")
  ∧ _normalize_label (_normalize_label (Py.lit " neural  radiance fields (NeRF) "))
    = _normalize_label (Py.lit " neural  radiance fields (NeRF) ").
Proof.
  assert (Forall (fun c => c < 128) (Py.lit " neural  radiance fields (NeRF) ")) as H.
  { repeat constructor. }
  split; [exact H|]. exact (normalize_label_idempotent_ascii _ H).
Defined.

(** C6 fails on the label made of U+0149 and "a": its normal form is
    U+02BC "N" "a", whose own normal form is U+02BC "n" "a". *)
Lemma normalize_label_not_idempotent :
  _normalize_label [0x149; 0x61] = [0x2BC; 0x4E; 0x61]
  ∧ _normalize_label (_normalize_label [0x149; 0x61]) = [0x2BC; 0x6E; 0x61]
  ∧ ¬ (∀ x, _normalize_label (_normalize_label x) = _normalize_label x).
Proof.
  split_and!; [by vm_compute..|].
  intros H. specialize (H [0x149; 0x61]). vm_compute in H. discriminate H.
Qed.

(** ** Dictionaries *)





(** ** Intra-batch deduplication *)

Section Dedup.

Variable ty : str.

Local Abbreviation merge_later := (foldl (fun existing e => merge_entity e existing)).

Lemma merge_later_label a es : label (merge_later a es) = label a.
Proof. revert a. induction es as [|e es IH]; intros a; [done|]. simpl. by rewrite IH. Qed.

Lemma merge_later_type a es : entity_type (merge_later a es) = entity_type a.
Proof. revert a. induction es as [|e es IH]; intros a; [done|]. simpl. by rewrite IH. Qed.

Lemma retained_cons_blank e es :
  blank_label (label e) = true → retained (e :: es) = retained es.
Proof. intros H. unfold retained. rewrite filter_cons_False; [done|]. by rewrite H. Qed.

Lemma retained_cons_kept e es :
  blank_label (label e) = false → retained (e :: es) = e :: retained es.
Proof. intros H. unfold retained. by rewrite filter_cons_True. Qed.

Lemma absorb_cons_same e es a :
  blank_label (label e) = false → entity_key e = Py.lower (label a) →
  absorb (e :: es) a = absorb es (merge_entity e a).
Proof.
  intros Hb Hk. unfold absorb. rewrite retained_cons_kept by done.
  by rewrite filter_cons_True.
Qed.

Lemma absorb_cons_other e es a :
  entity_key e ≠ Py.lower (label a) → absorb (e :: es) a = absorb es a.
Proof.
  intros Hk. unfold absorb. destruct (blank_label (label e)) eqn:Hb.
  - by rewrite retained_cons_blank.
  - rewrite retained_cons_kept by done. by rewrite filter_cons_False.
Qed.

Lemma points_to_alter seen acc i e :
  points_to seen acc → points_to seen (alter (merge_entity e) i acc).
Proof.
  intros Hp k j. rewrite (Hp k j). rewrite list_lookup_alter.
  destruct (decide (i = j)) as [->|]; [|done]. split.
  - intros (a & Ha & Hk). exists (merge_entity e a). by rewrite Ha.
  - intros (a & Ha & Hk). destruct (acc !! j) as [b|]; [|done].
    exists b. split; [done|]. injection Ha as <-. done.
Qed.

Lemma points_to_snoc seen acc a :
  seen !! Py.lower (label a) = None → points_to seen acc →
  points_to (<[Py.lower (label a) := length acc]> seen) (acc ++ [a]).
Proof.
  intros Hnone Hp k i. rewrite lookup_insert. split.
  - case_decide as Hk.
    + intros [= <-]. exists a. by rewrite list_lookup_middle.
    + intros Hi. apply Hp in Hi as (b & Hb & Hbk). exists b.
      split; [|done]. by apply lookup_app_l_Some.
  - intros (b & Hb & Hbk). apply lookup_snoc_Some in Hb as [[Hlt Hb]|[-> ->]].
    + case_decide as Hk.
      * subst k. assert (seen !! Py.lower (label b) = Some i) as Hs.
        { apply Hp. by exists b. }
        rewrite Hk in Hnone. congruence.
      * apply Hp. by exists b.
    + subst k. by rewrite decide_True.
Qed.

(** The loop, started in a state where [seen_labels] points into
    [normalized]: the entities already there absorb the later members of
    their groups, and the remaining groups follow in the order of their first
    members. *)
Lemma normalize_loop es seen acc :
  points_to seen acc →
  (foldl (normalize_entities_step ty) (seen, acc) es).2
  = (absorb es <$> acc) ++ (canonical ty <$> groups (dom seen) (retained es)).
Proof.
  revert seen acc. induction es as [|e es IH]; intros seen acc Hp.
  { simpl. rewrite app_nil_r. symmetry. apply list_fmap_id. }
  cbn [foldl]. unfold normalize_entities_step at 2.
  destruct (blank_label (label e)) eqn:Hb.
  { rewrite IH by done. rewrite retained_cons_blank by done. f_equal.
    apply list_fmap_ext. intros _ a _. unfold absorb.
    by rewrite retained_cons_blank. }
  rewrite retained_cons_kept by done. simpl groups.
  change (Py.lower (_normalize_label (label e))) with (entity_key e).
  destruct (seen !! entity_key e) as [i|] eqn:Hs.
  - rewrite IH by by apply points_to_alter.
    rewrite decide_True by (apply elem_of_dom; eauto). f_equal.
    apply Hp in Hs as (a & Ha & Hk).
    apply list_eq. intros j. rewrite !list_lookup_fmap, list_lookup_alter.
    destruct (decide (i = j)) as [->|Hij].
    + rewrite Ha. simpl. by rewrite absorb_cons_same.
    + destruct (acc !! j) as [b|] eqn:Hb'; [|done]. simpl.
      rewrite absorb_cons_other; [done|]. intros Hkb.
      assert (seen !! entity_key e = Some j) as Hj by (apply Hp; eauto).
      assert (seen !! entity_key e = Some i) as Hi by (apply Hp; eauto).
      congruence.
  - set (a := fresh_entity ty (_normalize_label (label e)) e).
    assert (Py.lower (label a) = entity_key e) as Hka by done.
    rewrite <-Hka. rewrite IH by (apply points_to_snoc; [by rewrite Hka|done]).
    rewrite Hka. rewrite decide_False by (by apply not_elem_of_dom).
    rewrite dom_insert_L, fmap_app, <-app_assoc. f_equal.
    apply Forall_fmap_ext_1, Forall_forall. intros b Hbin.
    rewrite absorb_cons_other; [done|]. intros Hkb.
    apply list_elem_of_lookup in Hbin as [j Hj].
    assert (seen !! entity_key e = Some j) as Hj' by (apply Hp; eauto).
    congruence.
Qed.

Lemma normalize_entities_groups es :
  _normalize_entities es ty = resolve_groups ty es.
Proof.
  unfold _normalize_entities. rewrite normalize_loop.
  - by rewrite dom_empty_L.
  - intros k i. rewrite lookup_empty. split; [done|]. by intros (a & ? & _).
Qed.

Lemma canonical_type g : entity_type (canonical ty g) = ty.
Proof. unfold canonical. by rewrite merge_later_type. Qed.

Lemma canonical_label g : label (canonical ty g) = _normalize_label (label g.1).
Proof. unfold canonical. by rewrite merge_later_label. Qed.

Lemma normalize_entities_type es :
  Forall (fun a => entity_type a = ty) (_normalize_entities es ty).
Proof.
  rewrite normalize_entities_groups. unfold resolve_groups.
  apply Forall_fmap, Forall_forall. intros g _. apply canonical_type.
Qed.

Lemma normalize_entities_label es :
  Forall (fun a => ∃ raw, label a = _normalize_label raw) (_normalize_entities es ty).
Proof.
  rewrite normalize_entities_groups. unfold resolve_groups.
  apply Forall_fmap, Forall_forall. intros g _. eexists. apply canonical_label.
Qed.

End Dedup.



(** ** Confidence *)

Lemma fle_spec a b : fle a b = true ↔ (a <= b)%Q.
Proof. apply Qle_bool_iff. Qed.

Lemma flt_spec a b : flt a b = true ↔ (a < b)%Q.
Proof.
  unfold flt. rewrite negb_true_iff, <-not_true_iff_false, Qle_bool_iff.
  split; [apply Qnot_le_lt | apply Qlt_not_le].
Qed.

Lemma flt_false a b : flt a b = false ↔ (b <= a)%Q.
Proof.
  unfold flt. rewrite negb_false_iff. apply Qle_bool_iff.
Qed.

Lemma clamp_confidence_range c :
  (0 <= clamp_confidence c)%Q ∧ (clamp_confidence c <= 1)%Q.
Proof.
  unfold clamp_confidence, py_max, py_min.
  destruct (flt c 1) eqn:E1.
  - apply flt_spec in E1. destruct (flt 0 c) eqn:E0.
    + apply flt_spec in E0. split; lra.
    + split; lra.
  - assert (flt 0 1 = true) as -> by done. split; lra.
Qed.

Lemma clamp_confidence_above c : (1 < c)%Q → clamp_confidence c = 1%Q.
Proof.
  intros Hc. unfold clamp_confidence, py_max, py_min.
  assert (flt c 1 = false) as -> by (apply flt_false; lra). done.
Qed.

Lemma clamp_confidence_below c : (c < 0)%Q → clamp_confidence c = 0%Q.
Proof.
  intros Hc. unfold clamp_confidence, py_max, py_min.
  assert (flt c 1 = true) as -> by (apply flt_spec; lra).
  assert (flt 0 c = false) as -> by (apply flt_false; lra). done.
Qed.

Lemma clamp_confidence_inside c :
  (0 <= c)%Q → (c <= 1)%Q → (clamp_confidence c == c)%Q.
Proof.
  intros H0 H1. unfold clamp_confidence, py_max, py_min.
  destruct (flt c 1) eqn:E1.
  - destruct (flt 0 c) eqn:E0; [reflexivity|].
    apply flt_false in E0. lra.
  - apply flt_false in E1. assert (flt 0 1 = true) as -> by done. lra.
Qed.

Lemma new_Edge_in_range id from to ty c props :
  (0 <= c)%Q → (c <= 1)%Q →
  new_Edge id from to ty c props = Some (mkEdge id from to ty c props).
Proof.
  intros H0 H1. unfold new_Edge.
  apply fle_spec in H0, H1. by rewrite H0, H1.
Qed.

Lemma new_Edge_Some id from to ty c props e :
  new_Edge id from to ty c props = Some e →
  e = mkEdge id from to ty c props ∧ (0 <= c)%Q ∧ (c <= 1)%Q.
Proof.
  unfold new_Edge. destruct (fle 0 c) eqn:E0; [|done].
  destruct (fle c 1) eqn:E1; [|done]. simpl. intros [= <-].
  by rewrite <-!fle_spec.
Qed.

Lemma validate_relationship_confidence rel rel' :
  validate_relationship rel = Some rel' → valid_confidence rel'.
Proof.
  unfold validate_relationship. repeat case_match; try done.
  - intros [= <-]. eexists. split; [done|]. apply clamp_confidence_range.
  - intros [= <-]. eexists. split; [done|]. split; lra.
Qed.

Lemma validate_relationships_confidence rels :
  Forall valid_confidence (_validate_relationships rels).
Proof.
  unfold _validate_relationships. apply Forall_forall. intros rel' Hin.
  apply list_elem_of_omap in Hin as (rel & _ & Hrel).
  by eapply validate_relationship_confidence.
Qed.

(** [upsert_edge] leaves an edge with the identifier and the confidence of
    the edge it is given. *)
Lemma upsert_edge_stored e es :
  ∃ stored, stored ∈ upsert_edge e es ∧ edge_id stored = edge_id e
            ∧ edge_confidence stored = edge_confidence e.
Proof.
  induction es as [|f es (stored & Hin & Hid & Hc)]; simpl.
  - exists e. split; [apply list_elem_of_here|done].
  - destruct (decide (edge_id f = edge_id e)) as [Hf|].
    + eexists. split; [apply list_elem_of_here|done].
    + exists stored. split; [by apply list_elem_of_further|done].
Qed.

(** ** The graph store *)

Lemma upsert_node_fresh n ns :
  Forall (fun m => node_id m ≠ node_id n) ns → upsert_node n ns = ns ++ [n].
Proof.
  induction 1 as [|m ns Hm _ IH]; [done|]. simpl.
  rewrite decide_False by done. by rewrite IH.
Qed.

Lemma upsert_edge_ids e es x :
  x ∈ edge_id <$> es → x ∈ edge_id <$> upsert_edge e es.
Proof.
  induction es as [|f es IH]; [by rewrite elem_of_nil|]. simpl.
  destruct (decide (edge_id f = edge_id e)); simpl; rewrite !elem_of_cons;
    tauto.
Qed.

Lemma find_node_by_label_Some st lbl ty n :
  ty ≠ [] →
  find_node_by_label st lbl (Some ty) = Some n →
  n ∈ nodes st ∧ node_label n = lbl ∧ node_type n = ty.
Proof.
  intros Hty. unfold find_node_by_label.
  assert (opt_truthy (Some ty) = true) as -> by (by destruct ty).
  intros Hf. apply List.find_some in Hf as [Hin Hb].
  apply list_elem_of_In in Hin. apply andb_true_iff in Hb as [H1 H2].
  apply bool_decide_eq_true in H1, H2. by injection H2.
Qed.

Lemma find_node_by_label_None st lbl ty n :
  ty ≠ [] →
  find_node_by_label st lbl (Some ty) = None →
  n ∈ nodes st → ¬ (node_label n = lbl ∧ node_type n = ty).
Proof.
  intros Hty. unfold find_node_by_label.
  assert (opt_truthy (Some ty) = true) as -> by (by destruct ty).
  intros Hf Hin [Hl Ht]. apply list_elem_of_In in Hin.
  pose proof (List.find_none _ _ Hf n Hin) as Hb. simpl in Hb.
  rewrite Hl, Ht in Hb. by rewrite !bool_decide_eq_true_2 in Hb.
Qed.

(** ** Ingestion *)

Lemma normalize_entities_valid es ty :
  ty ∈ entity_types → Forall valid_entity (_normalize_entities es ty).
Proof.
  intros Hty. apply Forall_forall. intros a Ha. split.
  - pose proof (normalize_entities_type ty es) as H.
    rewrite Forall_forall in H. by rewrite (H a Ha).
  - pose proof (normalize_entities_label ty es) as H.
    rewrite Forall_forall in H. by apply H.
Qed.

Lemma validated_entities r :
  Forall valid_entity (all_entities (validate_and_normalize r)).
Proof.
  unfold all_entities, validate_and_normalize. simpl.
  rewrite !Forall_app. split_and!; try apply normalize_entities_valid;
    try apply Forall_nil_2; unfold entity_types; rewrite !elem_of_cons; tauto.
Qed.

Lemma entity_types_facts ty :
  ty ∈ entity_types →
  sanitize_string ty = ty ∧ ty ≠ [] ∧ ty ≠ Py.lit "paper" ∧ ty ≠ Py.lit "task".
Proof.
  unfold entity_types. rewrite !elem_of_cons, elem_of_nil.
  intros [->|[->|[->|[->|[->|[]]]]]]; by vm_compute.
Qed.

Lemma store_inv_mono st st' :
  nodes st' = nodes st → next_id st ≤ next_id st' → store_inv st → store_inv st'.
Proof.
  intros Hn Hle [H1 H2 H3]. split; rewrite Hn; [|done..].
  eapply Forall_impl; [exact H1|]. intros n Hlt. simpl in Hlt. lia.
Qed.

(** Adding a node with the next identifier keeps the invariant when the node
    is a paper, or an entity node with a type and a label that no node has. *)
Lemma store_inv_add st n :
  store_inv st → node_id n = next_id st → node_type n ∈ node_types →
  (node_type n = Py.lit "paper"
   ∨ ∀ m, m ∈ nodes st → ¬ (node_label m = node_label n ∧ node_type m = node_type n)) →
  store_inv (mkStore (nodes st ++ [n]) (edges st) (papers st) (next_id st + 1)).
Proof.
  intros [H1 H2 H3] Hid Hty Hnew. split; simpl.
  - apply Forall_app. split.
    + eapply Forall_impl; [exact H1|]. intros m Hm. simpl in Hm. lia.
    + apply Forall_singleton. lia.
  - intros n1 n2. rewrite !elem_of_app, !list_elem_of_singleton.
    intros [Hn1| ->] [Hn2| ->] Hp Ht Hl; [by apply H2| | |done].
    + destruct Hnew as [Hpaper|Hnew]; [congruence|].
      destruct (Hnew n1 Hn1). done.
    + destruct Hnew as [Hpaper|Hnew]; [congruence|].
      destruct (Hnew n2 Hn2). done.
  - apply Forall_app. split; [done|]. by apply Forall_singleton.
Qed.

Lemma create_node_fresh st id ty lbl props :
  store_inv st → id = next_id st →
  (create_node_supabase (uuid4 st).2 (mkNode id ty lbl props)).2
  = mkStore (nodes st ++ [mkNode id (sanitize_string ty) (sanitize_string lbl)
                                 (sanitize_dict props)])
            (edges st) (papers st) (next_id st + 1).
Proof.
  intros [H1 _ _] ->. unfold create_node_supabase, uuid4. simpl. f_equal.
  apply upsert_node_fresh. eapply Forall_impl; [exact H1|].
  intros m Hm. simpl in *. lia.
Qed.

Lemma resolve_entity_found st e n :
  find_node_by_label st (label e) (Some (entity_type e)) = Some n →
  resolve_entity st e = (node_id n, st).
Proof. unfold resolve_entity. by intros ->. Qed.

Lemma resolve_entity_created st e :
  find_node_by_label st (label e) (Some (entity_type e)) = None →
  resolve_entity st e
  = create_node_supabase (uuid4 st).2
      (mkNode (next_id st) (entity_type e) (label e)
         (dict_update [(Py.lit "description", json_of_opt (description e))]
            (properties e))).
Proof. unfold resolve_entity. by intros ->. Qed.

(** The find-or-create of one entity. *)
Lemma resolve_entity_spec st e :
  store_inv st → valid_entity e →
  store_inv (resolve_entity st e).2
  ∧ next_id st ≤ next_id (resolve_entity st e).2
  ∧ edges (resolve_entity st e).2 = edges st
  ∧ ∃ n, n ∈ nodes (resolve_entity st e).2
         ∧ node_id n = (resolve_entity st e).1
         ∧ node_label n = label e ∧ node_type n = entity_type e
         ∧ (nodes (resolve_entity st e).2 = nodes st
            ∨ (nodes (resolve_entity st e).2 = nodes st ++ [n]
               ∧ ∀ m, m ∈ nodes st →
                      ¬ (node_label m = label e ∧ node_type m = entity_type e))).
Proof.
  intros Hinv [Hty [raw Hraw]].
  destruct (entity_types_facts _ Hty) as (Hsan & Hne & Hpaper & _).
  destruct (find_node_by_label st (label e) (Some (entity_type e))) as [n|] eqn:Hf.
  - rewrite (resolve_entity_found _ _ _ Hf).
    apply find_node_by_label_Some in Hf as (Hin & Hl & Ht); [|done].
    simpl. split_and!; [done|lia|done|]. exists n. split_and!; try done. by left.
  - rewrite (resolve_entity_created _ _ Hf).
    rewrite create_node_fresh by done.
    rewrite Hsan, Hraw, sanitize_normalize_label, <-Hraw.
    set (n := mkNode _ _ _ _). simpl.
    assert (∀ m, m ∈ nodes st →
                 ¬ (node_label m = label e ∧ node_type m = entity_type e)) as Hnew.
    { intros m Hm. by eapply find_node_by_label_None. }
    split_and!; [|lia|done|].
    + apply store_inv_add; try done.
      * unfold node_types. rewrite elem_of_cons. by right.
      * by right.
    + exists n. split_and!; try done.
      * rewrite elem_of_app, list_elem_of_singleton. by right.
      * by right.
Qed.

Lemma ingest_entity_nodes paper s e :
  nodes (ig_store (ingest_entity paper s e)) = nodes (resolve_entity (ig_store s) e).2
  ∧ next_id (ig_store (ingest_entity paper s e))
    = next_id (resolve_entity (ig_store s) e).2 + 1.
Proof.
  unfold ingest_entity. destruct (resolve_entity (ig_store s) e) as [id st]. done.
Qed.

Lemma ingest_entity_inv paper s e :
  store_inv (ig_store s) → valid_entity e →
  store_inv (ig_store (ingest_entity paper s e)).
Proof.
  intros Hinv He. destruct (resolve_entity_spec _ _ Hinv He) as (Hinv' & _).
  destruct (ingest_entity_nodes paper s e) as [Hn Hid].
  eapply store_inv_mono; [exact Hn| |exact Hinv']. lia.
Qed.

Lemma ingest_entities_inv paper es s :
  store_inv (ig_store s) → Forall valid_entity es →
  store_inv (ig_store (foldl (ingest_entity paper) s es)).
Proof.
  intros Hinv Hes. revert s Hinv.
  induction Hes as [|e es He _ IH]; intros s Hinv; [done|].
  simpl. apply IH. by apply ingest_entity_inv.
Qed.

Lemma ingest_entities_edges_created paper es s :
  length (edges_created (foldl (ingest_entity paper) s es))
  = (length (edges_created s) + length es)%nat.
Proof.
  revert s. induction es as [|e es IH]; intros s; simpl; [lia|].
  rewrite IH. unfold ingest_entity.
  destruct (resolve_entity (ig_store s) e) as [id st]. simpl.
  rewrite length_app. simpl. lia.
Qed.

(** One iteration of the relationship loop on a validated relationship. *)
Lemma ingest_relationship_spec s rel :
  valid_confidence rel →
  ∃ s', ingest_relationship s rel = Some s'
    ∧ entity_nodes s' = entity_nodes s
    ∧ nodes (ig_store s') = nodes (ig_store s)
    ∧ next_id (ig_store s) ≤ next_id (ig_store s')
    ∧ (∀ x, x ∈ edge_id <$> edges (ig_store s) → x ∈ edge_id <$> edges (ig_store s'))
    ∧ match expected_edge (entity_nodes s) rel with
      | Some x =>
          ∃ e, edges_created s' = edges_created s ++ [e]
               ∧ edge_summary e = x
               ∧ ∃ stored, stored ∈ edges (ig_store s')
                           ∧ edge_id stored = edge_id e
                           ∧ edge_confidence stored = edge_confidence e
      | None => s' = s
      end.
Proof.
  intros (c & Hc & H0 & H1).
  unfold ingest_relationship, expected_edge, endpoints. rewrite Hc.
  destruct (entity_nodes s !! from_entity_label rel) as [f|]; simpl;
    [|by exists s; split_and!; try done; lia].
  destruct (entity_nodes s !! to_entity_label rel) as [t|]; simpl;
    [|by exists s; split_and!; try done; lia].
  rewrite new_Edge_in_range by done. simpl.
  eexists. split; [done|]. simpl. split_and!; try done; [lia| |].
  - intros x. apply upsert_edge_ids.
  - eexists. split; [done|]. split; [done|].
    match goal with |- context [upsert_edge ?e ?es] =>
      destruct (upsert_edge_stored e es) as (stored & Hin & Hid & Hconf) end.
    by exists stored.
Qed.

Lemma ingest_relationships_cons s rel rels :
  ingest_relationships s (rel :: rels)
  = s' ← ingest_relationship s rel; ingest_relationships s' rels.
Proof.
  unfold ingest_relationships. simpl.
  destruct (ingest_relationship s rel) as [s'|]; [done|].
  simpl. induction rels; done.
Qed.

(** The relationship loop on validated relationships: it does not raise, and
    [edges_created] grows by one edge for each relationship with both labels
    in [entity_nodes], in the order of the list; each of these edges is in
    the store. *)
Lemma ingest_relationships_spec rels s :
  Forall valid_confidence rels →
  ∃ s' new,
    ingest_relationships s rels = Some s'
    ∧ entity_nodes s' = entity_nodes s
    ∧ nodes (ig_store s') = nodes (ig_store s)
    ∧ next_id (ig_store s) ≤ next_id (ig_store s')
    ∧ (∀ x, x ∈ edge_id <$> edges (ig_store s) → x ∈ edge_id <$> edges (ig_store s'))
    ∧ edges_created s' = edges_created s ++ new
    ∧ edge_summary <$> new = omap (expected_edge (entity_nodes s)) rels
    ∧ Forall (fun e => edge_id e ∈ edge_id <$> edges (ig_store s')) new.
Proof.
  intros Hrels. revert s. induction Hrels as [|rel rels Hrel _ IH]; intros s.
  { exists s, []. split_and!; rewrite ?app_nil_r; try done; lia. }
  rewrite ingest_relationships_cons.
  destruct (ingest_relationship_spec s rel Hrel)
    as (s1 & -> & Hmap & Hnodes & Hnext & Hids & Hedge).
  simpl.
  destruct (IH s1)
    as (s' & new & -> & Hmap' & Hnodes' & Hnext' & Hids' & Hcr & Hsum & Hst).
  rewrite Hmap in Hsum.
  destruct (expected_edge (entity_nodes s) rel) as [x|] eqn:Hx.
  - destruct Hedge as (e & He & Hes & stored & Hin & Hid & _).
    exists s', (e :: new). split_and!; try done; try congruence; try lia.
    + intros y Hy. by apply Hids', Hids.
    + rewrite Hcr, He. by rewrite <-app_assoc.
    + rewrite fmap_cons, Hes. f_equal. exact Hsum.
    + constructor; [|done]. apply Hids'. rewrite <-Hid.
      by apply list_elem_of_fmap_2.
  - subst s1. exists s', new. split_and!; done.
Qed.

Lemma ingest_paper_unfold st doc r :
  ingest_paper st doc r
  = if accepted doc then
      s ← ingest_relationships (after_entities st doc r)
            (relationships (validate_and_normalize r));
      Some (ig_store s,
            mkSummary (next_id st) (size (entity_nodes s))
                      (length (edges_created s)))
    else None.
Proof.
  unfold ingest_paper, after_entities, accepted, _create_paper_node,
    paper_node_of, paper_row_of.
  destruct (md_title doc), (md_abstract doc); done.
Qed.

Lemma ingest_paper_Some st doc r x :
  ingest_paper st doc r = Some x →
  accepted doc = true
  ∧ (s ← ingest_relationships (after_entities st doc r)
           (relationships (validate_and_normalize r));
     Some (ig_store s,
           mkSummary (next_id st) (size (entity_nodes s))
                     (length (edges_created s)))) = Some x.
Proof.
  rewrite ingest_paper_unfold. by destruct (accepted doc).
Qed.

Lemma after_entities_unfold st doc r :
  after_entities st doc r
  = foldl (ingest_entity (next_id st))
      (mkIngest
         (create_paper
            (create_node_supabase (uuid4 st).2 (paper_node_of (next_id st) doc)).2
            (paper_row_of (next_id st) doc))
         ∅ [])
      (all_entities (validate_and_normalize r)).
Proof. done. Qed.

Lemma after_entities_inv st doc r :
  store_inv st → store_inv (ig_store (after_entities st doc r)).
Proof.
  intros Hinv. rewrite after_entities_unfold.
  apply ingest_entities_inv; [|apply validated_entities]. cbn [ig_store].
  unfold paper_node_of. rewrite create_node_fresh by done.
  match goal with
  | |- store_inv (create_paper ?x _) => apply (store_inv_mono x); [done|simpl; lia|]
  end.
  apply store_inv_add; try done.
  - unfold node_types. simpl. rewrite elem_of_cons. by left.
  - by left.
Qed.

Lemma ingest_paper_inv st doc r st' summary :
  store_inv st → ingest_paper st doc r = Some (st', summary) → store_inv st'.
Proof.
  intros Hinv Hing.
  destruct (ingest_relationships_spec
              (relationships (validate_and_normalize r))
              (after_entities st doc r))
    as (s' & new & Hs & _ & Hnodes & Hnext & _);
    [apply validate_relationships_confidence|].
  apply ingest_paper_Some in Hing as [Hacc Hing]. rewrite Hs in Hing. simpl in Hing.
  injection Hing as <- _.
  eapply store_inv_mono; [exact Hnodes|exact Hnext|].
  by apply after_entities_inv.
Qed.

(** [ingest_paper] raises on the documents that are not accepted, and on no
    other: the relationship loop is given validated confidences. *)
Lemma ingest_paper_None st doc r :
  ingest_paper st doc r = None ↔ accepted doc = false.
Proof.
  rewrite ingest_paper_unfold.
  destruct (ingest_relationships_spec
              (relationships (validate_and_normalize r))
              (after_entities st doc r))
    as (s' & new & Hs & _);
    [apply validate_relationships_confidence|].
  rewrite Hs. by destruct (accepted doc).
Qed.

Lemma empty_store_inv : store_inv empty_store.
Proof. split; simpl; [constructor| |constructor]. intros n1 n2 Hn1. by apply elem_of_nil in Hn1. Qed.

(** What a raising ingestion leaves behind: the store as it was, or the
    store with one more paper node. *)
Lemma ingest_paper_raised_cases st doc :
  store_inv st →
  ingest_paper_raised st doc = st
  ∨ ∃ n, node_id n = next_id st ∧ node_type n = Py.lit "paper"
         ∧ ingest_paper_raised st doc
           = mkStore (nodes st ++ [n]) (edges st) (papers st) (next_id st + 1).
Proof.
  intros Hinv.
  pose proof (create_node_fresh st (next_id st) (Py.lit "paper")) as Hfresh.
  unfold ingest_paper_raised, _create_paper_node, new_Node, uuid4 in *.
  cbn [snd] in Hfresh.
  destruct (sanitized_or _ _) as [title|]; [|by left]. right.
  cbn [mbind option_bind]. rewrite Hfresh by done.
  eexists. split_and!; [| |reflexivity]; [done|by vm_compute].
Qed.

Lemma ingest_paper_raised_inv st doc :
  store_inv st → store_inv (ingest_paper_raised st doc).
Proof.
  intros Hinv.
  destruct (ingest_paper_raised_cases st doc Hinv) as [->|(n & Hid & Hty & ->)];
    [done|].
  apply store_inv_add; try done.
  - rewrite Hty. unfold node_types. rewrite elem_of_cons. by left.
  - by left.
Qed.

Lemma reachable_inv st : reachable st → store_inv st.
Proof.
  induction 1 as [|st doc r st' summary _ IH Hing|st doc r _ IH _];
    [apply empty_store_inv| |].
  - by eapply ingest_paper_inv.
  - by apply ingest_paper_raised_inv.
Qed.

Lemma ingested_reachable st doc r : reachable st → reachable (ingested st doc r).
Proof.
  intros Hst. unfold ingested.
  destruct (ingest_paper st doc r) as [[st' summary]|] eqn:Hing.
  - by eapply reachable_ingest.
  - by eapply reachable_raised.
Qed.

(** C1, as it holds.  In every store that ingestion builds from the empty
    database, two entity nodes with the same type and exactly the same label
    are one node; an entity whose type and normalised label are those of a
    node resolves to the id of that node and creates nothing; and in every
    case the entity resolves to a node with its type and its label, which is
    either already there or is appended when no node has that type and
    label.  Labels are compared as they are: nothing is said of labels that
    differ in case. *)
Theorem find_or_create_exact_label (st : Store) :
  reachable st →
  (∀ n1 n2,
     n1 ∈ nodes st → n2 ∈ nodes st →
     node_type n1 ≠ Py.lit "paper" →
     node_type n1 = node_type n2 → node_label n1 = node_label n2 →
     node_id n1 = node_id n2)
  ∧ (∀ r e n,
       e ∈ all_entities (validate_and_normalize r) →
       n ∈ nodes st →
       node_type n = entity_type e → node_label n = label e →
       resolve_entity st e = (node_id n, st))
  ∧ (∀ r e,
       e ∈ all_entities (validate_and_normalize r) →
       ∃ n, n ∈ nodes (resolve_entity st e).2
            ∧ node_id n = (resolve_entity st e).1
            ∧ node_type n = entity_type e ∧ node_label n = label e
            ∧ (nodes (resolve_entity st e).2 = nodes st
               ∨ (nodes (resolve_entity st e).2 = nodes st ++ [n]
                  ∧ ∀ m, m ∈ nodes st →
                         ¬ (node_label m = label e ∧ node_type m = entity_type e)))).
Proof.
  intros Hreach. pose proof (reachable_inv st Hreach) as Hinv.
  split_and!.
  - apply Hinv.
  - intros r e n He Hn Hty Hl.
    pose proof (validated_entities r) as Hval. rewrite Forall_forall in Hval.
    destruct (Hval e He) as [Hety _].
    destruct (entity_types_facts _ Hety) as (_ & Hne & Hpaper & _).
    destruct (find_node_by_label st (label e) (Some (entity_type e))) as [m|] eqn:Hf.
    + rewrite (resolve_entity_found _ _ _ Hf).
      apply find_node_by_label_Some in Hf as (Hm & Hml & Hmt); [|done].
      f_equal. apply (inv_unique st Hinv); congruence.
    + destruct (find_node_by_label_None _ _ _ n Hne Hf Hn). done.
  - intros r e He.
    pose proof (validated_entities r) as Hval. rewrite Forall_forall in Hval.
    destruct (resolve_entity_spec st e Hinv (Hval e He))
      as (_ & _ & _ & n & Hn & Hid & Hl & Hty & Hcase).
    exists n. split_and!; done.
Qed.

Lemma find_or_create_exact_label_witness :
  reachable (ingested empty_store (sample_doc "P1") (one_metric "PSNR"))
  ∧ resolve_entity (ingested empty_store (sample_doc "P1") (one_metric "PSNR"))
      (mkEntity (Py.lit "metric") (Py.lit "PSNR") None [])
    = (2, ingested empty_store (sample_doc "P1") (one_metric "PSNR")).
Proof.
  assert (reachable (ingested empty_store (sample_doc "P1") (one_metric "PSNR"))) as H.
  { apply ingested_reachable, reachable_empty. }
  split; [exact H|].
  destruct (find_or_create_exact_label _ H) as (_ & Hreuse & _).
  apply (Hreuse (one_metric " PSNR ")
                (mkEntity (Py.lit "metric") (Py.lit "PSNR") None [])
                (mkNode 2 (Py.lit "metric") (Py.lit "PSNR")
                        [(Py.lit "description", JNull)])).
  - vm_compute. apply list_elem_of_here.
  - vm_compute. apply list_elem_of_further, list_elem_of_here.
  - done.
  - done.
Defined.

(** C1 fails for labels that differ in case: "PSNR" in one document and
    "psnr" in the next are normalised to "PSNR" and "Psnr", which have the
    same lower case, and get two metric nodes. *)
Lemma case_variants_get_two_nodes :
  nodes_of_type (Py.lit "metric")
    (ingested (ingested empty_store (sample_doc "P1") (one_metric "PSNR"))
              (sample_doc "P2") (one_metric "psnr"))
  = [(2, Py.lit "metric", Py.lit "PSNR"); (5, Py.lit "metric", Py.lit "Psnr")]
  ∧ Py.lower (Py.lit "PSNR") = Py.lower (Py.lit "Psnr")
  ∧ label_key (Py.lit "PSNR") = label_key (Py.lit "psnr").
Proof. by vm_compute. Qed.

(** C4, as it holds.  A relationship with a source label, a target label
    and a type passes [_validate_relationships] with its confidence clamped:
    values above 1
    become 1 (so 1.7 becomes 1.0), values below 0 become 0 (so -0.2 becomes
    0.0), values in between are kept.  When both its labels are known, the
    relationship loop of [ingest_paper] then builds the edge without failing,
    and the edge it creates and stores has the clamped confidence. *)
Theorem validated_confidence_clamped
    (s : IngestState) (rel : ExtractedRelationship) (c : Q) (from_id to_id : uuid) :
  from_entity_label rel ≠ [] → to_entity_label rel ≠ [] →
  relationship_type rel ≠ [] →
  confidence rel = Some c →
  entity_nodes s !! from_entity_label rel = Some from_id →
  entity_nodes s !! to_entity_label rel = Some to_id →
  (∃ rel' s' edge stored,
     validate_relationship rel = Some rel'
     ∧ ingest_relationship s rel' = Some s'
     ∧ edges_created s' = edges_created s ++ [edge]
     ∧ edge_summary edge
       = (from_id, to_id, relationship_type rel, clamp_confidence c)
     ∧ stored ∈ edges (ig_store s')
     ∧ edge_id stored = edge_id edge
     ∧ edge_confidence stored = clamp_confidence c)
  ∧ (0 <= clamp_confidence c)%Q ∧ (clamp_confidence c <= 1)%Q
  ∧ ((1 < c)%Q → clamp_confidence c = 1%Q)
  ∧ ((c < 0)%Q → clamp_confidence c = 0%Q)
  ∧ ((0 <= c)%Q → (c <= 1)%Q → (clamp_confidence c == c)%Q)
  ∧ clamp_confidence (17 # 10) = 1%Q
  ∧ clamp_confidence (-2 # 10) = 0%Q.
Proof.
  intros Hfrom Hto Hty Hc Hf Ht.
  pose proof (clamp_confidence_range c) as [H0 H1].
  split_and!; try done.
  - set (rel' := mkRel (from_entity_label rel) (to_entity_label rel)
                       (relationship_type rel) (Some (clamp_confidence c))
                       (rationale rel) (evidence_span rel)).
    assert (validate_relationship rel = Some rel') as Hval.
    { unfold validate_relationship. rewrite Hc.
      destruct (from_entity_label rel); [done|].
      destruct (to_entity_label rel); [done|].
      by destruct (relationship_type rel). }
    destruct (ingest_relationship_spec s rel') as (s' & Hs' & _ & _ & _ & _ & Hedge).
    { by eapply validate_relationship_confidence. }
    assert (expected_edge (entity_nodes s) rel'
            = Some (from_id, to_id, relationship_type rel, clamp_confidence c)) as Hx.
    { unfold expected_edge, endpoints. simpl. by rewrite Hf, Ht. }
    rewrite Hx in Hedge. destruct Hedge as (e & He & Hsum & stored & Hin & Hid & Hconf).
    exists rel', s', e, stored. split_and!; try done.
    rewrite Hconf. unfold edge_summary in Hsum. congruence.
  - apply clamp_confidence_above.
  - apply clamp_confidence_below.
  - apply clamp_confidence_inside.
Qed.

Lemma validated_confidence_clamped_witness :
  ∃ rel' s' edge stored,
    validate_relationship (sample_rel "B" (17 # 10)) = Some rel'
    ∧ ingest_relationship sample_state rel' = Some s'
    ∧ edges_created s' = edges_created sample_state ++ [edge]
    ∧ edge_summary edge = (1, 2, Py.lit "IMPROVES_ON", clamp_confidence (17 # 10))
    ∧ stored ∈ edges (ig_store s')
    ∧ edge_id stored = edge_id edge
    ∧ edge_confidence stored = clamp_confidence (17 # 10).
Proof.
  refine (proj1 (validated_confidence_clamped sample_state
                   (sample_rel "B" (17 # 10)) (17 # 10) 1 2 _ _ _ _ _ _));
    by vm_compute.
Defined.

(** C4 fails for the edges between papers: the confidence the model gives is
    handed to the [Edge] constructor as it is, which rejects 1.7, and
    [_infer_with_llm] then returns no edge at all for the pair. *)
Lemma cross_paper_confidence_not_clamped :
  new_Edge 3 1 2 (Py.lit "SIMILAR_TO") (17 # 10) [] = None
  ∧ _infer_with_llm (fun _ => None) false
      (fun _ _ _ _ =>
         Some (JList [JDict [(Py.lit "relationship_type", JStr (Py.lit "SIMILAR_TO"));
                             (Py.lit "confidence", JNum (17 # 10))]]))
      3 sample_paper1 sample_paper2 [] []
    = [].
Proof. by vm_compute. Qed.

Lemma expected_edge_count m rels :
  Forall valid_confidence rels →
  length (omap (expected_edge m) rels)
  = length (filter (fun rel => is_Some (endpoints m rel)) rels).
Proof.
  induction 1 as [|rel rels (c & Hc & _) _ IH]; [done|].
  rewrite omap_cons. unfold expected_edge at 1. rewrite Hc.
  destruct (endpoints m rel) as [ends|] eqn:He.
  - rewrite filter_cons_True by (rewrite He; eauto). simpl. by rewrite IH.
  - rewrite filter_cons_False by (rewrite He; by intros [? ?]). done.
Qed.

(** C9.  On the relationships that [_validate_relationships] returns, the
    relationship loop of [ingest_paper] does not raise; a relationship with a
    label that is not a key of [entity_nodes] adds nothing; every other one
    adds, in the order of the list, an edge between the nodes of its two
    labels, with its type and its confidence, which is also in the store.
    The number of edges added is the number of relationships with both labels
    known, and an [ingest_paper] that returns reports one edge per entity and
    one per such relationship. *)
Theorem unresolvable_relationships_dropped
    (s : IngestState) (raw : list ExtractedRelationship) :
  (∃ s' new,
     ingest_relationships s (_validate_relationships raw) = Some s'
     ∧ entity_nodes s' = entity_nodes s
     ∧ edges_created s' = edges_created s ++ new
     ∧ edge_summary <$> new
       = omap (expected_edge (entity_nodes s)) (_validate_relationships raw)
     ∧ length new
       = length (filter (fun rel => is_Some (endpoints (entity_nodes s) rel))
                        (_validate_relationships raw))
     ∧ Forall (fun e => edge_id e ∈ edge_id <$> edges (ig_store s')) new)
  ∧ (∀ st doc r st' summary,
       ingest_paper st doc r = Some (st', summary) →
       sum_edges_created summary
       = (length (all_entities (validate_and_normalize r))
          + length (filter
                      (fun rel => is_Some (endpoints
                                    (entity_nodes (after_entities st doc r)) rel))
                      (relationships (validate_and_normalize r))))%nat).
Proof.
  split.
  - destruct (ingest_relationships_spec (_validate_relationships raw) s)
      as (s' & new & Hs & Hmap & _ & _ & _ & Hcr & Hsum & Hst);
      [apply validate_relationships_confidence|].
    exists s', new. split_and!; try done.
    rewrite <-expected_edge_count by apply validate_relationships_confidence.
    rewrite <-Hsum. by rewrite length_fmap.
  - intros st doc r st' summary Hing.
    destruct (ingest_relationships_spec
                (relationships (validate_and_normalize r))
                (after_entities st doc r))
      as (s' & new & Hs & Hmap & _ & _ & _ & Hcr & Hsum & Hst);
      [apply validate_relationships_confidence|].
    apply ingest_paper_Some in Hing as [_ Hing]. rewrite Hs in Hing.
    injection Hing as _ <-. simpl.
    rewrite Hcr, length_app.
    rewrite <-expected_edge_count by apply validate_relationships_confidence.
    change (relationships (validate_and_normalize r))
      with (_validate_relationships (relationships r)) in *.
    rewrite <-Hsum, length_fmap. f_equal.
    rewrite after_entities_unfold, ingest_entities_edges_created. done.
Qed.

Lemma unresolvable_relationships_dropped_witness :
  ingest_paper empty_store (sample_doc "P1") one_unresolvable
  = Some (ingested empty_store (sample_doc "P1") one_unresolvable,
          mkSummary 1 2 3)
  ∧ length (all_entities (validate_and_normalize one_unresolvable)) = 2%nat
  ∧ length (relationships (validate_and_normalize one_unresolvable)) = 2%nat
  ∧ 3%nat
    = (length (all_entities (validate_and_normalize one_unresolvable))
       + length (filter
                   (fun rel =>
                      is_Some (endpoints
                                 (entity_nodes
                                    (after_entities empty_store (sample_doc "P1")
                                       one_unresolvable)) rel))
                   (relationships (validate_and_normalize one_unresolvable))))%nat.
Proof.
  assert (ingest_paper empty_store (sample_doc "P1") one_unresolvable
          = Some (ingested empty_store (sample_doc "P1") one_unresolvable,
                  mkSummary 1 2 3)) as H by (vm_compute; reflexivity).
  split; [exact H|]. split; [by vm_compute|]. split; [by vm_compute|].
  destruct (unresolvable_relationships_dropped sample_state []) as [_ G].
  exact (G _ _ _ _ _ H).
Defined.

(** C10.  [validate_and_normalize] returns no task whatever tasks it is
    given; every entity it returns has one of the five types concept, method,
    dataset, metric and author; [ingest_paper] does the same whatever the
    tasks of the extraction result are; and no store built by ingestion has a
    node of type task. *)
Theorem tasks_are_dropped (r : EntityExtractionResult) :
  tasks (validate_and_normalize r) = []
  ∧ Forall (fun e => entity_type e ∈ entity_types ∧ entity_type e ≠ Py.lit "task")
           (all_entities (validate_and_normalize r))
  ∧ (∀ ts, validate_and_normalize (with_tasks ts r) = validate_and_normalize r)
  ∧ (∀ ts st doc, ingest_paper st doc (with_tasks ts r) = ingest_paper st doc r)
  ∧ (∀ st, reachable st →
           Forall (fun n => node_type n ∈ node_types ∧ node_type n ≠ Py.lit "task")
                  (nodes st)).
Proof.
  split_and!; try done.
  - eapply Forall_impl; [apply validated_entities|].
    intros e [Hty _]. split; [done|]. by apply entity_types_facts.
  - intros st Hreach. pose proof (inv_types st (reachable_inv st Hreach)) as H.
    eapply Forall_impl; [exact H|]. intros n Hn. split; [done|].
    unfold node_types in Hn. apply elem_of_cons in Hn as [->|Hn]; [done|].
    by apply entity_types_facts.
Qed.

Lemma tasks_are_dropped_witness :
  reachable (ingested empty_store (sample_doc "P1")
               (with_tasks [mkEntity (Py.lit "task") (Py.lit "view synthesis") None []]
                           (one_metric "PSNR")))
  ∧ Forall (fun n => node_type n ∈ node_types ∧ node_type n ≠ Py.lit "task")
      (nodes (ingested empty_store (sample_doc "P1")
                (with_tasks [mkEntity (Py.lit "task") (Py.lit "view synthesis") None []]
                            (one_metric "PSNR")))).
Proof.
  assert (reachable (ingested empty_store (sample_doc "P1")
               (with_tasks [mkEntity (Py.lit "task") (Py.lit "view synthesis") None []]
                           (one_metric "PSNR")))) as H.
  { apply ingested_reachable, reachable_empty. }
  split; [exact H|].
  destruct (tasks_are_dropped (one_metric "PSNR")) as (_ & _ & _ & _ & Hnodes).
  exact (Hnodes _ H).
Defined.

(** ** Cross-paper relationships *)

Section LinkingFacts.

Variable float_of_str : str → option Q.
Variable DEBUG : bool.
Variable complete_json : Node → Node → list Node → list Node → option json.

Lemma edge_of_rel_data_directed id paper1 paper2 rel_data e :
  edge_of_rel_data float_of_str id paper1 paper2 rel_data = Some e →
  directed paper1 paper2 e.
Proof.
  unfold edge_of_rel_data, is_inverted, directed.
  destruct (dict_get (Py.lit "relationship_type") rel_data) as [[| | |ty| |]|];
    simpl; try done.
  - destruct (py_float _ _) as [c|]; simpl; [|done].
    intros He. apply new_Edge_Some in He as [-> _]. simpl.
    by destruct (bool_decide (ty ∈ inverted_types)).
  - destruct (py_float _ _) as [c|]; simpl; [|done].
    intros He. apply new_Edge_Some in He as [-> _]. done.
Qed.

Lemma parse_relationships_directed items next paper1 paper2 es :
  parse_relationships float_of_str next paper1 paper2 items = Some es →
  Forall (directed paper1 paper2) es.
Proof.
  revert next es. induction items as [|item items IH]; intros next es.
  { intros [= <-]. constructor. }
  destruct item as [| | | | |rel_data]; simpl; try apply IH.
  destruct (edge_of_rel_data _ _ _ _ _) as [e|] eqn:He; simpl; [|done].
  destruct (parse_relationships _ _ _ _ _) as [rest|] eqn:Hrest; simpl; [|done].
  intros [= <-]. constructor.
  - by eapply edge_of_rel_data_directed.
  - by eapply IH.
Qed.

Lemma get_default_relationships_directed next paper1 paper2 :
  Forall (directed paper1 paper2) (_get_default_relationships next paper1 paper2).
Proof. unfold _get_default_relationships. simpl. by repeat constructor. Qed.

Lemma infer_with_llm_directed next paper1 paper2 cs ms :
  Forall (directed paper1 paper2)
         (_infer_with_llm float_of_str DEBUG complete_json next paper1 paper2 cs ms).
Proof.
  unfold _infer_with_llm. destruct DEBUG.
  { apply get_default_relationships_directed. }
  destruct (complete_json paper1 paper2 cs ms) as [[| | | |l|d]|];
    try apply Forall_nil_2.
  - destruct (parse_relationships _ _ _ _ l) as [es|] eqn:Hes; simpl;
      [|apply Forall_nil_2].
    by eapply parse_relationships_directed.
  - destruct (parse_relationships _ _ _ _ [JDict d]) as [es|] eqn:Hes; simpl;
      [|apply Forall_nil_2].
    by eapply parse_relationships_directed.
Qed.

End LinkingFacts.

(** C2.  Every edge that [_infer_with_llm] returns for the papers
    [(paper1, paper2)] runs from [paper2] to [paper1] when its type is
    IMPROVES_ON, EXTENDS or REFINES_CONCEPT, and from [paper1] to [paper2]
    when its type is any other.  For the answer
    [{relationship_type: IMPROVES_ON, confidence: 0.8}] the result is the
    single edge from [paper2] to [paper1]. *)
Theorem inferred_edge_direction
    (float_of_str : str → option Q) (DEBUG : bool)
    (complete_json : Node → Node → list Node → list Node → option json)
    (next : uuid) (paper1 paper2 : Node) (concept_nodes method_nodes : list Node) :
  (∀ e,
     e ∈ _infer_with_llm float_of_str DEBUG complete_json next paper1 paper2
            concept_nodes method_nodes →
     (edge_type e ∈ inverted_types →
      from_node_id e = node_id paper2 ∧ to_node_id e = node_id paper1)
     ∧ (edge_type e ∉ inverted_types →
        from_node_id e = node_id paper1 ∧ to_node_id e = node_id paper2))
  ∧ _infer_with_llm float_of_str false
      (fun _ _ _ _ =>
         Some (JList [JDict [(Py.lit "relationship_type", JStr (Py.lit "IMPROVES_ON"));
                             (Py.lit "confidence", JNum (8 # 10))]]))
      next paper1 paper2 concept_nodes method_nodes
    = [mkEdge next (node_id paper2) (node_id paper1) (Py.lit "IMPROVES_ON") (8 # 10)
              [(Py.lit "rationale", JStr []);
               (Py.lit "evidence_concepts", JList [])]].
Proof.
  split; [|by vm_compute].
  intros e He.
  pose proof (infer_with_llm_directed float_of_str DEBUG complete_json next
                paper1 paper2 concept_nodes method_nodes) as H.
  rewrite Forall_forall in H. specialize (H e He). unfold directed in H.
  destruct (bool_decide (edge_type e ∈ inverted_types)) eqn:E.
  - apply bool_decide_eq_true in E. done.
  - apply bool_decide_eq_false in E. done.
Qed.

Lemma inferred_edge_direction_witness :
  sample_extends_edge
  ∈ _infer_with_llm (fun _ => None) false
      (fun _ _ _ _ =>
         Some (JDict [(Py.lit "relationship_type", JStr (Py.lit "EXTENDS"))]))
      7 sample_paper1 sample_paper2 [] []
  ∧ from_node_id sample_extends_edge = node_id sample_paper2
  ∧ to_node_id sample_extends_edge = node_id sample_paper1.
Proof.
  assert (sample_extends_edge
          ∈ _infer_with_llm (fun _ => None) false
              (fun _ _ _ _ =>
                 Some (JDict [(Py.lit "relationship_type", JStr (Py.lit "EXTENDS"))]))
              7 sample_paper1 sample_paper2 [] []) as Hin.
  { vm_compute. apply list_elem_of_here. }
  split; [exact Hin|].
  apply (proj1 (proj1 (inferred_edge_direction _ _ _ _ _ _ _ _) _ Hin)).
  vm_compute. apply list_elem_of_further, list_elem_of_here.
Defined.

(** ** The linking passes *)

Lemma foldl_invariant {A B} (I : A → Prop) (f : A → B → A) l a :
  (∀ a x, x ∈ l → I a → I (f a x)) → I a → I (foldl f a l).
Proof.
  revert a. induction l as [|x l IH]; intros a Hf Ha; [done|]. simpl.
  apply IH.
  - intros b y Hy. apply Hf. by apply list_elem_of_further.
  - apply Hf; [apply list_elem_of_here|done].
Qed.

Lemma odict_get_set {V} k k' (v : V) d :
  odict_get k (odict_set k' v d) = if decide (k' = k) then Some v else odict_get k d.
Proof.
  unfold odict_get. induction d as [|[k0 v0] d IH]; simpl.
  - destruct (decide (k' = k)) as [->|Hne].
    + by rewrite bool_decide_eq_true_2.
    + by rewrite bool_decide_eq_false_2.
  - destruct (decide (k0 = k')) as [->|Hne0]; simpl.
    + destruct (decide (k' = k)) as [->|Hne].
      * by rewrite bool_decide_eq_true_2.
      * by rewrite !bool_decide_eq_false_2.
    + destruct (bool_decide (k0 = k)) eqn:E.
      * apply bool_decide_eq_true in E. subst k0. by rewrite decide_False.
      * exact IH.
Qed.

Lemma get_node_supabase_id st id n : get_node_supabase st id = Some n → node_id n = id.
Proof.
  unfold get_node_supabase. intros Hf. apply List.find_some in Hf as [_ Hb].
  by apply bool_decide_eq_true in Hb.
Qed.

Lemma preload_step_ok st pl p : preload_ok st pl → preload_ok st (preload_step st pl p).
Proof.
  intros [H1 H2 H3 H4]. unfold preload_step.
  destruct (get_node_supabase st (paper_node_id p)) as [node|] eqn:Hn; [|done].
  apply get_node_supabase_id in Hn. split; simpl.
  - intros id n. rewrite odict_get_set. case_decide; [|by apply H1]. congruence.
  - intros id X. rewrite lookup_insert. case_decide; [|by apply H2]. congruence.
  - intros id X. rewrite lookup_insert. case_decide; [|by apply H3]. congruence.
  - intros id X. rewrite lookup_insert. case_decide; [|by apply H4]. congruence.
Qed.

Lemma preload_is_ok st rows : preload_ok st (preload st rows).
Proof.
  unfold preload. apply foldl_invariant.
  - intros pl p _. apply preload_step_ok.
  - split; simpl; try done; intros id X; by rewrite lookup_empty.
Qed.

Lemma get_set_nonempty (d : gmap uuid (gset uuid)) (F : uuid → gset uuid) p :
  (∀ id X, d !! id = Some X → X = F id) →
  get_set d p ≠ ∅ → get_set d p = F p.
Proof.
  intros Hd. unfold get_set. destruct (d !! p) as [X|] eqn:E; simpl; [|done].
  intros _. by apply Hd.
Qed.



Section LinkInvariant.

Variable float_of_str : str → option Q.
Variable DEBUG : bool.
Variable complete_json : Node → Node → list Node → list Node → option json.
Variable set_trace : uuid → uuid → bool.

(** The two ways out of the block with the debugger: the debugger raised on
    an empty answer, or the block did what the block of the similarity pass
    does. *)
Lemma compare_break_and_store_cases ctx_c ctx_m src_node dst_node s :
  (compare_break_and_store float_of_str DEBUG complete_json set_trace ctx_c ctx_m
     src_node dst_node s
   = mkLink (lk_store s) (seen_pairs s) (lk_edges_created s)
            (calls s ++ [(node_id src_node, node_id dst_node)]) true
   ∧ _compare_papers float_of_str DEBUG complete_json (next_id (lk_store s))
       src_node dst_node ctx_c ctx_m = []
   ∧ set_trace (node_id src_node) (node_id dst_node) = false)
  ∨ (compare_break_and_store float_of_str DEBUG complete_json set_trace ctx_c ctx_m
       src_node dst_node s
     = compare_and_store float_of_str DEBUG complete_json ctx_c ctx_m
         src_node dst_node s
     ∧ (_compare_papers float_of_str DEBUG complete_json (next_id (lk_store s))
          src_node dst_node ctx_c ctx_m ≠ []
        ∨ set_trace (node_id src_node) (node_id dst_node) = true)).
Proof.
  unfold compare_break_and_store, compare_and_store.
  destruct (_compare_papers _ _ _ _ _ _ _ _) as [|e rels]; simpl.
  - destruct (set_trace _ _); simpl; [right|left]; split; auto.
  - right. split; [done|]. by left.
Qed.


Lemma link_inv_init P st : link_inv P (mkLink st ∅ 0 [] false).
Proof.
  split_and!; simpl; [apply NoDup_nil_2| |constructor].
  intros k Hk. by apply elem_of_nil in Hk.
Qed.

Lemma link_inv_mark P s k r :
  link_inv P s →
  link_inv P (mkLink (lk_store s) (seen_pairs s ∪ {[k]}) (lk_edges_created s)
                     (calls s) r).
Proof.
  intros (H1 & H2 & H3). split_and!; simpl; try done.
  intros k' Hk'. apply elem_of_union_l. by apply H2.
Qed.

(** The invariant after a pair was handed over, whatever else the block
    did. *)
Lemma link_inv_handed P s s' src dst :
  link_inv P s →
  key_of (src, dst) ∉ seen_pairs s →
  P (src, dst) →
  calls s' = calls s ++ [(src, dst)] →
  seen_pairs s' = seen_pairs s ∪ {[key_of (src, dst)]} →
  link_inv P s'.
Proof.
  intros (H1 & H2 & H3) Hnew HP Hcalls Hseen. unfold link_inv.
  rewrite Hcalls, Hseen. split_and!.
  - rewrite fmap_app. apply NoDup_app. split_and!; [done| |apply NoDup_singleton].
    intros k Hk. simpl. rewrite list_elem_of_singleton. intros ->.
    apply Hnew. by apply H2.
  - intros k. rewrite fmap_app, elem_of_app. simpl. rewrite list_elem_of_singleton.
    intros [Hk| ->].
    + apply elem_of_union_l. by apply H2.
    + apply elem_of_union_r. by apply elem_of_singleton.
  - apply Forall_app. split; [done|]. by apply Forall_singleton.
Qed.

Lemma link_inv_call P s ctx_c ctx_m src_node dst_node r :
  link_inv P s →
  key_of (node_id src_node, node_id dst_node) ∉ seen_pairs s →
  P (node_id src_node, node_id dst_node) →
  link_inv P
    (compare_and_store float_of_str DEBUG complete_json ctx_c ctx_m src_node dst_node
       (mkLink (lk_store s)
               (seen_pairs s ∪ {[key_of (node_id src_node, node_id dst_node)]})
               (lk_edges_created s) (calls s) r)).
Proof.
  intros Hinv Hnew HP. by eapply link_inv_handed.
Qed.


(** *** Shared-neighbour pruning *)




(** *** Similarity and shared-dataset pruning *)

Variable get_similar_papers_for_node : uuid → nat → list uuid.

Lemma pruned_inner_inv P st pl ctx_c ctx_m src_id src_node src_datasets s dst_id :
  preload_ok st pl →
  node_id src_node = src_id →
  (dst_id ≠ src_id → get_set (paper_datasets pl) dst_id ≠ ∅ →
   src_datasets ∩ get_set (paper_datasets pl) dst_id ≠ ∅ → P (src_id, dst_id)) →
  link_inv P s →
  link_inv P (pruned_inner float_of_str DEBUG complete_json pl ctx_c ctx_m
                src_id src_node src_datasets s dst_id).
Proof.
  intros Hpl Hsrc HP Hinv. unfold pruned_inner.
  destruct (decide (dst_id = src_id)) as [|Hne]; [done|].
  destruct (decide (pair_key src_id dst_id ∈ seen_pairs s)) as [|Hnew]; [done|].
  destruct (decide (get_set (paper_datasets pl) dst_id = ∅)) as [|Hdst_ds];
    [by apply link_inv_mark|].
  destruct (decide (src_datasets ∩ get_set (paper_datasets pl) dst_id = ∅))
    as [|Hshared]; [by apply link_inv_mark|].
  destruct (odict_get dst_id (paper_nodes pl)) as [dst_node|] eqn:Hdst;
    [|by apply link_inv_mark].
  apply (pl_nodes st pl Hpl) in Hdst. subst src_id dst_id.
  apply link_inv_call; [done|done|]. by apply HP.
Qed.

Lemma pruned_outer_inv st pl ctx_c ctx_m k_neighbors s p :
  preload_ok st pl →
  link_inv (similar_and_shared get_similar_papers_for_node st k_neighbors) s →
  link_inv (similar_and_shared get_similar_papers_for_node st k_neighbors)
    (pruned_outer float_of_str DEBUG complete_json get_similar_papers_for_node
       pl ctx_c ctx_m k_neighbors s p).
Proof.
  intros Hpl Hinv. unfold pruned_outer.
  destruct (odict_get (paper_node_id p) (paper_nodes pl)) as [src_node|] eqn:Hsrc;
    [|done].
  destruct (decide (get_set (paper_datasets pl) (paper_node_id p) = ∅))
    as [|Hsrc_ds]; [done|].
  apply foldl_invariant; [|done].
  intros s' dst_id Hnb Hs'. eapply pruned_inner_inv; try done.
  - by apply (pl_nodes st pl Hpl).
  - intros Hne Hdst_ds Hshared.
    pose proof (pl_datasets st pl Hpl) as Hds.
    unfold similar_and_shared, shares_dataset. simpl.
    rewrite <-(get_set_nonempty _ _ _ Hds Hsrc_ds).
    rewrite <-(get_set_nonempty _ _ _ Hds Hdst_ds). done.
Qed.

Lemma link_pruned_inv st k_neighbors :
  link_inv (similar_and_shared get_similar_papers_for_node st k_neighbors)
    (link_cross_paper_relationships_pruned float_of_str DEBUG complete_json
       get_similar_papers_for_node st k_neighbors).
Proof.
  unfold link_cross_paper_relationships_pruned.
  destruct (length (get_all_papers st) <? 2)%nat; [apply link_inv_init|].
  apply foldl_invariant; [|apply link_inv_init].
  intros s p _ Hs. apply pruned_outer_inv; [apply preload_is_ok|done].
Qed.

End LinkInvariant.

(** C8.  Every pair [(P, Q)] that [link_cross_paper_relationships_pruned]
    hands to [_compare_papers] satisfies: [P] and [Q] are different papers,
    [P] has a dataset, [Q] is among the papers that
    [get_similar_papers_for_node] returns for [P], [Q] has a dataset, and the
    two have a dataset in common.  No unordered pair is handed over twice. *)
Theorem similarity_pairs
    (float_of_str : str → option Q) (DEBUG : bool)
    (complete_json : Node → Node → list Node → list Node → option json)
    (get_similar_papers_for_node : uuid → nat → list uuid)
    (st : Store) (k_neighbors : nat) :
  Forall (fun pq =>
            pq.1 ≠ pq.2
            ∧ get_paper_dataset_ids st pq.1 ≠ ∅
            ∧ pq.2 ∈ get_similar_papers_for_node pq.1 k_neighbors
            ∧ get_paper_dataset_ids st pq.2 ≠ ∅
            ∧ get_paper_dataset_ids st pq.1 ∩ get_paper_dataset_ids st pq.2 ≠ ∅)
         (calls (link_cross_paper_relationships_pruned float_of_str DEBUG
                   complete_json get_similar_papers_for_node st k_neighbors))
  ∧ NoDup (key_of <$> calls (link_cross_paper_relationships_pruned float_of_str
                               DEBUG complete_json get_similar_papers_for_node
                               st k_neighbors)).
Proof.
  destruct (link_pruned_inv float_of_str DEBUG complete_json
              get_similar_papers_for_node st k_neighbors)
    as (Hnodup & _ & Hcrit).
  split; [|done]. exact Hcrit.
Qed.

(** * Further properties *)

(** ** The sanitiser *)

Lemma sanitize_string_filter s :
  sanitize_string s = filter (fun c => problematic c = false) s.
Proof.
  unfold sanitize_string, Py.remove_cp.
  rewrite !list_filter_filter. apply list_filter_iff.
  intros c. split; [tauto|]. intros Hc. split_and!; try done.
  all: intros ->; done.
Qed.

(** X1.  [sanitize_string] removes every code point of its pattern and nothing
    else: its result has none of them, a string without them is returned as
    it is and only such a string is, a second pass changes nothing, and the
    function works piece by piece on a concatenation. *)
Theorem sanitize_string_laws (s t : str) :
  Forall (fun c => c ≠ 0 ∧ problematic c = false) (sanitize_string s)
  ∧ (sanitize_string s = s ↔ Forall (fun c => problematic c = false) s)
  ∧ sanitize_string (sanitize_string s) = sanitize_string s
  ∧ sanitize_string (s ++ t) = sanitize_string s ++ sanitize_string t
  ∧ (length (sanitize_string s) ≤ length s)%nat.
Proof.
  split_and!.
  - eapply Forall_impl; [apply sanitize_string_clean|].
    intros c Hc. split; [|done]. intros ->. done.
  - split; [|apply sanitize_string_id].
    intros <-. apply sanitize_string_clean.
  - apply sanitize_string_id, sanitize_string_clean.
  - rewrite !sanitize_string_filter. apply filter_app.
  - rewrite sanitize_string_filter. apply length_filter.
Qed.

Lemma forallb_clean_sanitize s :
  forallb (fun c => negb (problematic c)) (sanitize_string s) = true.
Proof.
  apply forallb_forall. intros c Hc. apply list_elem_of_In in Hc.
  pose proof (sanitize_string_clean s) as H. rewrite Forall_forall in H.
  apply H in Hc. unfold clean in Hc. by rewrite Hc.
Qed.

Lemma sanitize_value_clean v : json_clean (sanitize_value v) = true.
Proof.
  induction v as [| | |s|l IH|d IH] using json_nested_ind; simpl; try done.
  - apply forallb_clean_sanitize.
  - induction IH as [|x l Hx _ IHl]; simpl; [done|]. by rewrite Hx, IHl.
  - induction IH as [|kv d Hkv _ IHd]; simpl; [done|]. by rewrite Hkv, IHd.
Qed.

Lemma sanitize_value_idem v : sanitize_value (sanitize_value v) = sanitize_value v.
Proof.
  induction v as [| | |s|l IH|d IH] using json_nested_ind; simpl; try done.
  - f_equal. apply sanitize_string_id, sanitize_string_clean.
  - f_equal. induction IH as [|x l Hx _ IHl]; simpl; [done|]. by rewrite Hx, IHl.
  - f_equal. induction IH as [|kv d Hkv _ IHd]; simpl; [done|].
    by rewrite Hkv, IHd.
Qed.

(** X2.  [sanitize_dict] keeps the keys of the dictionary, in their order, and
    does not sanitise them; every string inside the values of the result, at
    any depth of lists and dictionaries, is free of the code points that
    [sanitize_string] removes; a second pass changes nothing.  The same holds
    for [sanitize_list]. *)
Theorem sanitize_dict_deep (data : pydict) (items : list json) :
  (sanitize_dict data).*1 = data.*1
  ∧ Forall (fun kv => json_clean kv.2 = true) (sanitize_dict data)
  ∧ sanitize_dict (sanitize_dict data) = sanitize_dict data
  ∧ length (sanitize_list items) = length items
  ∧ Forall (fun v => json_clean v = true) (sanitize_list items)
  ∧ sanitize_list (sanitize_list items) = sanitize_list items.
Proof.
  unfold sanitize_dict, sanitize_list. split_and!.
  - induction data as [|kv data IH]; simpl; [done|]. f_equal. exact IH.
  - induction data as [|kv data IH]; simpl; constructor; [|done].
    apply sanitize_value_clean.
  - induction data as [|kv data IH]; simpl; [done|].
    by rewrite sanitize_value_idem, IH.
  - apply length_map.
  - induction items as [|v items IH]; simpl; constructor; [|done].
    apply sanitize_value_clean.
  - induction items as [|v items IH]; simpl; [done|].
    by rewrite sanitize_value_idem, IH.
Qed.

(** ** Validation of an extraction *)

Lemma clamp_confidence_idem c :
  clamp_confidence (clamp_confidence c) = clamp_confidence c.
Proof.
  unfold clamp_confidence, py_max, py_min.
  destruct (flt c 1) eqn:E1; [destruct (flt 0 c) eqn:E0|].
  - by rewrite E1, E0.
  - done.
  - done.
Qed.

Lemma validate_relationship_fixed rel rel' :
  validate_relationship rel = Some rel' → validate_relationship rel' = Some rel'.
Proof.
  unfold validate_relationship.
  destruct (Py.truthy (from_entity_label rel)) eqn:Hf; [|done].
  destruct (Py.truthy (to_entity_label rel)) eqn:Ht; [|done].
  destruct (Py.truthy (relationship_type rel)) eqn:Hr; [|done].
  simpl. intros [= <-]. simpl. rewrite Hf, Ht, Hr. simpl.
  destruct (confidence rel); [|done].
  by rewrite clamp_confidence_idem.
Qed.

Lemma omap_fixed {A} (f : A → option A) (l : list A) :
  (∀ x y, f x = Some y → f y = Some y) → omap f (omap f l) = omap f l.
Proof.
  intros Hf. induction l as [|x l IH]; [done|].
  rewrite omap_cons. destruct (f x) as [y|] eqn:Hx; [|done].
  rewrite omap_cons, (Hf _ _ Hx). by rewrite IH.
Qed.

Lemma truthy_nonempty s : Py.truthy s = true ↔ s ≠ [].
Proof. by destruct s. Qed.

(** X3.  [_validate_relationships] keeps, in their order, exactly the
    relationships whose two labels and type are all non-empty, and changes
    nothing but their confidence; validating an already validated list
    changes nothing. *)
Theorem validate_relationships_idempotent (rels : list ExtractedRelationship) :
  _validate_relationships (_validate_relationships rels) = _validate_relationships rels
  ∧ (fun r => (from_entity_label r, to_entity_label r, relationship_type r,
               rationale r, evidence_span r)) <$> _validate_relationships rels
    = (fun r => (from_entity_label r, to_entity_label r, relationship_type r,
                 rationale r, evidence_span r))
      <$> filter (fun r => from_entity_label r ≠ [] ∧ to_entity_label r ≠ []
                           ∧ relationship_type r ≠ []) rels.
Proof.
  split.
  - apply omap_fixed, validate_relationship_fixed.
  - unfold _validate_relationships. induction rels as [|r rels IH]; [done|].
    rewrite omap_cons. unfold validate_relationship at 1.
    destruct (Py.truthy (from_entity_label r)) eqn:Hf; simpl.
    2: { rewrite filter_cons_False; [done|].
         intros (H & _). by apply truthy_nonempty in H; rewrite H in Hf. }
    destruct (Py.truthy (to_entity_label r)) eqn:Ht; simpl.
    2: { rewrite filter_cons_False; [done|].
         intros (_ & H & _). by apply truthy_nonempty in H; rewrite H in Ht. }
    destruct (Py.truthy (relationship_type r)) eqn:Hr; simpl.
    2: { rewrite filter_cons_False; [done|].
         intros (_ & _ & H). by apply truthy_nonempty in H; rewrite H in Hr. }
    rewrite filter_cons_True by (by rewrite <-!truthy_nonempty).
    rewrite fmap_cons. simpl. f_equal. exact IH.
Qed.

(** ** Deduplication of entities *)

Lemma groups_keys seen es :
  NoDup ((fun g => entity_key g.1) <$> groups seen es)
  ∧ (∀ k, k ∈ (fun g => entity_key g.1) <$> groups seen es
          ↔ (k ∉ seen) ∧ (∃ e, e ∈ es ∧ entity_key e = k))
  ∧ (length (groups seen es) ≤ length es)%nat.
Proof.
  revert seen. induction es as [|e es IH]; intros seen; simpl.
  { split_and!; [constructor| |done].
    intros k. rewrite elem_of_nil. split; [done|].
    intros (_ & e & He & _). by apply elem_of_nil in He. }
  destruct (decide (entity_key e ∈ seen)) as [Hin|Hout].
  - destruct (IH seen) as (Hnd & Hks & Hlen). split_and!; [done| |lia].
    intros k. rewrite Hks. split.
    + intros (Hk & e' & He' & <-). split; [done|]. exists e'.
      split; [by apply list_elem_of_further|done].
    + intros (Hk & e' & He' & <-). split; [done|]. exists e'.
      apply elem_of_cons in He' as [->|He']; [done|]. by split.
  - destruct (IH ({[entity_key e]} ∪ seen)) as (Hnd & Hks & Hlen).
    rewrite fmap_cons. cbn [fst length]. split_and!; [| |lia].
    + constructor; [|done]. rewrite Hks. intros (Hk & _).
      apply Hk, elem_of_union_l, elem_of_singleton. done.
    + intros k. rewrite elem_of_cons, Hks. split.
      * intros [->|(Hk & e' & He' & <-)].
        -- split; [done|]. exists e. split; [apply list_elem_of_here|done].
        -- split; [by intros ?; apply Hk, elem_of_union_r|].
           exists e'. split; [by apply list_elem_of_further|done].
      * intros (Hk & e' & He' & <-).
        destruct (decide (entity_key e' = entity_key e)) as [Heq|Hne]; [by left|].
        right. split.
        -- intros [H%elem_of_singleton|H]%elem_of_union; done.
        -- exists e'. apply elem_of_cons in He' as [->|He']; [done|]. by split.
Qed.

(** X4.  On entities with ASCII labels, the entities that
    [_normalize_entities] returns have pairwise different keys (the small
    letters of their label); a key occurs among them exactly when some input
    entity that is not skipped has it as the key of the specification
    ([key_spec]); so no key is lost, none is invented, and the result is
    never longer than the input. *)
Theorem normalize_entities_keys (entities : list ExtractedEntity) (ty : str) :
  Forall (fun e => ascii_str (label e)) entities →
  NoDup ((fun a => map to_small (label a)) <$> _normalize_entities entities ty)
  ∧ (∀ k, k ∈ (fun a => map to_small (label a)) <$> _normalize_entities entities ty
          ↔ ∃ e, e ∈ entities ∧ blank_label (label e) = false
                 ∧ key_spec (label e) = k)
  ∧ (length (_normalize_entities entities ty) ≤ length entities)%nat.
Proof.
  intros Hascii. rewrite Forall_forall in Hascii.
  rewrite normalize_entities_groups. unfold resolve_groups.
  rewrite length_fmap, <-list_fmap_compose.
  destruct (groups_keys ∅ (retained entities)) as (Hnd & Hks & Hlen).
  rewrite (list_fmap_ext ((fun a => map to_small (label a)) ∘ canonical ty)
             (fun g => entity_key g.1))
    by (intros _ g _; simpl; by rewrite canonical_label).
  split_and!; [done| |].
  - intros k. rewrite Hks. unfold retained. split.
    + intros (_ & e & [Hb He]%list_elem_of_filter & <-). exists e.
      split_and!; [done|done|]. symmetry. by apply label_key_spec, Hascii.
    + intros (e & He & Hb & <-). split; [apply not_elem_of_empty|].
      exists e. split; [by apply list_elem_of_filter|].
      by apply label_key_spec, Hascii.
  - etrans; [exact Hlen|]. apply length_filter.
Qed.

Lemma normalize_entities_keys_witness :
  Forall (fun e => ascii_str (label e))
         [mkEntity (Py.lit "metric") (Py.lit "PSNR") None [];
          mkEntity (Py.lit "metric") (Py.lit " psnr ") None [];
          mkEntity (Py.lit "metric") (Py.lit "SSIM") None []]
  ∧ (fun a => map to_small (label a))
      <$> _normalize_entities
            [mkEntity (Py.lit "metric") (Py.lit "PSNR") None [];
             mkEntity (Py.lit "metric") (Py.lit " psnr ") None [];
             mkEntity (Py.lit "metric") (Py.lit "SSIM") None []] (Py.lit "metric")
    = [Py.lit "psnr"; Py.lit "ssim"]
  ∧ NoDup ((fun a => map to_small (label a))
             <$> _normalize_entities
                   [mkEntity (Py.lit "metric") (Py.lit "PSNR") None [];
                    mkEntity (Py.lit "metric") (Py.lit " psnr ") None [];
                    mkEntity (Py.lit "metric") (Py.lit "SSIM") None []]
                   (Py.lit "metric")).
Proof.
  assert (Forall (fun e => ascii_str (label e))
            [mkEntity (Py.lit "metric") (Py.lit "PSNR") None [];
             mkEntity (Py.lit "metric") (Py.lit " psnr ") None [];
             mkEntity (Py.lit "metric") (Py.lit "SSIM") None []]) as Ha.
  { repeat constructor. }
  split; [exact Ha|]. split; [by vm_compute|].
  exact (proj1 (normalize_entities_keys _ (Py.lit "metric") Ha)).
Defined.

(** ** The deduplication key *)

Lemma lower_join ws :
  Py.lower (Py.join (Py.lit " ") ws) = Py.join (Py.lit " ") (Py.lower <$> ws).
Proof.
  induction ws as [|w ws IH]; [done|]. destruct ws as [|w' ws]; [done|].
  rewrite fmap_cons in IH.
  rewrite PyFacts.join_cons, !fmap_cons, PyFacts.join_cons, <-IH.
  unfold Py.lower. by rewrite !map_app.
Qed.

Lemma lower_token w : token w → token (Py.lower w).
Proof.
  intros [Hne Hw]. split; [by destruct w|].
  unfold Py.lower. apply Forall_fmap. eapply Forall_impl; [exact Hw|].
  intros c. apply PyFacts.tolower_cp_nospace.
Qed.

Lemma lower_totitle_ascii c :
  c < 128 → Py.lower (Py.totitle_cp c) = [Py.tolower_cp c].
Proof.
  intros Hc. unfold Py.totitle_cp.
  destruct ((97 <=? c) && (c <=? 122)) eqn:E.
  - simpl. f_equal. unfold Py.tolower_cp, Py.isupper_cp.
    assert ((65 <=? c - 32) && (c - 32 <=? 90) = true) as -> by cp_solve.
    assert ((65 <=? c) && (c <=? 90) = false) as -> by cp_solve.
    cp_bool. lia.
  - assert ((c =? 329) = false) as -> by (apply N.eqb_neq; lia). done.
Qed.

Lemma lower_normalize_word_ascii w :
  ascii_str w → Py.lower (normalize_word w) = Py.lower w.
Proof.
  intros Hw. unfold normalize_word.
  destruct (Py.isupper w && (1 <? length w)%nat); [done|].
  destruct w as [|c r]; [done|]. apply Forall_cons in Hw as [Hc _].
  simpl Py.capitalize. unfold Py.lower at 1. rewrite map_app.
  fold (Py.lower (Py.totitle_cp c)). fold (Py.lower (Py.lower r)).
  by rewrite lower_totitle_ascii, PyFacts.lower_idem.
Qed.

Lemma label_key_words raw :
  ascii_str raw →
  label_key raw
  = Py.join (Py.lit " ") (Py.lower <$> Py.split (sanitize_string raw)).
Proof.
  intros Hraw. unfold label_key.
  rewrite normalize_label_words, lower_join. f_equal.
  unfold normalized_words.
  change (map normalize_word) with (fmap (M:=list) normalize_word).
  rewrite <-list_fmap_compose.
  apply Forall_fmap_ext_1.
  eapply Forall_impl; [apply PyFacts.split_Forall, sanitize_string_ascii, Hraw|].
  intros w Hw. by apply lower_normalize_word_ascii.
Qed.

Lemma lower_split_tokens s : Forall token (Py.lower <$> Py.split s).
Proof.
  apply Forall_fmap. eapply Forall_impl; [apply PyFacts.split_tokens|].
  intros w. apply lower_token.
Qed.

(** X5.  For ASCII labels the deduplication key is the lower-cased words of
    the sanitised label joined by single spaces; two labels therefore get the
    same key exactly when, once the control characters are removed, they
    consist of the same words up to letter case, whatever the white space
    between and around the words. *)
Theorem label_key_ascii (raw1 raw2 : str) :
  ascii_str raw1 → ascii_str raw2 →
  label_key raw1
  = Py.join (Py.lit " ") (Py.lower <$> Py.split (sanitize_string raw1))
  ∧ (label_key raw1 = label_key raw2
     ↔ Py.lower <$> Py.split (sanitize_string raw1)
       = Py.lower <$> Py.split (sanitize_string raw2)).
Proof.
  intros H1 H2. split; [by apply label_key_words|].
  rewrite !label_key_words by done. split; [|by intros ->].
  intros Heq. apply (f_equal Py.split) in Heq.
  by rewrite !PyFacts.split_join in Heq by apply lower_split_tokens.
Qed.

Lemma label_key_ascii_witness :
  ascii_str (Py.lit " Neural  radiance FIELDS")
  ∧ ascii_str (Py.lit "neural radiance fields ")
  ∧ label_key (Py.lit " Neural  radiance FIELDS")
    = label_key (Py.lit "neural radiance fields ").
Proof.
  assert (ascii_str (Py.lit " Neural  radiance FIELDS")) as H1.
  { apply Forall_forall. intros c Hc. vm_compute in Hc.
    repeat (apply elem_of_cons in Hc as [->|Hc]; [reflexivity|]).
    by apply elem_of_nil in Hc. }
  assert (ascii_str (Py.lit "neural radiance fields ")) as H2.
  { apply Forall_forall. intros c Hc. vm_compute in Hc.
    repeat (apply elem_of_cons in Hc as [->|Hc]; [reflexivity|]).
    by apply elem_of_nil in Hc. }
  split_and!; [done|done|].
  apply (proj2 (label_key_ascii _ _ H1 H2)). vm_compute. reflexivity.
Defined.

(** ** Labels that sanitising empties *)

Lemma lstrip_spaces s :
  Forall (fun c => Py.isspace c = true) s → Py.lstrip s = [].
Proof. induction 1 as [|c s Hc _ IH]; [done|]. simpl. by rewrite Hc. Qed.

Lemma lstrip_nil_spaces s :
  Py.lstrip s = [] → Forall (fun c => Py.isspace c = true) s.
Proof.
  intros Hs. destruct (PyFacts.lstrip_decomp s) as (ws & Heq & Hws).
  rewrite Hs, app_nil_r in Heq. by rewrite Heq.
Qed.

Lemma strip_nil_spaces s :
  Py.strip s = [] → Forall (fun c => Py.isspace c = true) s.
Proof.
  unfold Py.strip, Py.rstrip. intros Hs.
  apply (f_equal (@rev N)) in Hs. rewrite rev_involutive in Hs. simpl in Hs.
  apply lstrip_nil_spaces, List.Forall_rev in Hs. rewrite rev_involutive in Hs.
  destruct (PyFacts.lstrip_decomp s) as (ws & Heq & Hws).
  rewrite Heq. apply Forall_app. by split.
Qed.

Lemma blank_label_false raw :
  Exists (fun c => Py.isspace c = false) raw → blank_label raw = false.
Proof.
  intros Hex. unfold blank_label.
  destruct raw as [|c raw]; [by apply Exists_nil in Hex|]. simpl.
  destruct (Py.strip (c :: raw)) eqn:Hs; [|done].
  apply strip_nil_spaces in Hs. apply Exists_exists in Hex as (d & Hd & Hsp).
  rewrite Forall_forall in Hs. by rewrite (Hs d Hd) in Hsp.
Qed.

Lemma normalize_label_nil raw :
  Forall (fun c => Py.isspace c = true ∨ problematic c = true) raw →
  _normalize_label raw = [].
Proof.
  intros Hraw. unfold _normalize_label.
  assert (Py.strip (sanitize_string raw) = []) as ->; [|done].
  assert (Forall (fun c => Py.isspace c = true) (sanitize_string raw)) as Hs.
  { rewrite sanitize_string_filter. apply Forall_forall. intros c Hc.
    apply list_elem_of_filter in Hc as [Hclean Hc].
    rewrite Forall_forall in Hraw. destruct (Hraw c Hc) as [|Hp]; [done|].
    by rewrite Hp in Hclean. }
  unfold Py.strip, Py.rstrip. by rewrite (lstrip_spaces _ Hs).
Qed.

(** X6.  The loop of [_normalize_entities] tests the label for blankness
    before it is sanitised.  An entity whose label has a character that is
    not white space, but only characters that are white space or that the
    sanitiser removes, is therefore kept, and the entity returned for it has
    the empty label. *)
Theorem control_only_label_kept (e : ExtractedEntity) (ty : str) :
  Exists (fun c => Py.isspace c = false) (label e) →
  Forall (fun c => Py.isspace c = true ∨ problematic c = true) (label e) →
  blank_label (label e) = false
  ∧ ∃ a, _normalize_entities [e] ty = [a] ∧ label a = [] ∧ entity_type a = ty.
Proof.
  intros Hex Hall. pose proof (blank_label_false _ Hex) as Hb.
  split; [done|].
  unfold _normalize_entities. cbn [foldl]. unfold normalize_entities_step.
  rewrite Hb, (normalize_label_nil _ Hall). simpl.
  rewrite lookup_empty. simpl. eexists. split; [done|]. by split.
Qed.

Lemma control_only_label_kept_witness :
  Exists (fun c => Py.isspace c = false) [1]
  ∧ Forall (fun c => Py.isspace c = true ∨ problematic c = true) [1]
  ∧ ∃ a, _normalize_entities [mkEntity (Py.lit "concept") [1] None []]
                             (Py.lit "concept") = [a]
         ∧ label a = [].
Proof.
  assert (Exists (fun c => Py.isspace c = false) [1]) as H1.
  { apply Exists_cons_hd. reflexivity. }
  assert (Forall (fun c => Py.isspace c = true ∨ problematic c = true) [1]) as H2.
  { constructor; [right; reflexivity|constructor]. }
  split_and!; [done|done|].
  destruct (control_only_label_kept
              (mkEntity (Py.lit "concept") [1] None []) (Py.lit "concept") H1 H2)
    as (_ & a & Ha & Hl & _).
  exists a. by split.
Defined.

(** ** Round trips through the store *)

Lemma find_upsert_node n ns id :
  find (fun m => bool_decide (node_id m = id)) (upsert_node n ns)
  = if decide (id = node_id n) then Some n
    else find (fun m => bool_decide (node_id m = id)) ns.
Proof.
  induction ns as [|m ns IH]; simpl.
  - destruct (decide (id = node_id n)) as [->|Hne].
    + by rewrite bool_decide_eq_true_2.
    + by rewrite bool_decide_eq_false_2.
  - destruct (decide (node_id m = node_id n)) as [Hm|Hm]; simpl.
    + rewrite Hm. destruct (decide (id = node_id n)) as [->|Hne].
      * by rewrite bool_decide_eq_true_2.
      * by rewrite !bool_decide_eq_false_2.
    + rewrite IH. destruct (decide (id = node_id n)) as [->|Hne]; [|done].
      by rewrite bool_decide_eq_false_2.
Qed.

Lemma length_upsert_node n ns :
  length (upsert_node n ns)
  = match find (fun m => bool_decide (node_id m = node_id n)) ns with
    | Some _ => length ns
    | None => S (length ns)
    end.
Proof.
  induction ns as [|m ns IH]; simpl; [done|].
  destruct (decide (node_id m = node_id n)) as [Hm|Hm]; simpl.
  - by rewrite bool_decide_eq_true_2.
  - rewrite bool_decide_eq_false_2 by done. rewrite IH.
    by destruct (find _ ns).
Qed.

(** X7.  [create_node_supabase] followed by [get_node_supabase]: the node is
    found under its identifier, sanitised; every other identifier gives what
    it gave before; and a node whose identifier is already stored replaces
    the stored node instead of being added. *)
Theorem create_then_get_node (st : Store) (node : Node) (id : uuid) :
  (create_node_supabase st node).1 = node_id node
  ∧ get_node_supabase (create_node_supabase st node).2 id
    = (if decide (id = node_id node) then Some (sanitize_node_data node)
       else get_node_supabase st id)
  ∧ length (nodes (create_node_supabase st node).2)
    = match get_node_supabase st (node_id node) with
      | Some _ => length (nodes st)
      | None => S (length (nodes st))
      end
  ∧ Forall (fun c => problematic c = false)
           (node_label (sanitize_node_data node)).
Proof.
  unfold create_node_supabase, get_node_supabase. simpl. split_and!.
  - done.
  - apply (find_upsert_node (sanitize_node_data node)).
  - apply (length_upsert_node (sanitize_node_data node)).
  - apply sanitize_string_clean.
Qed.

Lemma upsert_edge_keys e es :
  (fun f => (edge_id f, from_node_id f, to_node_id f, edge_type f))
    <$> upsert_edge e es
  = ((fun f => (edge_id f, from_node_id f, to_node_id f, edge_type f)) <$> es)
    ++ (if decide (edge_id e ∈ edge_id <$> es) then []
        else [(edge_id e, from_node_id e, to_node_id e, edge_type e)]).
Proof.
  induction es as [|f es IH].
  - cbn [upsert_edge fmap list_fmap app].
    destruct (decide (edge_id e ∈ [])) as [Hin|_]; [|done].
    by apply elem_of_nil in Hin.
  - cbn [upsert_edge]. rewrite (fmap_cons edge_id).
    destruct (decide (edge_id f = edge_id e)) as [Hf|Hf].
    + destruct (decide (edge_id e ∈ edge_id f :: (edge_id <$> es))) as [_|Hout].
      * by rewrite app_nil_r.
      * destruct Hout. rewrite Hf. apply list_elem_of_here.
    + rewrite !fmap_cons, IH. cbn [app]. f_equal. f_equal.
      destruct (decide (edge_id e ∈ edge_id <$> es)) as [Hin|Hout];
        destruct (decide (edge_id e ∈ edge_id f :: (edge_id <$> es)))
          as [Hin'|Hout']; try done.
      * destruct Hout'. by apply list_elem_of_further.
      * apply elem_of_cons in Hin' as [?|?]; [by destruct Hf|done].
Qed.

(** X8.  [create_edge] never changes the identifier, the endpoints or the
    type of a stored edge, and keeps the edges in their order: an edge with
    a new identifier is added at the end with its type sanitised, and for an
    edge whose identifier is already stored nothing is added and the
    endpoints and the type it carries are ignored.  Nodes and papers are
    left as they are. *)
Theorem create_edge_keeps_endpoints (st : Store) (e : Edge) :
  (fun f => (edge_id f, from_node_id f, to_node_id f, edge_type f))
    <$> edges (create_edge st e)
  = ((fun f => (edge_id f, from_node_id f, to_node_id f, edge_type f))
       <$> edges st)
    ++ (if decide (edge_id e ∈ edge_id <$> edges st) then []
        else [(edge_id e, from_node_id e, to_node_id e,
               sanitize_string (edge_type e))])
  ∧ (∃ stored, stored ∈ edges (create_edge st e)
               ∧ edge_id stored = edge_id e
               ∧ edge_confidence stored = edge_confidence e)
  ∧ nodes (create_edge st e) = nodes st
  ∧ papers (create_edge st e) = papers st.
Proof.
  unfold create_edge. simpl. split_and!; [| |done|done].
  - by rewrite upsert_edge_keys.
  - match goal with
    | |- context [upsert_edge ?x _] =>
        destruct (upsert_edge_stored x (edges st)) as (stored & Hin & Hid & Hc)
    end.
    by exists stored.
Qed.

(** ** Similar papers *)

Lemma similar_papers_fold st paper es seen acc :
  (∀ n, n ∈ acc.*1 → node_id n ∈ seen) →
  NoDup (node_id <$> acc.*1) →
  NoDup (node_id <$> (foldl (similar_papers_step st paper) (seen, acc) es).2.*1)
  ∧ (∀ n, n ∈ (foldl (similar_papers_step st paper) (seen, acc) es).2.*1
          ↔ n ∈ acc.*1
            ∨ ∃ e, e ∈ es ∧ (other_end paper e ∉ seen)
                   ∧ get_node_supabase st (other_end paper e) = Some n).
Proof.
  revert seen acc. induction es as [|e es IH]; intros seen acc Hseen Hnd.
  { simpl. split; [done|]. intros n. split; [by left|].
    intros [?|(e & He & _)]; [done|]. by apply elem_of_nil in He. }
  cbn [foldl]. unfold similar_papers_step at 2 4. fold (other_end paper e).
  cbn [fst snd].
  destruct (decide (other_end paper e ∈ seen)) as [Hin|Hout].
  { destruct (IH seen acc Hseen Hnd) as [IH1 IH2]. split; [done|].
    intros n. rewrite IH2. split.
    - intros [?|(e' & He' & ? & ?)]; [by left|]. right. exists e'.
      split; [by apply list_elem_of_further|done].
    - intros [?|(e' & He' & Hn & ?)]; [by left|]. right. exists e'.
      apply elem_of_cons in He' as [->|He']; [done|]. done. }
  destruct (get_node_supabase st (other_end paper e)) as [node|] eqn:Hget.
  - pose proof (get_node_supabase_id _ _ _ Hget) as Hid.
    destruct (IH (seen ∪ {[other_end paper e]}) (acc ++ [(node, e)])) as [IH1 IH2].
    { intros n. rewrite fmap_app, elem_of_app. intros [Hn|Hn].
      - by apply elem_of_union_l, Hseen.
      - apply list_elem_of_singleton in Hn as ->. simpl. rewrite Hid.
        by apply elem_of_union_r, elem_of_singleton. }
    { rewrite !fmap_app. apply NoDup_app. split_and!; [done| |apply NoDup_singleton].
      intros x Hx Hx'. apply list_elem_of_singleton in Hx'. simpl in Hx'.
      apply list_elem_of_fmap in Hx as (n & -> & Hn). apply Hseen in Hn.
      apply Hout. by rewrite <-Hid, <-Hx'. }
    split; [done|]. intros n. rewrite IH2, fmap_app, elem_of_app. split.
    + intros [[?|Hn]|(e' & He' & Hn & ?)].
      * by left.
      * apply list_elem_of_singleton in Hn as ->. right. exists e.
        split; [apply list_elem_of_here|done].
      * right. exists e'. split; [by apply list_elem_of_further|].
        split; [|done]. intros ?. by apply Hn, elem_of_union_l.
    + intros [?|(e' & He' & Hn & Hg)]; [by left; left|].
      destruct (decide (other_end paper e' = other_end paper e)) as [Heq|Hne].
      * left. right. rewrite Heq, Hget in Hg. injection Hg as <-.
        by apply list_elem_of_singleton.
      * apply elem_of_cons in He' as [->|He']; [done|].
        right. exists e'. split; [done|]. split; [|done].
        intros [?|?%elem_of_singleton]%elem_of_union; done.
  - destruct (IH (seen ∪ {[other_end paper e]}) acc) as [IH1 IH2]; [|done|].
    { intros n Hn. by apply elem_of_union_l, Hseen. }
    split; [done|]. intros n. rewrite IH2. split.
    + intros [?|(e' & He' & Hn & ?)]; [by left|].
      right. exists e'. split; [by apply list_elem_of_further|].
      split; [|done]. intros ?. by apply Hn, elem_of_union_l.
    + intros [?|(e' & He' & Hn & Hg)]; [by left|].
      destruct (decide (other_end paper e' = other_end paper e)) as [Heq|Hne].
      * by rewrite Heq, Hget in Hg.
      * apply elem_of_cons in He' as [->|He']; [done|].
        right. exists e'. split; [done|]. split; [|done].
        intros [?|?%elem_of_singleton]%elem_of_union; done.
Qed.

Lemma get_similar_papers_nodes st a n :
  n ∈ (get_similar_papers st a).*1
  ↔ ∃ e, e ∈ edges st ∧ edge_type e = Py.lit "SIMILAR_TO"
         ∧ (from_node_id e = a ∨ to_node_id e = a)
         ∧ get_node_supabase st (other_end a e) = Some n.
Proof.
  unfold get_similar_papers.
  destruct (similar_papers_fold st a
              (get_edges_from_node st a (Some (Py.lit "SIMILAR_TO"))
               ++ get_edges_to_node st a (Some (Py.lit "SIMILAR_TO"))) ∅ [])
    as [_ H]; [by intros ? ?%elem_of_nil|constructor|].
  rewrite H. clear H. unfold get_edges_from_node, get_edges_to_node.
  change (opt_truthy (Some (Py.lit "SIMILAR_TO"))) with true. cbn iota.
  split.
  - intros [?%elem_of_nil|(e & He & _ & Hg)]; [done|]. exists e.
    apply elem_of_app in He as [He|He];
      apply list_elem_of_filter in He as [[Hend Hty] He];
      injection Hty as Hty; split_and!; auto.
  - intros (e & He & Hty & Hend & Hg). right. exists e.
    split; [|split; [apply not_elem_of_empty|done]].
    apply elem_of_app. destruct Hend as [Hend|Hend]; [left|right];
      apply list_elem_of_filter; (split; [|done]); split; by try rewrite Hty.
Qed.

Lemma get_similar_papers_sym st a b na nb :
  get_node_supabase st a = Some na →
  get_node_supabase st b = Some nb →
  nb ∈ (get_similar_papers st a).*1 → na ∈ (get_similar_papers st b).*1.
Proof.
  intros Ha Hb. rewrite !get_similar_papers_nodes.
  intros (e & He & Hty & Hend & Hg). exists e. split_and!; [done|done| |].
  - pose proof (get_node_supabase_id _ _ _ Hg) as H1.
    pose proof (get_node_supabase_id _ _ _ Hb) as H2.
    unfold other_end in H1. destruct (decide (from_node_id e = a)).
    + right. congruence.
    + left. congruence.
  - pose proof (get_node_supabase_id _ _ _ Hg) as H1.
    pose proof (get_node_supabase_id _ _ _ Hb) as H2.
    unfold other_end in *.
    destruct (decide (from_node_id e = a)) as [Hfa|Hfa];
      destruct (decide (from_node_id e = b)) as [Hfb|Hfb].
    + assert (a = b) as -> by congruence. congruence.
    + by rewrite Hfa.
    + destruct Hend as [?|Hta]; [done|]. by rewrite Hta.
    + destruct Hfb. congruence.
Qed.

(** X9.  [get_similar_papers] returns a node exactly when a SIMILAR_TO edge
    joins it to the paper, in either direction, and the node is stored; it
    returns no node twice; and the answer is symmetric: of two stored nodes,
    the second is reported for the first exactly when the first is reported
    for the second. *)
Theorem get_similar_papers_symmetric (st : Store) (a b : uuid) (na nb : Node) :
  get_node_supabase st a = Some na →
  get_node_supabase st b = Some nb →
  NoDup (node_id <$> (get_similar_papers st a).*1)
  ∧ (∀ n, n ∈ (get_similar_papers st a).*1
          ↔ ∃ e, e ∈ edges st ∧ edge_type e = Py.lit "SIMILAR_TO"
                 ∧ (from_node_id e = a ∨ to_node_id e = a)
                 ∧ get_node_supabase st (other_end a e) = Some n)
  ∧ (nb ∈ (get_similar_papers st a).*1 ↔ na ∈ (get_similar_papers st b).*1).
Proof.
  intros Ha Hb. split_and!.
  - unfold get_similar_papers.
    by apply similar_papers_fold; [intros ? ?%elem_of_nil|constructor].
  - apply get_similar_papers_nodes.
  - split; by apply get_similar_papers_sym.
Qed.

(** ** Inference over pairs of papers *)

Section InferFacts.

Variable float_of_str : str → option Q.
Variable DEBUG : bool.
Variable complete_json : Node → Node → list Node → list Node → option json.

Lemma edge_of_rel_data_None_id id id' paper1 paper2 rel_data :
  edge_of_rel_data float_of_str id paper1 paper2 rel_data = None →
  edge_of_rel_data float_of_str id' paper1 paper2 rel_data = None.
Proof.
  unfold edge_of_rel_data.
  destruct (match default (JStr (Py.lit "SIMILAR_TO"))
                    (dict_get (Py.lit "relationship_type") rel_data) with
            | JStr s => Some s
            | _ => None
            end) as [ty|]; simpl; [|done].
  destruct (py_float _ _) as [c|]; simpl; [|done].
  unfold new_Edge. by destruct (fle 0 c && fle c 1).
Qed.

Lemma parse_relationships_None items next paper1 paper2 :
  Exists (fun d => edge_of_rel_data float_of_str next paper1 paper2 d = None)
         (omap as_dict items) →
  parse_relationships float_of_str next paper1 paper2 items = None.
Proof.
  revert next. induction items as [|item items IH]; intros next Hex.
  { by apply Exists_nil in Hex. }
  destruct item as [| | | | |rel_data]; try (by apply IH).
  rewrite omap_cons in Hex. cbn [as_dict] in Hex. cbn [parse_relationships].
  apply Exists_cons in Hex as [Hbad|Hex]; [by rewrite Hbad|].
  destruct (edge_of_rel_data _ next _ _ rel_data) as [e|]; [|done]. simpl.
  rewrite IH; [done|].
  eapply Exists_impl; [exact Hex|]. intros d. apply edge_of_rel_data_None_id.
Qed.

Lemma parse_relationships_Some items next paper1 paper2 :
  Forall (fun d => is_Some (edge_of_rel_data float_of_str next paper1 paper2 d))
         (omap as_dict items) →
  ∃ es, parse_relationships float_of_str next paper1 paper2 items = Some es
        ∧ length es = length (omap as_dict items).
Proof.
  revert next. induction items as [|item items IH]; intros next Hall.
  { by exists []. }
  destruct item as [| | | | |rel_data]; try (by apply IH).
  rewrite omap_cons in Hall. cbn [as_dict] in Hall.
  apply Forall_cons in Hall as [[e He] Hall].
  destruct (IH (next + 1)) as (es & Hes & Hlen).
  { eapply Forall_impl; [exact Hall|]. intros d [e' He'].
    destruct (edge_of_rel_data _ (next + 1) _ _ d) eqn:Hd; [done|].
    apply (edge_of_rel_data_None_id _ next) in Hd. congruence. }
  exists (e :: es). cbn [parse_relationships]. rewrite He. simpl.
  rewrite Hes. simpl. split; [done|]. by rewrite Hlen.
Qed.






End InferFacts.



(** X10.  [_infer_with_llm] outside debug mode, on an answer that is a list:
    when every dictionary of the answer gives an edge, there is one edge per
    dictionary; when one of them does not, because its confidence is not a
    number within 0 and 1 or its type is not a string, the exception empties
    the whole result, the edges of the other dictionaries included. *)
Theorem infer_with_llm_all_or_nothing
    (float_of_str : str → option Q)
    (complete_json : Node → Node → list Node → list Node → option json)
    (next : uuid) (paper1 paper2 : Node) (cs ms : list Node) (items : list json) :
  complete_json paper1 paper2 cs ms = Some (JList items) →
  (Exists (fun d => edge_of_rel_data float_of_str next paper1 paper2 d = None)
          (omap as_dict items) →
   _infer_with_llm float_of_str false complete_json next paper1 paper2 cs ms = [])
  ∧ (Forall (fun d => is_Some (edge_of_rel_data float_of_str next paper1 paper2 d))
            (omap as_dict items) →
     length (_infer_with_llm float_of_str false complete_json next paper1 paper2
               cs ms)
     = length (omap as_dict items)).
Proof.
  intros Hjson. unfold _infer_with_llm. rewrite Hjson. split.
  - intros Hex. by rewrite parse_relationships_None.
  - intros Hall.
    destruct (parse_relationships_Some float_of_str items next paper1 paper2 Hall)
      as (es & -> & Hlen).
    done.
Qed.

Lemma infer_with_llm_all_or_nothing_witness :
  bad_confidence_model sample_paper1 sample_paper2 [] []
  = Some answer_with_bad_confidence
  ∧ _infer_with_llm no_float false bad_confidence_model 7
      sample_paper1 sample_paper2 [] [] = [].
Proof.
  split; [reflexivity|].
  apply (proj1 (infer_with_llm_all_or_nothing no_float bad_confidence_model 7
                  sample_paper1 sample_paper2 [] [] _ eq_refl)).
  apply Exists_cons_tl, Exists_cons_hd. reflexivity.
Defined.


Lemma get_similar_papers_symmetric_witness :
  get_node_supabase two_similar_papers 1 = Some sample_paper1
  ∧ get_node_supabase two_similar_papers 2 = Some sample_paper2
  ∧ (sample_paper2 ∈ (get_similar_papers two_similar_papers 1).*1
     ↔ sample_paper1 ∈ (get_similar_papers two_similar_papers 2).*1)
  ∧ (get_similar_papers two_similar_papers 2).*1 = [sample_paper1].
Proof.
  split_and!; [reflexivity|reflexivity| |reflexivity].
  apply (get_similar_papers_symmetric two_similar_papers 1 2
           sample_paper1 sample_paper2 eq_refl eq_refl).
Defined.

(** ** What the linking passes leave alone *)

Lemma create_edge_prefix st e :
  (edge_key <$> edges st) `prefix_of` (edge_key <$> edges (create_edge st e)).
Proof.
  unfold create_edge. cbn [edges]. unfold edge_key.
  rewrite upsert_edge_keys. eexists. reflexivity.
Qed.

Lemma length_upsert_edge e es : (length (upsert_edge e es) ≤ S (length es))%nat.
Proof.
  induction es as [|f es IH]; simpl; [done|].
  destruct (decide (edge_id f = edge_id e)); simpl; lia.
Qed.

Lemma foldl_create_edge_preserves rels st :
  nodes (foldl create_edge st rels) = nodes st
  ∧ papers (foldl create_edge st rels) = papers st
  ∧ next_id (foldl create_edge st rels) = next_id st
  ∧ (edge_key <$> edges st) `prefix_of` (edge_key <$> edges (foldl create_edge st rels))
  ∧ (length (edges (foldl create_edge st rels)) ≤ length (edges st) + length rels)%nat.
Proof.
  revert st. induction rels as [|e rels IH]; intros st.
  { simpl. split_and!; try done. lia. }
  cbn [foldl]. destruct (IH (create_edge st e)) as (H1 & H2 & H3 & H4 & H5).
  split_and!; try done.
  - etrans; [apply create_edge_prefix|done].
  - etrans; [exact H5|]. unfold create_edge. cbn [edges length].
    pose proof (length_upsert_edge
                  (mkEdge (edge_id e) (from_node_id e) (to_node_id e)
                     (sanitize_string (edge_type e)) (edge_confidence e)
                     (match edge_properties e with
                      | [] => []
                      | _ => sanitize_dict (edge_properties e)
                      end)) (edges st)).
    lia.
Qed.

Section PassPreserves.

Variable float_of_str : str → option Q.
Variable DEBUG : bool.
Variable complete_json : Node → Node → list Node → list Node → option json.
Variable set_trace : uuid → uuid → bool.
Variable get_similar_papers_for_node : uuid → nat → list uuid.

Lemma pass_preserves_init st : pass_preserves st (mkLink st ∅ 0 [] false).
Proof. unfold pass_preserves. simpl. split_and!; try done; lia. Qed.

Lemma pass_preserves_mark st s k r :
  pass_preserves st s →
  pass_preserves st (mkLink (lk_store s) (seen_pairs s ∪ {[k]})
                            (lk_edges_created s) (calls s) r).
Proof. done. Qed.

Lemma compare_and_store_preserves st ctx_c ctx_m src_node dst_node s :
  pass_preserves st s →
  pass_preserves st (compare_and_store float_of_str DEBUG complete_json
                       ctx_c ctx_m src_node dst_node s).
Proof.
  intros (H1 & H2 & H3 & H4 & H5). unfold compare_and_store.
  set (rels := _compare_papers _ _ _ _ _ _ _ _).
  set (st1 := mkStore _ _ _ _).
  destruct (foldl_create_edge_preserves rels st1) as (G1 & G2 & G3 & G4 & G5).
  unfold pass_preserves. cbn [lk_store lk_edges_created].
  rewrite G1, G2, G3. subst st1. cbn [nodes papers next_id edges] in *.
  split_and!; try done.
  - by etrans.
  - lia.
  - lia.
Qed.

Lemma compare_break_and_store_preserves st ctx_c ctx_m src_node dst_node s :
  pass_preserves st s →
  pass_preserves st (compare_break_and_store float_of_str DEBUG complete_json
                       set_trace ctx_c ctx_m src_node dst_node s).
Proof.
  intros Hs.
  destruct (compare_break_and_store_cases float_of_str DEBUG complete_json
              set_trace ctx_c ctx_m src_node dst_node s) as [(-> & _)|(-> & _)].
  - exact Hs.
  - by apply compare_and_store_preserves.
Qed.

Lemma pruned_2_inner_preserves st pl ctx_c ctx_m paper_id src_node s dst_id :
  pass_preserves st s →
  pass_preserves st (pruned_2_inner float_of_str DEBUG complete_json set_trace
                       pl ctx_c ctx_m paper_id src_node s dst_id).
Proof.
  intros Hs. unfold pruned_2_inner. repeat case_match; try done.
  by apply compare_break_and_store_preserves.
Qed.

Lemma pruned_inner_preserves st pl ctx_c ctx_m src_id src_node ds s dst_id :
  pass_preserves st s →
  pass_preserves st (pruned_inner float_of_str DEBUG complete_json pl ctx_c
                       ctx_m src_id src_node ds s dst_id).
Proof.
  intros Hs. unfold pruned_inner. repeat case_match; try done.
  by apply compare_and_store_preserves.
Qed.

Lemma link_pruned_2_preserves st :
  pass_preserves st
    (link_cross_paper_relationships_pruned_2 float_of_str DEBUG complete_json
       set_trace st).
Proof.
  unfold link_cross_paper_relationships_pruned_2.
  case_match; [apply pass_preserves_init|].
  apply foldl_invariant; [|apply pass_preserves_init].
  intros s paper_id _ Hs. unfold pruned_2_outer. repeat case_match; try done.
  apply foldl_invariant; [|done].
  intros s' dst_id _. apply pruned_2_inner_preserves.
Qed.

Lemma link_pruned_preserves st k_neighbors :
  pass_preserves st
    (link_cross_paper_relationships_pruned float_of_str DEBUG complete_json
       get_similar_papers_for_node st k_neighbors).
Proof.
  unfold link_cross_paper_relationships_pruned.
  case_match; [apply pass_preserves_init|].
  apply foldl_invariant; [|apply pass_preserves_init].
  intros s p _ Hs. unfold pruned_outer. repeat case_match; try done.
  apply foldl_invariant; [|done].
  intros s' dst_id _. apply pruned_inner_preserves.
Qed.

Lemma link_unpruned_preserves st :
  pass_preserves st
    (link_cross_paper_relationships float_of_str DEBUG complete_json st).
Proof.
  unfold link_cross_paper_relationships.
  case_match; [apply pass_preserves_init|].
  set (inferred := infer_relationships _ _ _ _ _ _ _).
  set (st1 := mkStore _ _ _ _).
  destruct (foldl_create_edge_preserves inferred.1 st1) as (G1 & G2 & G3 & G4 & G5).
  unfold pass_preserves. cbn [lk_store lk_edges_created].
  rewrite G1, G2, G3. by subst st1.
Qed.

End PassPreserves.

(** X12.  None of the three linking passes touches the nodes or the papers
    table, and none changes the identifier, the endpoints or the type of an
    edge that was stored before: the old edges stay where they are, at most
    one edge is added for each edge counted in the result, and the pass
    draws exactly one identifier for each. *)
Theorem linking_passes_preserve
    (float_of_str : str → option Q) (DEBUG : bool)
    (complete_json : Node → Node → list Node → list Node → option json)
    (set_trace : uuid → uuid → bool)
    (get_similar_papers_for_node : uuid → nat → list uuid)
    (st : Store) (k_neighbors : nat) :
  pass_preserves st
    (link_cross_paper_relationships float_of_str DEBUG complete_json st)
  ∧ pass_preserves st
      (link_cross_paper_relationships_pruned float_of_str DEBUG complete_json
         get_similar_papers_for_node st k_neighbors)
  ∧ pass_preserves st
      (link_cross_paper_relationships_pruned_2 float_of_str DEBUG complete_json
         set_trace st).
Proof.
  split_and!.
  - apply link_unpruned_preserves.
  - apply link_pruned_preserves.
  - apply link_pruned_2_preserves.
Qed.

(** ** Pruning only removes comparisons *)


Section PruningSubset.

Variable float_of_str : str → option Q.
Variable DEBUG : bool.
Variable complete_json : Node → Node → list Node → list Node → option json.
Variable set_trace : uuid → uuid → bool.
Variable get_similar_papers_for_node : uuid → nat → list uuid.








End PruningSubset.



(** ** The shared-neighbour pass misses no pair *)









Lemma pair_key_sym a b : pair_key a b = pair_key b a.
Proof.
  unfold pair_key. repeat case_decide; try done.
  - f_equal; lia.
  - lia.
Qed.













Section SharedNeighbourComplete.

Variable float_of_str : str → option Q.
Variable DEBUG : bool.
Variable complete_json : Node → Node → list Node → list Node → option json.
Variable set_trace : uuid → uuid → bool.








End SharedNeighbourComplete.





(** ** The pairs of the five-paper corpus *)







(** ** What an ingestion adds *)

Lemma resolve_entity_papers st e : papers (resolve_entity st e).2 = papers st.
Proof.
  unfold resolve_entity.
  by destruct (find_node_by_label st (label e) (Some (entity_type e))).
Qed.

Lemma ingest_entity_fields paper s e :
  entity_nodes (ingest_entity paper s e)
  = <[label e := (resolve_entity (ig_store s) e).1]> (entity_nodes s)
  ∧ papers (ig_store (ingest_entity paper s e)) = papers (ig_store s).
Proof.
  pose proof (resolve_entity_papers (ig_store s) e) as Hp.
  unfold ingest_entity. destruct (resolve_entity (ig_store s) e) as [id st].
  by split.
Qed.

Lemma ingest_entities_labels paper es s :
  dom (entity_nodes (foldl (ingest_entity paper) s es))
  = dom (entity_nodes s) ∪ list_to_set (label <$> es).
Proof.
  revert s. induction es as [|e es IH]; intros s.
  { simpl. by rewrite (right_id_L ∅ (∪)). }
  cbn [foldl]. rewrite IH, (proj1 (ingest_entity_fields paper s e)), dom_insert_L.
  rewrite fmap_cons, list_to_set_cons. apply set_eq. intros x.
  rewrite !elem_of_union. tauto.
Qed.

Lemma prefix_of_elem {A} (l k : list A) x : l `prefix_of` k → x ∈ l → x ∈ k.
Proof. intros [m ->] Hx. apply elem_of_app. by left. Qed.

Lemma has_node_mono st st' e :
  nodes st `prefix_of` nodes st' → has_node st e → has_node st' e.
Proof.
  intros Hpre (n & Hn & Hl & Ht). exists n. split; [|done].
  by eapply prefix_of_elem.
Qed.

Lemma ingest_entities_nodes paper es s :
  store_inv (ig_store s) → Forall valid_entity es →
  nodes (ig_store s) `prefix_of` nodes (ig_store (foldl (ingest_entity paper) s es))
  ∧ Forall (has_node (ig_store (foldl (ingest_entity paper) s es))) es
  ∧ papers (ig_store (foldl (ingest_entity paper) s es)) = papers (ig_store s).
Proof.
  intros Hinv Hes. revert s Hinv.
  induction Hes as [|e es He _ IH]; intros s Hinv; [by split_and!|].
  cbn [foldl].
  destruct (IH _ (ingest_entity_inv paper s e Hinv He)) as (H1 & H2 & H3).
  destruct (resolve_entity_spec _ _ Hinv He)
    as (_ & _ & _ & n & Hn & _ & Hl & Ht & Hnodes).
  destruct (ingest_entity_nodes paper s e) as [Heq _].
  assert (nodes (ig_store s) `prefix_of` nodes (ig_store (ingest_entity paper s e)))
    as Hpre.
  { rewrite Heq. destruct Hnodes as [->|[-> _]]; [done|by eexists]. }
  split_and!.
  - by etrans.
  - constructor; [|done]. exists n. split; [|done].
    eapply prefix_of_elem; [exact H1|]. by rewrite Heq.
  - by rewrite H3, (proj2 (ingest_entity_fields paper s e)).
Qed.

Lemma find_node_by_label_exists st lbl ty n :
  ty ≠ [] → n ∈ nodes st → node_label n = lbl → node_type n = ty →
  is_Some (find_node_by_label st lbl (Some ty)).
Proof.
  intros Hty Hn Hl Ht.
  destruct (find_node_by_label st lbl (Some ty)) as [m|] eqn:Hf; [done|].
  by destruct (find_node_by_label_None st lbl ty n Hty Hf Hn).
Qed.

Lemma ingest_entities_known paper es s :
  Forall valid_entity es → Forall (has_node (ig_store s)) es →
  nodes (ig_store (foldl (ingest_entity paper) s es)) = nodes (ig_store s).
Proof.
  intros Hes. revert s. induction Hes as [|e es [Hty _] _ IH]; intros s Hknown;
    [done|].
  apply Forall_cons in Hknown as [(n & Hn & Hl & Ht) Hknown].
  destruct (entity_types_facts _ Hty) as (_ & Hne & _).
  destruct (find_node_by_label_exists (ig_store s) (label e) (entity_type e) n)
    as [m Hm]; try done.
  assert (nodes (ig_store (ingest_entity paper s e)) = nodes (ig_store s)) as Heq.
  { rewrite (proj1 (ingest_entity_nodes paper s e)).
    by rewrite (resolve_entity_found _ _ _ Hm). }
  cbn [foldl]. rewrite IH; [done|].
  eapply Forall_impl; [exact Hknown|]. intros e' (n' & Hn' & ?).
  exists n'. by rewrite Heq.
Qed.

Lemma ingest_relationship_papers s rel s' :
  ingest_relationship s rel = Some s' →
  papers (ig_store s') = papers (ig_store s).
Proof.
  unfold ingest_relationship.
  destruct (entity_nodes s !! from_entity_label rel) as [from_id|];
    [|by intros [= <-]].
  destruct (entity_nodes s !! to_entity_label rel) as [to_id|];
    [|by intros [= <-]].
  simpl. destruct (confidence rel) as [c|]; [|done]. simpl.
  destruct (new_Edge _ _ _ _ _ _) as [edge|]; [|done]. simpl.
  by intros [= <-].
Qed.

Lemma ingest_relationships_papers rels s s' :
  ingest_relationships s rels = Some s' →
  papers (ig_store s') = papers (ig_store s).
Proof.
  revert s. induction rels as [|rel rels IH]; intros s.
  { by intros [= <-]. }
  rewrite ingest_relationships_cons.
  destruct (ingest_relationship s rel) as [s1|] eqn:H1; [|done]. cbn.
  intros H2. rewrite (IH _ H2). by eapply ingest_relationship_papers.
Qed.

(** The nodes and the papers after an ingestion. *)
Lemma ingest_paper_nodes st doc r st' summary :
  store_inv st →
  ingest_paper st doc r = Some (st', summary) →
  (nodes st ++ [stored_paper_node st doc]) `prefix_of` nodes st'
  ∧ Forall (has_node st') (all_entities (validate_and_normalize r))
  ∧ papers st' = upsert_paper (stored_paper_row st doc) (papers st)
  ∧ sum_paper_node_id summary = next_id st
  ∧ sum_entities_created summary
    = size (dom (entity_nodes (after_entities st doc r))).
Proof.
  intros Hinv Hing.
  destruct (ingest_relationships_spec
              (relationships (validate_and_normalize r))
              (after_entities st doc r))
    as (s' & new & Hs & Hmap & Hnodes & _);
    [apply validate_relationships_confidence|].
  pose proof (ingest_relationships_papers _ _ _ Hs) as Hpapers.
  apply ingest_paper_Some in Hing as [Hacc Hing]. rewrite Hs in Hing. cbn in Hing.
  injection Hing as <- <-. cbn [sum_paper_node_id sum_entities_created].
  rewrite Hnodes, Hpapers, Hmap, size_dom.
  assert (Forall (has_node (ig_store (after_entities st doc r)))
                 (all_entities (validate_and_normalize r))
          → Forall (has_node (ig_store s'))
                   (all_entities (validate_and_normalize r))) as Htransfer.
  { intros H. eapply Forall_impl; [exact H|].
    intros e. apply has_node_mono. by rewrite Hnodes. }
  cut ((nodes st ++ [stored_paper_node st doc])
         `prefix_of` nodes (ig_store (after_entities st doc r))
       ∧ Forall (has_node (ig_store (after_entities st doc r)))
                (all_entities (validate_and_normalize r))
       ∧ papers (ig_store (after_entities st doc r))
         = upsert_paper (stored_paper_row st doc) (papers st)).
  { intros (H1 & H2 & H3). split_and!; auto. }
  clear s' new Hs Hmap Hnodes Hpapers Htransfer.
  rewrite after_entities_unfold.
  unfold stored_paper_node, stored_paper_row, sanitize_node_data, paper_node_of,
    paper_row_of.
  cbn [node_id node_type node_label node_properties].
  rewrite create_node_fresh by done.
  match goal with
  | |- context [foldl (ingest_entity ?p) ?s0 ?es] =>
      destruct (ingest_entities_nodes p es s0) as (H1 & H2 & H3);
        [|apply validated_entities|]
  end.
  { cbn [ig_store].
    match goal with
    | |- store_inv (create_paper ?x _) =>
        apply (store_inv_mono x); [done|simpl; lia|]
    end.
    apply store_inv_add; try done.
    - unfold node_types. simpl. rewrite elem_of_cons. by left.
    - by left. }
  split_and!; [exact H1|exact H2|exact H3].
Qed.

Lemma size_list_to_set_le (l : list str) :
  (size (list_to_set l : gset str) ≤ length l)%nat.
Proof.
  induction l as [|x l IH]; [by rewrite list_to_set_nil, size_empty|].
  rewrite list_to_set_cons, size_union_alt, size_singleton. cbn [length].
  pose proof (subseteq_size (list_to_set l ∖ {[x]}) (list_to_set l : gset str)) as H.
  assert (list_to_set l ∖ {[x]} ⊆ (list_to_set l : gset str)) as Hsub.
  { intros y Hy. by apply elem_of_difference in Hy as [? _]. }
  specialize (H Hsub). lia.
Qed.

Lemma ingest_paper_entities_created st doc r st' summary :
  ingest_paper st doc r = Some (st', summary) →
  sum_entities_created summary
  = size (list_to_set (label <$> all_entities (validate_and_normalize r)) : gset str).
Proof.
  intros Hing.
  destruct (ingest_relationships_spec
              (relationships (validate_and_normalize r))
              (after_entities st doc r))
    as (s' & new & Hs & Hmap & _);
    [apply validate_relationships_confidence|].
  apply ingest_paper_Some in Hing as [Hacc Hing]. rewrite Hs in Hing. cbn in Hing.
  injection Hing as _ <-. cbn [sum_entities_created].
  rewrite Hmap, <-size_dom, after_entities_unfold, ingest_entities_labels.
  cbn [entity_nodes]. by rewrite dom_empty_L, (left_id_L ∅ (∪)).
Qed.

(** X15.  The number that an [ingest_paper] that returns reports as
    [entities_created] is the number of different labels among the validated
    entities: it counts neither the entities nor the nodes created.  Two
    entities of different types with the same label are counted once,
    although a node is created for each. *)
Theorem entities_created_counts_labels
    (st : Store) (doc : Ingested) (r : EntityExtractionResult)
    (st' : Store) (summary : IngestSummary) :
  (ingest_paper st doc r = Some (st', summary) →
   sum_entities_created summary
   = size (list_to_set (label <$> all_entities (validate_and_normalize r))
           : gset str)
   ∧ (sum_entities_created summary
      ≤ length (all_entities (validate_and_normalize r)))%nat)
  ∧ (∃ st1 summary1,
       ingest_paper empty_store (sample_doc "P1") same_label_twice
       = Some (st1, summary1)
       ∧ sum_entities_created summary1 = 1%nat
       ∧ length (all_entities (validate_and_normalize same_label_twice)) = 2%nat
       ∧ length (nodes st1) = 3%nat).
Proof.
  split.
  - intros Hing. rewrite (ingest_paper_entities_created _ _ _ _ _ Hing).
    split; [done|]. etrans; [apply size_list_to_set_le|]. by rewrite length_fmap.
  - eexists _, _. split; [vm_compute; reflexivity|]. by vm_compute.
Qed.

Lemma entities_created_counts_labels_witness :
  ingest_paper empty_store (sample_doc "P1") same_label_twice
  = Some (ingested empty_store (sample_doc "P1") same_label_twice,
          mkSummary 1 1 2)
  ∧ size (list_to_set (label <$> all_entities
                                   (validate_and_normalize same_label_twice))
          : gset str) = 1%nat.
Proof.
  assert (ingest_paper empty_store (sample_doc "P1") same_label_twice
          = Some (ingested empty_store (sample_doc "P1") same_label_twice,
                  mkSummary 1 1 2)) as H by (vm_compute; reflexivity).
  split; [exact H|].
  destruct (entities_created_counts_labels empty_store (sample_doc "P1")
              same_label_twice
              (ingested empty_store (sample_doc "P1") same_label_twice)
              (mkSummary 1 1 2)) as [G _].
  destruct (G H) as [<- _]. reflexivity.
Defined.

Lemma ingest_paper_known st doc r st' summary :
  store_inv st →
  Forall (has_node st) (all_entities (validate_and_normalize r)) →
  ingest_paper st doc r = Some (st', summary) →
  nodes st' = nodes st ++ [stored_paper_node st doc].
Proof.
  intros Hinv Hknown Hing.
  destruct (ingest_relationships_spec
              (relationships (validate_and_normalize r))
              (after_entities st doc r))
    as (s' & new & Hs & _ & Hnodes & _);
    [apply validate_relationships_confidence|].
  apply ingest_paper_Some in Hing as [Hacc Hing]. rewrite Hs in Hing. cbn in Hing.
  injection Hing as <- _. rewrite Hnodes, after_entities_unfold.
  unfold stored_paper_node, sanitize_node_data, paper_node_of.
  cbn [node_id node_type node_label node_properties].
  rewrite create_node_fresh by done.
  rewrite ingest_entities_known; [done|apply validated_entities|].
  eapply Forall_impl; [exact Hknown|]. intros e. apply has_node_mono.
  cbn [ig_store create_paper nodes]. by eexists.
Qed.

(** X16.  Ingesting a second document with the extraction of a document
    that was ingested just before creates no entity node: the second
    ingestion adds one node, the paper, and reports the same number of
    entities as the first. *)
Theorem reingestion_adds_only_the_paper
    (st : Store) (doc doc' : Ingested) (r : EntityExtractionResult)
    (st1 st2 : Store) (sum1 sum2 : IngestSummary) :
  reachable st →
  ingest_paper st doc r = Some (st1, sum1) →
  ingest_paper st1 doc' r = Some (st2, sum2) →
  nodes st2 = nodes st1 ++ [stored_paper_node st1 doc']
  ∧ sum_entities_created sum2 = sum_entities_created sum1.
Proof.
  intros Hreach H1 H2. pose proof (reachable_inv _ Hreach) as Hinv.
  destruct (ingest_paper_nodes _ _ _ _ _ Hinv H1) as (_ & Hknown & _).
  split.
  - eapply ingest_paper_known; [|exact Hknown|exact H2].
    by eapply ingest_paper_inv.
  - by rewrite (ingest_paper_entities_created _ _ _ _ _ H1),
               (ingest_paper_entities_created _ _ _ _ _ H2).
Qed.

Lemma find_node_fresh l n k :
  Forall (fun m => node_id m ≠ node_id n) l →
  find (fun m => bool_decide (node_id m = node_id n)) (l ++ n :: k) = Some n.
Proof.
  induction 1 as [|m l Hm _ IH]; simpl.
  - by rewrite bool_decide_eq_true_2.
  - by rewrite bool_decide_eq_false_2.
Qed.

Lemma upsert_paper_elem p ps : p ∈ upsert_paper p ps.
Proof.
  induction ps as [|q ps IH]; simpl; [apply list_elem_of_here|].
  case_decide; [apply list_elem_of_here|by apply list_elem_of_further].
Qed.

(** X17.  After [ingest_paper] the paper is in the store: the identifier it
    reports gives, with [get_node_supabase], the paper node, of type paper
    and with the sanitised title as its label, and [get_all_papers] lists
    the row of the paper.  A document without title is labelled Unknown
    Paper on its node and Unknown in its row.  Neither the title nor the
    abstract of an ingested document is [null]. *)
Theorem ingested_paper_is_listed
    (st : Store) (doc : Ingested) (r : EntityExtractionResult)
    (st' : Store) (summary : IngestSummary) :
  reachable st →
  ingest_paper st doc r = Some (st', summary) →
  get_node_supabase st' (sum_paper_node_id summary) = Some (stored_paper_node st doc)
  ∧ node_type (stored_paper_node st doc) = Py.lit "paper"
  ∧ node_label (stored_paper_node st doc)
    = sanitize_string (title_or (Py.lit "Unknown Paper") (md_title doc))
  ∧ stored_paper_row st doc ∈ get_all_papers st'
  ∧ paper_node_id (stored_paper_row st doc) = sum_paper_node_id summary
  ∧ paper_title (stored_paper_row st doc)
    = sanitize_string (title_or (Py.lit "Unknown") (md_title doc))
  ∧ md_title doc ≠ Null ∧ md_abstract doc ≠ Null.
Proof.
  intros Hreach Hing. pose proof (reachable_inv _ Hreach) as Hinv.
  destruct (ingest_paper_nodes _ _ _ _ _ Hinv Hing)
    as ([k Hnodes] & _ & Hpapers & Hid & _).
  assert (get_node_supabase st' (sum_paper_node_id summary)
          = Some (stored_paper_node st doc)) as Hget.
  { unfold get_node_supabase. rewrite Hnodes, Hid, <-app_assoc. cbn [app].
    apply (find_node_fresh (nodes st) (stored_paper_node st doc)).
    eapply Forall_impl; [apply (inv_fresh _ Hinv)|].
    intros m Hm. cbn in *. lia. }
  apply ingest_paper_Some in Hing as [Hacc _]. unfold accepted in Hacc.
  split_and!; [done|done| | |done|done| |].
  - cbn. apply sanitize_string_id, sanitize_string_clean.
  - unfold get_all_papers. rewrite merge_sort_Permutation.
    apply list_elem_of_filter. split.
    + cbn [stored_paper_row paper_row_of paper_node_id]. rewrite <-Hid, Hget.
      by eexists.
    + rewrite Hpapers. apply upsert_paper_elem.
  - intros E. by rewrite E in Hacc.
  - intros E. rewrite E in Hacc. by destruct (md_title doc).
Qed.

Lemma reingestion_adds_only_the_paper_witness :
  reachable empty_store
  ∧ ingest_paper empty_store (sample_doc "P1") (one_metric "PSNR")
    = Some (psnr_once, mkSummary 1 1 1)
  ∧ ingest_paper psnr_once (sample_doc "P2") (one_metric "PSNR")
    = Some (psnr_twice, mkSummary 4 1 1)
  ∧ nodes psnr_twice = nodes psnr_once ++ [stored_paper_node psnr_once (sample_doc "P2")].
Proof.
  assert (ingest_paper empty_store (sample_doc "P1") (one_metric "PSNR")
          = Some (psnr_once, mkSummary 1 1 1)) as H1 by (vm_compute; reflexivity).
  assert (ingest_paper psnr_once (sample_doc "P2") (one_metric "PSNR")
          = Some (psnr_twice, mkSummary 4 1 1)) as H2 by (vm_compute; reflexivity).
  split_and!; [apply reachable_empty|exact H1|exact H2|].
  exact (proj1 (reingestion_adds_only_the_paper empty_store (sample_doc "P1")
                  (sample_doc "P2") (one_metric "PSNR") psnr_once psnr_twice
                  (mkSummary 1 1 1) (mkSummary 4 1 1) reachable_empty H1 H2)).
Defined.

Lemma ingested_paper_is_listed_witness :
  reachable empty_store
  ∧ ingest_paper empty_store (sample_doc "P1") (one_metric "PSNR")
    = Some (psnr_once, mkSummary 1 1 1)
  ∧ get_node_supabase psnr_once 1
    = Some (stored_paper_node empty_store (sample_doc "P1"))
  ∧ stored_paper_row empty_store (sample_doc "P1") ∈ get_all_papers psnr_once.
Proof.
  assert (ingest_paper empty_store (sample_doc "P1") (one_metric "PSNR")
          = Some (psnr_once, mkSummary 1 1 1)) as H1 by (vm_compute; reflexivity).
  destruct (ingested_paper_is_listed empty_store (sample_doc "P1")
              (one_metric "PSNR") psnr_once (mkSummary 1 1 1) reachable_empty H1)
    as (G1 & _ & _ & G2 & _).
  split_and!; [apply reachable_empty|exact H1|exact G1|exact G2].
Defined.

(** ** The edges of a store built by ingestion *)

Lemma entity_node_id_mono st st' id :
  nodes st `prefix_of` nodes st' → entity_node_id st id → entity_node_id st' id.
Proof.
  intros Hpre (n & Hn & Hid & Hty). exists n. split; [|done].
  by eapply prefix_of_elem.
Qed.

Lemma upsert_edge_Forall (P : Edge → Prop) e es :
  (∀ f, P f → P (mkEdge (edge_id f) (from_node_id f) (to_node_id f) (edge_type f)
                        (edge_confidence e) (edge_properties e))) →
  Forall P es → P e → Forall P (upsert_edge e es).
Proof.
  intros Hupd Hes He. induction Hes as [|f es Hf Hes IH]; simpl.
  - by constructor.
  - case_decide; constructor; auto.
Qed.

Lemma graph_inv_mono st st' :
  nodes st `prefix_of` nodes st' → NoDup (node_id <$> nodes st') →
  edges st' = edges st → graph_inv st → graph_inv st'.
Proof.
  intros Hpre Hnd He [_ H2]. split; [done|]. rewrite He.
  eapply Forall_impl; [exact H2|]. intros e [?|?]; [by left|right].
  by eapply entity_node_id_mono.
Qed.

Lemma create_edge_ginv st e :
  graph_inv st →
  sanitize_string (edge_type e) ∈ paper_edge_types
  ∨ entity_node_id st (from_node_id e) →
  graph_inv (create_edge st e).
Proof.
  intros [H1 H2] He. split; [done|]. unfold create_edge. cbn [edges].
  apply (upsert_edge_Forall
           (fun e => edge_type e ∈ paper_edge_types
                     ∨ entity_node_id st (from_node_id e))); done.
Qed.

Lemma graph_inv_add st n :
  store_inv st → graph_inv st → node_id n = next_id st →
  graph_inv (mkStore (nodes st ++ [n]) (edges st) (papers st) (next_id st + 1)).
Proof.
  intros Hinv Hg Hid. apply (graph_inv_mono st); [by eexists| |done|done].
  cbn [nodes]. rewrite fmap_app. apply NoDup_app.
  split_and!; [apply Hg| |apply NoDup_singleton].
  intros x Hx Hx'. apply list_elem_of_singleton in Hx'.
  apply list_elem_of_fmap in Hx as (m & -> & Hm).
  pose proof (inv_fresh _ Hinv) as Hfresh. rewrite Forall_forall in Hfresh.
  specialize (Hfresh m Hm). cbn in Hfresh. lia.
Qed.

Lemma resolve_entity_ginv st e :
  store_inv st → valid_entity e → graph_inv st →
  graph_inv (resolve_entity st e).2
  ∧ nodes st `prefix_of` nodes (resolve_entity st e).2
  ∧ entity_node_id (resolve_entity st e).2 (resolve_entity st e).1.
Proof.
  intros Hinv [Hty [raw Hraw]] Hg.
  destruct (entity_types_facts _ Hty) as (Hsan & Hne & _).
  destruct (find_node_by_label st (label e) (Some (entity_type e))) as [n|] eqn:Hf.
  - rewrite (resolve_entity_found _ _ _ Hf).
    apply find_node_by_label_Some in Hf as (Hin & Hl & Ht); [|done].
    split_and!; [done|done|]. exists n. by rewrite Ht.
  - rewrite (resolve_entity_created _ _ Hf), create_node_fresh by done.
    cbn [fst snd nodes]. split_and!.
    + by apply graph_inv_add.
    + by eexists.
    + eexists. split; [apply elem_of_app; right; apply list_elem_of_here|].
      cbn. split; [|by rewrite Hsan].
      unfold create_node_supabase. done.
Qed.

Lemma ingest_entity_ginv paper s e :
  store_inv (ig_store s) → valid_entity e →
  graph_inv (ig_store s) → entity_nodes_inv s →
  graph_inv (ig_store (ingest_entity paper s e))
  ∧ entity_nodes_inv (ingest_entity paper s e).
Proof.
  intros Hinv He Hg Hmap.
  destruct (resolve_entity_ginv _ _ Hinv He Hg) as (G1 & G2 & G3).
  unfold ingest_entity, entity_nodes_inv.
  destruct (resolve_entity (ig_store s) e) as [id st]. cbn [fst snd] in *.
  cbn [uuid4 ig_store entity_nodes]. split.
  - apply create_edge_ginv.
    + apply (graph_inv_mono st); [done|apply G1|done|done].
    + left. cbn [edge_type].
      destruct (bool_decide (entity_type e = Py.lit "author")
                || bool_decide (entity_type e = Py.lit "authors")).
      * replace (sanitize_string (Py.lit "AUTHORED_BY"))
          with (Py.lit "AUTHORED_BY") by (by vm_compute).
        apply list_elem_of_further, list_elem_of_here.
      * replace (sanitize_string (Py.lit "INTRODUCES"))
          with (Py.lit "INTRODUCES") by (by vm_compute).
        apply list_elem_of_here.
  - intros lbl id'. rewrite lookup_insert. unfold create_edge. cbn [nodes].
    case_decide.
    + intros [= <-]. by apply (entity_node_id_mono st).
    + intros Hl. apply (entity_node_id_mono (ig_store s)); [done|]. by eapply Hmap.
Qed.

Lemma ingest_entities_ginv paper es s :
  store_inv (ig_store s) → Forall valid_entity es →
  graph_inv (ig_store s) → entity_nodes_inv s →
  graph_inv (ig_store (foldl (ingest_entity paper) s es))
  ∧ entity_nodes_inv (foldl (ingest_entity paper) s es).
Proof.
  intros Hinv Hes. revert s Hinv.
  induction Hes as [|e es He _ IH]; intros s Hinv Hg Hmap; [done|].
  cbn [foldl]. destruct (ingest_entity_ginv paper s e Hinv He Hg Hmap) as [G1 G2].
  apply IH; [by apply ingest_entity_inv|done|done].
Qed.

Lemma ingest_relationship_ginv s rel s' :
  graph_inv (ig_store s) → entity_nodes_inv s →
  ingest_relationship s rel = Some s' →
  graph_inv (ig_store s') ∧ entity_nodes_inv s'.
Proof.
  intros Hg Hmap. unfold ingest_relationship.
  destruct (entity_nodes s !! from_entity_label rel) as [from_id|] eqn:Hfrom;
    [|by intros [= <-]].
  destruct (entity_nodes s !! to_entity_label rel) as [to_id|];
    [|by intros [= <-]].
  simpl. destruct (confidence rel) as [c|]; [|done]. simpl.
  destruct (new_Edge _ _ _ _ _ _) as [edge|] eqn:He; [|done]. simpl.
  apply new_Edge_Some in He as [-> _]. intros [= <-]. cbn [ig_store entity_nodes].
  split.
  - apply create_edge_ginv.
    + apply (graph_inv_mono (ig_store s)); [done|apply Hg|done|done].
    + right. cbn [from_node_id].
      apply (entity_node_id_mono (ig_store s)); [done|by eapply Hmap].
  - intros lbl id Hl.
    apply (entity_node_id_mono (ig_store s)); [done|by eapply Hmap].
Qed.

Lemma ingest_relationships_ginv rels s s' :
  graph_inv (ig_store s) → entity_nodes_inv s →
  ingest_relationships s rels = Some s' →
  graph_inv (ig_store s').
Proof.
  revert s. induction rels as [|rel rels IH]; intros s Hg Hmap.
  { by intros [= <-]. }
  rewrite ingest_relationships_cons.
  destruct (ingest_relationship s rel) as [s1|] eqn:H1; [|done]. cbn.
  destruct (ingest_relationship_ginv _ _ _ Hg Hmap H1). by apply IH.
Qed.

Lemma ingest_paper_ginv st doc r st' summary :
  store_inv st → graph_inv st →
  ingest_paper st doc r = Some (st', summary) → graph_inv st'.
Proof.
  intros Hinv Hg Hing. apply ingest_paper_Some in Hing as [_ Hing]. revert Hing.
  destruct (ingest_relationships _ _) as [s'|] eqn:Hs; [|done]. cbn.
  intros [= <- _]. revert Hs. rewrite after_entities_unfold.
  unfold paper_node_of. rewrite create_node_fresh by done.
  match goal with
  | |- context [foldl (ingest_entity ?p) ?s0 ?es] =>
      destruct (ingest_entities_ginv p es s0) as [G1 G2];
        [|apply validated_entities| | |by apply ingest_relationships_ginv]
  end.
  - cbn [ig_store].
    match goal with
    | |- store_inv (create_paper ?x _) =>
        apply (store_inv_mono x); [done|simpl; lia|]
    end.
    apply store_inv_add; try done.
    + unfold node_types. simpl. rewrite elem_of_cons. by left.
    + by left.
  - cbn [ig_store].
    match goal with
    | |- graph_inv (create_paper ?x _) =>
        apply (graph_inv_mono x); [done|apply (graph_inv_add st); done|done|]
    end.
    by apply graph_inv_add.
  - intros lbl id. cbn [entity_nodes]. by rewrite lookup_empty.
Qed.

Lemma reachable_ginv st : reachable st → graph_inv st.
Proof.
  induction 1 as [|st doc r st' summary Hreach IH Hing|st doc r Hreach IH _].
  - split; constructor.
  - eapply ingest_paper_ginv; [|exact IH|exact Hing]. by apply reachable_inv.
  - pose proof (reachable_inv _ Hreach) as Hinv.
    destruct (ingest_paper_raised_cases st doc Hinv) as [->|(n & Hid & _ & ->)];
      [done|].
    by apply graph_inv_add.
Qed.

Lemma omap_nil {A B} (f : A → option B) (l : list A) :
  Forall (fun x => f x = None) l → omap f l = [].
Proof.
  induction 1 as [|x l Hx _ IH]; [done|]. by rewrite omap_cons, Hx.
Qed.

Lemma NoDup_fmap_elem {A B} (f : A → B) (l : list A) x y :
  NoDup (f <$> l) → x ∈ l → y ∈ l → f x = f y → x = y.
Proof.
  induction l as [|z l IH]; intros Hnd Hx Hy Hf; [by apply elem_of_nil in Hx|].
  rewrite fmap_cons in Hnd. apply NoDup_cons in Hnd as [Hz Hnd].
  apply elem_of_cons in Hx as [->|Hx]; apply elem_of_cons in Hy as [->|Hy].
  - done.
  - destruct Hz. rewrite Hf. by apply list_elem_of_fmap_2.
  - destruct Hz. rewrite <-Hf. by apply list_elem_of_fmap_2.
  - by apply IH.
Qed.

(** In a store built by ingestion, an edge that leaves a paper node is an
    edge from the paper to one of its entities. *)
Lemma paper_edges_types st p n e :
  reachable st →
  get_node_supabase st p = Some n → node_type n = Py.lit "paper" →
  e ∈ edges st → from_node_id e = p → edge_type e ∈ paper_edge_types.
Proof.
  intros Hreach Hn Hty He Hfrom.
  destruct (reachable_ginv _ Hreach) as [Hnd Hedges].
  rewrite Forall_forall in Hedges.
  destruct (Hedges e He) as [?|(m & Hm & Hid & Hmty)]; [done|].
  pose proof (get_node_supabase_id _ _ _ Hn) as Hid'.
  apply List.find_some in Hn as [Hin _]. apply list_elem_of_In in Hin.
  assert (m = n) as -> by (eapply NoDup_fmap_elem; [exact Hnd|done|done|congruence]).
  destruct (entity_types_facts _ Hmty) as (_ & _ & Hp & _). done.
Qed.

(** X18.  In a store built by ingestion alone, [get_paper_datasets] and
    [get_paper_metrics] return nothing for a paper node: the edges that
    [ingest_paper] writes from a paper have the types INTRODUCES and
    AUTHORED_BY only, also those to datasets and metrics, while the two
    queries look for the types USES_DATASET, EVALUATES_ON and
    EVALUATES_WITH. *)
Theorem paper_datasets_and_metrics_empty (st : Store) (p : uuid) (n : Node) :
  reachable st →
  get_node_supabase st p = Some n → node_type n = Py.lit "paper" →
  get_paper_datasets st p = [] ∧ get_paper_metrics st p = []
  ∧ Forall (fun e => from_node_id e = p → edge_type e ∈ paper_edge_types) (edges st).
Proof.
  intros Hreach Hn Hty. split_and!.
  - unfold get_paper_datasets, get_edges_from_node. cbn [opt_truthy].
    apply omap_nil, Forall_forall. intros e [Hfrom He]%list_elem_of_filter.
    pose proof (paper_edges_types _ _ _ _ Hreach Hn Hty He Hfrom) as Hpe.
    case_decide as Hde; [|done]. exfalso.
    unfold paper_edge_types in Hpe.
    rewrite !elem_of_cons, elem_of_nil in Hpe, Hde.
    destruct Hpe as [Hpe|[Hpe|[]]]; rewrite Hpe in Hde;
      destruct Hde as [Hde|[Hde|[]]]; by vm_compute in Hde.
  - unfold get_paper_metrics, get_edges_from_node.
    change (opt_truthy (Some (Py.lit "EVALUATES_WITH"))) with true. cbn iota.
    apply omap_nil, Forall_forall. intros e [[Hfrom Het] He]%list_elem_of_filter.
    pose proof (paper_edges_types _ _ _ _ Hreach Hn Hty He Hfrom) as Hpe.
    exfalso. injection Het as Het. unfold paper_edge_types in Hpe.
    rewrite !elem_of_cons, elem_of_nil in Hpe.
    destruct Hpe as [Hpe|[Hpe|[]]]; rewrite Hpe in Het; by vm_compute in Het.
  - apply Forall_forall. intros e He Hfrom. by eapply paper_edges_types.
Qed.

Lemma paper_datasets_and_metrics_empty_witness :
  reachable dataset_once
  ∧ get_node_supabase dataset_once 1
    = Some (stored_paper_node empty_store (sample_doc "P1"))
  ∧ get_paper_datasets dataset_once 1 = []
  ∧ get_paper_metrics dataset_once 1 = []
  ∧ 2 ∈ get_paper_dataset_ids dataset_once 1.
Proof.
  assert (reachable dataset_once) as H1
    by apply ingested_reachable, reachable_empty.
  assert (get_node_supabase dataset_once 1
          = Some (stored_paper_node empty_store (sample_doc "P1"))) as H2
    by (vm_compute; reflexivity).
  destruct (paper_datasets_and_metrics_empty dataset_once 1 _ H1 H2 eq_refl)
    as (G1 & G2 & _).
  split_and!; [exact H1|exact H2|exact G1|exact G2|].
  apply elem_of_list_to_set. vm_compute. apply list_elem_of_here.
Defined.

(** ** Repeating a write *)

Lemma upsert_node_idem n ns : upsert_node n (upsert_node n ns) = upsert_node n ns.
Proof.
  induction ns as [|m ns IH]; simpl.
  - by rewrite decide_True.
  - destruct (decide (node_id m = node_id n)) as [Hm|Hm]; simpl.
    + by rewrite decide_True.
    + by rewrite decide_False, IH.
Qed.

Lemma upsert_edge_idem e es : upsert_edge e (upsert_edge e es) = upsert_edge e es.
Proof.
  induction es as [|f es IH]; simpl.
  - rewrite decide_True by done. by destruct e.
  - destruct (decide (edge_id f = edge_id e)) as [Hf|Hf]; simpl.
    + by rewrite decide_True.
    + by rewrite decide_False, IH.
Qed.

Lemma upsert_paper_idem p ps : upsert_paper p (upsert_paper p ps) = upsert_paper p ps.
Proof.
  induction ps as [|q ps IH]; simpl.
  - by rewrite decide_True.
  - destruct (decide (paper_node_id q = paper_node_id p)) as [Hq|Hq]; simpl.
    + by rewrite decide_True.
    + by rewrite decide_False, IH.
Qed.

(** X19.  The three writes of the repository can be repeated: writing the
    same node, the same edge or the same paper a second time leaves the
    store as the first write left it. *)
Theorem upserts_idempotent (st : Store) (node : Node) (edge : Edge)
    (paper : PaperMetadata) :
  create_node_supabase (create_node_supabase st node).2 node
  = create_node_supabase st node
  ∧ create_edge (create_edge st edge) edge = create_edge st edge
  ∧ create_paper (create_paper st paper) paper = create_paper st paper.
Proof.
  split_and!.
  - unfold create_node_supabase. cbn [snd nodes edges papers next_id].
    by rewrite upsert_node_idem.
  - unfold create_edge. cbn [nodes edges papers next_id].
    by rewrite upsert_edge_idem.
  - unfold create_paper. cbn [nodes edges papers next_id].
    by rewrite upsert_paper_idem.
Qed.

(** ** Papers connected to a node *)

(** X20.  [get_papers_connected_to_node] lists, without repetition, exactly
    the papers of the papers table that have an edge to the node; it is the
    inverse of the three queries [get_paper_dataset_ids],
    [get_paper_method_ids] and [get_paper_concept_ids]: a paper of the table
    for which one of them returns the node is listed for that node. *)
Theorem papers_connected_inverse (st : Store) (node paper : uuid) :
  NoDup (get_papers_connected_to_node st node)
  ∧ (paper ∈ get_papers_connected_to_node st node
     ↔ paper ∈ paper_node_id <$> papers st
       ∧ ∃ e, e ∈ edges st ∧ from_node_id e = paper ∧ to_node_id e = node)
  ∧ (paper ∈ paper_node_id <$> papers st →
     node ∈ get_paper_dataset_ids st paper ∪ get_paper_method_ids st paper
            ∪ get_paper_concept_ids st paper →
     paper ∈ get_papers_connected_to_node st node).
Proof.
  assert (paper ∈ get_papers_connected_to_node st node
          ↔ paper ∈ paper_node_id <$> papers st
            ∧ ∃ e, e ∈ edges st ∧ from_node_id e = paper ∧ to_node_id e = node)
    as Hiff.
  { unfold get_papers_connected_to_node.
    rewrite elem_of_remove_dups, list_elem_of_fmap. split.
    - intros (e & -> & [[Hto Hp] He]%list_elem_of_filter). split; [done|].
      by exists e.
    - intros (Hp & e & He & <- & Hto). exists e. split; [done|].
      by apply list_elem_of_filter. }
  split_and!; [apply NoDup_remove_dups|exact Hiff|].
  intros Hp Hnode. apply Hiff. split; [done|].
  assert (∀ ty, node ∈ paper_linked_ids ty st paper →
                ∃ e, e ∈ edges st ∧ from_node_id e = paper ∧ to_node_id e = node)
    as Hlinked.
  { intros ty. unfold paper_linked_ids.
    rewrite elem_of_list_to_set, list_elem_of_fmap.
    intros (e & -> & [[Hfrom _] He]%list_elem_of_filter). by exists e. }
  rewrite !elem_of_union in Hnode.
  destruct Hnode as [[H|H]|H]; by eapply Hlinked.
Qed.

Lemma papers_connected_inverse_witness :
  1 ∈ paper_node_id <$> papers five_papers
  ∧ 10 ∈ get_paper_dataset_ids five_papers 1 ∪ get_paper_method_ids five_papers 1
         ∪ get_paper_concept_ids five_papers 1
  ∧ 1 ∈ get_papers_connected_to_node five_papers 10.
Proof.
  assert (1 ∈ paper_node_id <$> papers five_papers) as H1.
  { vm_compute. apply list_elem_of_here. }
  assert (10 ∈ get_paper_dataset_ids five_papers 1
               ∪ get_paper_method_ids five_papers 1
               ∪ get_paper_concept_ids five_papers 1) as H2.
  { do 2 apply elem_of_union_l. apply elem_of_list_to_set. vm_compute.
    apply list_elem_of_here. }
  split_and!; [exact H1|exact H2|].
  exact (proj2 (proj2 (papers_connected_inverse five_papers 10 1)) H1 H2).
Defined.

(** ** The confidence of stored edges *)

Lemma create_edge_confidence st e :
  Forall confidence_in_range (edges st) → confidence_in_range e →
  Forall confidence_in_range (edges (create_edge st e)).
Proof.
  intros Hst He. unfold create_edge. cbn [edges].
  by apply upsert_edge_Forall.
Qed.

Lemma create_edges_confidence rels st :
  Forall confidence_in_range (edges st) → Forall confidence_in_range rels →
  Forall confidence_in_range (edges (foldl create_edge st rels)).
Proof.
  intros Hst Hrels. revert st Hst.
  induction Hrels as [|e rels He _ IH]; intros st Hst; [done|].
  cbn [foldl]. by apply IH, create_edge_confidence.
Qed.

Lemma new_Edge_confidence id from to ty c props e :
  new_Edge id from to ty c props = Some e → confidence_in_range e.
Proof. intros [-> [H0 H1]]%new_Edge_Some. by split. Qed.

Lemma ingest_entity_confidence paper s e :
  Forall confidence_in_range (edges (ig_store s)) →
  Forall confidence_in_range (edges (ig_store (ingest_entity paper s e))).
Proof.
  intros Hs.
  assert (edges (resolve_entity (ig_store s) e).2 = edges (ig_store s)) as Hedges.
  { unfold resolve_entity.
    by destruct (find_node_by_label (ig_store s) (label e) (Some (entity_type e))). }
  unfold ingest_entity. destruct (resolve_entity (ig_store s) e) as [id st].
  cbn [snd] in Hedges. cbn [uuid4 ig_store].
  apply create_edge_confidence; [cbn [edges]; by rewrite Hedges|].
  split; cbn [edge_confidence]; lra.
Qed.

Lemma ingest_relationship_confidence s rel s' :
  Forall confidence_in_range (edges (ig_store s)) →
  ingest_relationship s rel = Some s' →
  Forall confidence_in_range (edges (ig_store s')).
Proof.
  intros Hs. unfold ingest_relationship.
  destruct (entity_nodes s !! from_entity_label rel) as [from_id|];
    [|by intros [= <-]].
  destruct (entity_nodes s !! to_entity_label rel) as [to_id|];
    [|by intros [= <-]].
  simpl. destruct (confidence rel) as [c|]; [|done]. simpl.
  destruct (new_Edge _ _ _ _ _ _) as [edge|] eqn:He; [|done]. simpl.
  intros [= <-]. cbn [ig_store]. apply create_edge_confidence; [done|].
  by eapply new_Edge_confidence.
Qed.

Lemma ingest_relationships_confidence rels s s' :
  Forall confidence_in_range (edges (ig_store s)) →
  ingest_relationships s rels = Some s' →
  Forall confidence_in_range (edges (ig_store s')).
Proof.
  revert s. induction rels as [|rel rels IH]; intros s Hs.
  { by intros [= <-]. }
  rewrite ingest_relationships_cons.
  destruct (ingest_relationship s rel) as [s1|] eqn:H1; [|done]. simpl.
  apply IH. by eapply ingest_relationship_confidence.
Qed.

Lemma ingest_paper_confidence st doc r st' summary :
  Forall confidence_in_range (edges st) →
  ingest_paper st doc r = Some (st', summary) →
  Forall confidence_in_range (edges st').
Proof.
  intros Hst Hing. apply ingest_paper_Some in Hing as [_ Hing]. revert Hing.
  destruct (ingest_relationships _ _) as [s'|] eqn:Hs; [|done]. simpl.
  intros [= <- _]. eapply ingest_relationships_confidence; [|exact Hs].
  rewrite after_entities_unfold.
  apply (foldl_invariant
           (fun s => Forall confidence_in_range (edges (ig_store s)))); [|done].
  intros s e _. apply ingest_entity_confidence.
Qed.

Section LinkConfidence.

Variable float_of_str : str → option Q.
Variable DEBUG : bool.
Variable complete_json : Node → Node → list Node → list Node → option json.
Variable set_trace : uuid → uuid → bool.
Variable get_similar_papers_for_node : uuid → nat → list uuid.

Lemma parse_relationships_confidence items next paper1 paper2 es :
  parse_relationships float_of_str next paper1 paper2 items = Some es →
  Forall confidence_in_range es.
Proof.
  revert next es. induction items as [|item items IH]; intros next es.
  { intros [= <-]. constructor. }
  destruct item as [| | | | |rel_data]; simpl; try apply IH.
  destruct (edge_of_rel_data _ _ _ _ _) as [e|] eqn:He; simpl; [|done].
  destruct (parse_relationships _ _ _ _ _) as [rest|] eqn:Hrest; simpl; [|done].
  intros [= <-]. constructor; [|by eapply IH].
  unfold edge_of_rel_data in He.
  destruct (match default (JStr (Py.lit "SIMILAR_TO"))
                    (dict_get (Py.lit "relationship_type") rel_data) with
            | JStr s => Some s
            | _ => None
            end) as [ty|]; simpl in He; [|done].
  destruct (py_float _ _) as [c|]; simpl in He; [|done].
  by eapply new_Edge_confidence.
Qed.

Lemma compare_papers_confidence next paper1 paper2 cs ms :
  Forall confidence_in_range
         (_compare_papers float_of_str DEBUG complete_json next paper1 paper2 cs ms).
Proof.
  unfold _compare_papers. case_match; [apply Forall_nil_2|].
  unfold _infer_with_llm. destruct DEBUG.
  { unfold _get_default_relationships.
    destruct (new_Edge _ _ _ _ _ _) as [e|] eqn:He; [|apply Forall_nil_2].
    apply Forall_singleton. by eapply new_Edge_confidence. }
  destruct (complete_json paper1 paper2 cs ms) as [[| | | |l|d]|];
    try apply Forall_nil_2.
  - destruct (parse_relationships _ _ _ _ l) as [es|] eqn:Hes; simpl;
      [|apply Forall_nil_2].
    by eapply parse_relationships_confidence.
  - destruct (parse_relationships _ _ _ _ [JDict d]) as [es|] eqn:Hes; simpl;
      [|apply Forall_nil_2].
    by eapply parse_relationships_confidence.
Qed.

Lemma compare_and_store_confidence ctx_c ctx_m src_node dst_node s :
  Forall confidence_in_range (edges (lk_store s)) →
  Forall confidence_in_range
         (edges (lk_store (compare_and_store float_of_str DEBUG complete_json
                             ctx_c ctx_m src_node dst_node s))).
Proof.
  intros Hs. unfold compare_and_store. cbn [lk_store].
  apply create_edges_confidence; [done|apply compare_papers_confidence].
Qed.

Lemma compare_break_and_store_confidence ctx_c ctx_m src_node dst_node s :
  Forall confidence_in_range (edges (lk_store s)) →
  Forall confidence_in_range
         (edges (lk_store (compare_break_and_store float_of_str DEBUG
                             complete_json set_trace ctx_c ctx_m src_node
                             dst_node s))).
Proof.
  intros Hs.
  destruct (compare_break_and_store_cases float_of_str DEBUG complete_json
              set_trace ctx_c ctx_m src_node dst_node s) as [(-> & _)|(-> & _)].
  - exact Hs.
  - by apply compare_and_store_confidence.
Qed.

Lemma link_pruned_2_confidence st :
  Forall confidence_in_range (edges st) →
  Forall confidence_in_range
         (edges (lk_store (link_cross_paper_relationships_pruned_2 float_of_str
                             DEBUG complete_json set_trace st))).
Proof.
  intros Hst. unfold link_cross_paper_relationships_pruned_2.
  case_match; [done|].
  apply (foldl_invariant
           (fun s => Forall confidence_in_range (edges (lk_store s)))); [|done].
  intros s paper_id _ Hs. unfold pruned_2_outer. repeat case_match; try done.
  apply (foldl_invariant
           (fun s => Forall confidence_in_range (edges (lk_store s)))); [|done].
  intros s' dst_id _ Hs'. unfold pruned_2_inner. repeat case_match; try done.
  by apply compare_break_and_store_confidence.
Qed.

Lemma link_pruned_confidence st k_neighbors :
  Forall confidence_in_range (edges st) →
  Forall confidence_in_range
         (edges (lk_store (link_cross_paper_relationships_pruned float_of_str
                             DEBUG complete_json get_similar_papers_for_node
                             st k_neighbors))).
Proof.
  intros Hst. unfold link_cross_paper_relationships_pruned.
  case_match; [done|].
  apply (foldl_invariant
           (fun s => Forall confidence_in_range (edges (lk_store s)))); [|done].
  intros s p _ Hs. unfold pruned_outer. repeat case_match; try done.
  apply (foldl_invariant
           (fun s => Forall confidence_in_range (edges (lk_store s)))); [|done].
  intros s' dst_id _ Hs'. unfold pruned_inner. repeat case_match; try done.
  by apply compare_and_store_confidence.
Qed.

Lemma infer_outer_confidence next cs ms papers state :
  Forall confidence_in_range state.1 →
  Forall confidence_in_range
         (infer_outer float_of_str DEBUG complete_json next cs ms state papers).1.
Proof.
  revert state. induction papers as [|paper1 rest IH]; intros state Hst; [done|].
  cbn [infer_outer]. apply IH.
  apply (foldl_invariant (fun st => Forall confidence_in_range st.1)); [|done].
  intros st paper2 _ Hs. unfold infer_inner. cbn [fst].
  apply Forall_app. split; [done|apply compare_papers_confidence].
Qed.

Lemma link_unpruned_confidence st :
  Forall confidence_in_range (edges st) →
  Forall confidence_in_range
         (edges (lk_store (link_cross_paper_relationships float_of_str DEBUG
                             complete_json st))).
Proof.
  intros Hst. unfold link_cross_paper_relationships.
  case_match; [done|]. cbn [lk_store].
  apply create_edges_confidence; [done|].
  unfold infer_relationships. by apply infer_outer_confidence.
Qed.

End LinkConfidence.

(** X21.  Every edge of a store built by ingestions and linking passes has a
    confidence between 0 and 1: the paper-to-entity edges are written with
    1.0, and every other edge passed the check of the [Edge] constructor,
    which an upsert does not undo. *)
Theorem stored_confidence_in_range (st : Store) :
  built st →
  Forall (fun e => (0 <= edge_confidence e)%Q ∧ (edge_confidence e <= 1)%Q)
         (edges st).
Proof.
  induction 1 as [|st doc r st' summary _ IH Hing|st doc r _ IH _
                  |st f D cj _ IH|st f D cj gs k _ IH|st f D cj dbg _ IH].
  - constructor.
  - by eapply ingest_paper_confidence.
  - unfold ingest_paper_raised. cbn [uuid4].
    by destruct (_create_paper_node _ _).
  - by apply link_unpruned_confidence.
  - by apply link_pruned_confidence.
  - by apply link_pruned_2_confidence.
Qed.

Lemma stored_confidence_in_range_witness :
  built (lk_store (link_cross_paper_relationships_pruned_2 no_float true
                     bad_confidence_model debugger_raises psnr_twice))
  ∧ Forall (fun e => (0 <= edge_confidence e)%Q ∧ (edge_confidence e <= 1)%Q)
           (edges (lk_store (link_cross_paper_relationships_pruned_2 no_float
                               true bad_confidence_model debugger_raises
                               psnr_twice))).
Proof.
  assert (built (lk_store (link_cross_paper_relationships_pruned_2 no_float true
                             bad_confidence_model debugger_raises psnr_twice)))
    as H.
  { apply built_link_pruned_2.
    apply (built_ingest psnr_once (sample_doc "P2") (one_metric "PSNR")
             psnr_twice (mkSummary 4 1 1)); [|vm_compute; reflexivity].
    apply (built_ingest empty_store (sample_doc "P1") (one_metric "PSNR")
             psnr_once (mkSummary 1 1 1)); [|vm_compute; reflexivity].
    apply built_empty. }
  split; [exact H|]. exact (stored_confidence_in_range _ H).
Defined.

(** ** The similarity pass misses no pair *)

Section SimilarityComplete.

Variable float_of_str : str → option Q.
Variable DEBUG : bool.
Variable complete_json : Node → Node → list Node → list Node → option json.
Variable get_similar_papers_for_node : uuid → nat → list uuid.





End SimilarityComplete.



(** ** Sanitising and merging *)

(** X23.  [_normalize_entities] sanitises the description of an entity when
    it creates the normalised entity, but not when it merges a later
    duplicate into it: if the first entity of a key has no description and
    a later one has, the description of the later one is taken as it is,
    control characters included, and its properties are merged as they
    are. *)
Theorem merged_description_not_sanitized
    (e1 e2 : ExtractedEntity) (ty : str) (d : str) :
  blank_label (label e1) = false →
  blank_label (label e2) = false →
  label_key (label e1) = label_key (label e2) →
  opt_truthy (description e1) = false →
  description e2 = Some d → d ≠ [] →
  (∃ a1, _normalize_entities [e2] ty = [a1]
         ∧ description a1 = Some (sanitize_string d))
  ∧ (∃ a, _normalize_entities [e1; e2] ty = [a]
          ∧ description a = Some d
          ∧ properties a
            = dict_update (properties (fresh_entity ty (_normalize_label (label e1)) e1))
                          (properties e2)).
Proof.
  intros Hb1 Hb2 Hkey Hd1 Hd2 Hd.
  assert (opt_truthy (description e2) = true) as Ht2.
  { rewrite Hd2. by destruct d. }
  unfold _normalize_entities. cbn [foldl]. unfold normalize_entities_step.
  rewrite Hb1, Hb2, !lookup_empty. unfold label_key in Hkey. split.
  - eexists. split; [done|]. cbn. by rewrite Ht2, Hd2.
  - rewrite <-Hkey, lookup_insert, decide_True by done. cbn [snd app length alter].
    eexists. split; [done|]. unfold merge_entity. cbn [description properties].
    unfold fresh_entity at 1 2. cbn [description]. rewrite Hd1, Ht2. cbn.
    by rewrite Hd2.
Qed.

Lemma merged_description_not_sanitized_witness :
  ∃ a, _normalize_entities
         [mkEntity (Py.lit "concept") (Py.lit "NeRF") None [];
          mkEntity (Py.lit "concept") (Py.lit "nerf") (Some [1; 0x41]) []]
         (Py.lit "concept") = [a]
       ∧ description a = Some [1; 0x41]
       ∧ sanitize_string [1; 0x41] = [0x41].
Proof.
  destruct (merged_description_not_sanitized
              (mkEntity (Py.lit "concept") (Py.lit "NeRF") None [])
              (mkEntity (Py.lit "concept") (Py.lit "nerf") (Some [1; 0x41]) [])
              (Py.lit "concept") [1; 0x41])
    as (_ & a & Ha & Hd & _);
    [reflexivity|reflexivity|vm_compute; reflexivity|reflexivity|reflexivity|done|].
  exists a. split_and!; [exact Ha|exact Hd|reflexivity].
Defined.

(** ** Chunking a text *)

Section ChunkFacts.

Local Open Scope Z_scope.

Variable times_0_7 : Z → Q.

Lemma rfind_fold c (s : str) i last :
  -1 ≤ last < i →
  (foldl (fun st d => (st.1 + 1, if decide (d = c) then st.1 else st.2))
         (i, last) s).1 = i + Z.of_nat (length s)
  ∧ -1 ≤ (foldl (fun st d => (st.1 + 1, if decide (d = c) then st.1 else st.2))
                (i, last) s).2
         < i + Z.of_nat (length s).
Proof.
  revert i last. induction s as [|d s IH]; intros i last Hl.
  { simpl. lia. }
  cbn [foldl fst snd length].
  destruct (IH (i + 1) (if decide (d = c) then i else last)) as [H1 H2].
  { case_decide; lia. }
  rewrite H1. split; lia.
Qed.

Lemma rfind_bounds c s : -1 ≤ rfind c s < Z.of_nat (length s).
Proof.
  unfold rfind. destruct (rfind_fold c s 0 (-1)) as [_ H]; lia.
Qed.

Lemma py_index_range n i : 0 ≤ n → 0 ≤ py_index n i ≤ n.
Proof. intros Hn. unfold py_index. case_decide; lia. Qed.

Lemma length_py_slice (s : str) a b :
  Z.of_nat (length (py_slice s a b))
  = Z.max 0 (py_index (Z.of_nat (length s)) b - py_index (Z.of_nat (length s)) a).
Proof.
  unfold py_slice. rewrite length_take, length_drop.
  pose proof (py_index_range (Z.of_nat (length s)) a).
  pose proof (py_index_range (Z.of_nat (length s)) b). lia.
Qed.

Lemma length_py_slice_le (s : str) a cs :
  0 ≤ cs → Z.of_nat (length (py_slice s a (a + cs))) ≤ cs.
Proof.
  intros Hcs. rewrite length_py_slice. unfold py_index.
  repeat case_decide; lia.
Qed.

Lemma py_slice_prefix (s : str) a b k :
  0 ≤ a → 0 ≤ k ≤ Z.of_nat (length (py_slice s a b)) →
  py_slice (py_slice s a b) 0 k = py_slice s a (a + k).
Proof.
  intros Ha Hk. pose proof (length_py_slice s a b) as Hlen.
  rewrite Hlen in Hk. unfold py_slice at 1. rewrite Hlen. clear Hlen.
  pose proof (py_index_range (Z.of_nat (length s)) a ltac:(lia)) as Ra.
  pose proof (py_index_range (Z.of_nat (length s)) b ltac:(lia)) as Rb.
  set (m := Z.max 0 (py_index (Z.of_nat (length s)) b
                     - py_index (Z.of_nat (length s)) a)) in *.
  assert (py_index m 0 = 0) as -> by (unfold py_index; repeat case_decide; lia).
  assert (py_index m k = k) as -> by (unfold py_index; repeat case_decide; lia).
  rewrite Z.sub_0_r. change (Z.to_nat 0) with 0%nat. rewrite drop_0.
  unfold py_slice. rewrite take_take.
  destruct (decide (k = 0)) as [->|Hk0].
  { rewrite Z.add_0_r, Z.sub_diag. by rewrite Nat.min_0_l. }
  assert (py_index (Z.of_nat (length s)) a = a) as Ea
    by (subst m; unfold py_index in *; repeat case_decide; lia).
  assert (py_index (Z.of_nat (length s)) (a + k) = a + k) as Ek
    by (subst m; unfold py_index in *; repeat case_decide; lia).
  subst m. rewrite Ea, Ek in *. f_equal. lia.
Qed.

Lemma chunk_step_end_le text cs start :
  0 ≤ cs → (chunk_step times_0_7 text cs start).2 ≤ start + cs.
Proof.
  intros Hcs. unfold chunk_step.
  destruct (decide (start + cs < Z.of_nat (length text))); [|done].
  destruct (flt _ _); [|done]. cbn [snd].
  pose proof (length_py_slice_le text start cs Hcs).
  pose proof (rfind_bounds 46 (py_slice text start (start + cs))).
  pose proof (rfind_bounds 10 (py_slice text start (start + cs))). lia.
Qed.

Lemma chunk_step_progress text cs ov start :
  0 ≤ ov < cs → (inject_Z ov <= times_0_7 cs)%Q →
  start + ov < (chunk_step times_0_7 text cs start).2.
Proof.
  intros Hov Ht. unfold chunk_step.
  destruct (decide (start + cs < Z.of_nat (length text))); [|cbn; lia].
  destruct (flt _ _) eqn:Hb; [|cbn; lia]. cbn [snd].
  apply flt_spec in Hb.
  assert (inject_Z ov < inject_Z (Z.max (rfind 46 (py_slice text start (start + cs)))
                                        (rfind 10 (py_slice text start (start + cs)))))%Q
    as Hlt by (eapply Qle_lt_trans; [exact Ht|exact Hb]).
  rewrite <-Zlt_Qlt in Hlt. lia.
Qed.

Lemma chunk_step_slice text cs start :
  0 ≤ start → 0 ≤ cs →
  (chunk_step times_0_7 text cs start).1
  = py_slice text start (chunk_step times_0_7 text cs start).2.
Proof.
  intros Hs Hcs. unfold chunk_step.
  destruct (decide (start + cs < Z.of_nat (length text))); [|done].
  destruct (flt _ _) eqn:Hb; [|done]. cbn [fst snd].
  pose proof (rfind_bounds 46 (py_slice text start (start + cs))).
  pose proof (rfind_bounds 10 (py_slice text start (start + cs))).
  rewrite py_slice_prefix by lia. f_equal. lia.
Qed.

(** The loop returns the stripped slices of the ranges. *)
Lemma chunk_loop_ranges fuel text cs ov start chunks :
  0 ≤ ov < cs → (inject_Z ov <= times_0_7 cs)%Q → 0 ≤ start →
  chunk_loop times_0_7 fuel text cs ov start chunks
  = (fun rs => chunks ++ ((fun r => Py.strip (py_slice text r.1 r.2)) <$> rs))
      <$> chunk_ranges times_0_7 fuel text cs ov start.
Proof.
  intros Hov Ht. revert start chunks.
  induction fuel as [|fuel IH]; intros start chunks Hs; [done|].
  cbn [chunk_loop chunk_ranges].
  destruct (decide (start < Z.of_nat (length text))).
  2: { cbn. by rewrite app_nil_r. }
  pose proof (chunk_step_progress text cs ov start Hov Ht) as Hprog.
  pose proof (chunk_step_slice text cs start Hs ltac:(lia)) as Hslice.
  destruct (chunk_step times_0_7 text cs start) as [chunk end_] eqn:Hstep.
  cbn [fst snd] in *. rewrite IH by lia.
  destruct (chunk_ranges times_0_7 fuel text cs ov (end_ - ov)) as [rest|];
    [|done].
  cbn. f_equal. rewrite <-app_assoc. cbn. by rewrite Hslice.
Qed.

Lemma chunk_ranges_total fuel text cs ov start :
  0 ≤ ov < cs → (inject_Z ov <= times_0_7 cs)%Q →
  (Z.to_nat (Z.of_nat (length text) - start) < fuel)%nat →
  is_Some (chunk_ranges times_0_7 fuel text cs ov start).
Proof.
  intros Hov Ht. revert start.
  induction fuel as [|fuel IH]; intros start Hfuel; [lia|].
  cbn [chunk_ranges].
  destruct (decide (start < Z.of_nat (length text))); [|done].
  pose proof (chunk_step_progress text cs ov start Hov Ht) as Hprog.
  destruct (IH ((chunk_step times_0_7 text cs start).2 - ov)) as [rest Hrest];
    [lia|].
  rewrite Hrest. done.
Qed.

Lemma chunk_ranges_more fuel fuel' text cs ov start rs :
  (fuel ≤ fuel')%nat →
  chunk_ranges times_0_7 fuel text cs ov start = Some rs →
  chunk_ranges times_0_7 fuel' text cs ov start = Some rs.
Proof.
  revert fuel' start rs. induction fuel as [|fuel IH]; intros fuel' start rs Hle;
    [done|].
  destruct fuel' as [|fuel']; [lia|]. cbn [chunk_ranges].
  destruct (decide (start < Z.of_nat (length text))); [|done].
  destruct (chunk_ranges times_0_7 fuel text cs ov _) as [rest|] eqn:Hrest;
    [|done].
  rewrite (IH fuel' _ rest) by (done || lia). done.
Qed.

(** What the ranges are. *)
Lemma chunk_ranges_spec fuel text cs ov start rs :
  0 ≤ ov < cs → (inject_Z ov <= times_0_7 cs)%Q → 0 ≤ start →
  chunk_ranges times_0_7 fuel text cs ov start = Some rs →
  Forall (fun r => 0 ≤ r.1 < Z.of_nat (length text)
                   ∧ r.1 + ov < r.2 ≤ r.1 + cs) rs
  ∧ (∀ i, start ≤ i < Z.of_nat (length text) → ∃ r, r ∈ rs ∧ r.1 ≤ i < r.2)
  ∧ (∀ k r r', rs !! k = Some r → rs !! S k = Some r' → r'.1 = r.2 - ov)
  ∧ (∀ r, rs !! 0%nat = Some r → r.1 = start).
Proof.
  intros Hov Ht. revert start rs.
  induction fuel as [|fuel IH]; intros start rs Hs; [done|].
  cbn [chunk_ranges].
  destruct (decide (start < Z.of_nat (length text))).
  2: { intros [= <-]. split_and!; [constructor| |done|done]. intros i Hi. lia. }
  pose proof (chunk_step_progress text cs ov start Hov Ht) as Hprog.
  pose proof (chunk_step_end_le text cs start ltac:(lia)) as Hend.
  destruct (chunk_ranges times_0_7 fuel text cs ov _) as [rest|] eqn:Hrest;
    [|done].
  cbn. intros [= <-].
  assert (0 ≤ (chunk_step times_0_7 text cs start).2 - ov) as Hnext by lia.
  destruct (IH _ rest Hnext Hrest) as (H1 & H2 & H3 & H4).
  split_and!.
  - constructor; [cbn; lia|done].
  - intros i Hi.
    destruct (decide (i < (chunk_step times_0_7 text cs start).2)) as [Hlt|Hge].
    + eexists. split; [apply list_elem_of_here|]. cbn. lia.
    + destruct (H2 i ltac:(lia)) as (r & Hr & Hir). exists r.
      split; [by apply list_elem_of_further|done].
  - intros [|k] r r'; cbn.
    + intros [= <-] Hr'. cbn. by apply H4.
    + apply H3.
  - by intros r [= <-].
Qed.

End ChunkFacts.

Lemma chunk_loop_diverges times_0_7 fuel text cs ov start chunks :
  (0 ≤ cs ≤ ov)%Z → (0 < Z.of_nat (length text))%Z → (start ≤ 0)%Z →
  chunk_loop times_0_7 fuel text cs ov start chunks = None.
Proof.
  intros Hcs Hn. revert start chunks.
  induction fuel as [|fuel IH]; intros start chunks Hs; [done|].
  cbn [chunk_loop]. rewrite decide_True by lia.
  pose proof (chunk_step_end_le times_0_7 text cs start ltac:(lia)) as Hend.
  destruct (chunk_step times_0_7 text cs start) as [chunk end_].
  cbn [snd] in Hend. apply IH. lia.
Qed.

(** X24.  [_chunk_text] with an overlap below the chunk size and not above
    the threshold of the sentence break, as in the call of
    [ingest_from_text]: a text that fits into one chunk is returned as it
    is, not stripped; for a longer text the loop ends, within as many
    iterations as the text has characters, and returns the stripped slices
    of ranges that start at 0, have at most the chunk size, each begin
    [overlap] characters before the end of the one before, and together
    cover every position of the text. *)
Theorem chunk_text_covers
    (times_0_7 : Z → Q) (text : str) (chunk_size overlap : Z) :
  (0 ≤ overlap < chunk_size)%Z →
  (inject_Z overlap <= times_0_7 chunk_size)%Q →
  ((Z.of_nat (length text) ≤ chunk_size)%Z →
   ∀ fuel, _chunk_text times_0_7 fuel text chunk_size overlap = Some [text])
  ∧ ((chunk_size < Z.of_nat (length text))%Z →
     ∃ rs,
       (∀ fuel, (length text < fuel)%nat →
                _chunk_text times_0_7 fuel text chunk_size overlap
                = Some ((fun r => Py.strip (py_slice text r.1 r.2)) <$> rs))
       ∧ Forall (fun r => (0 ≤ r.1 < Z.of_nat (length text))%Z
                          ∧ (r.1 + overlap < r.2 ≤ r.1 + chunk_size)%Z) rs
       ∧ (∀ i, (0 ≤ i < Z.of_nat (length text))%Z →
               ∃ r, r ∈ rs ∧ (r.1 ≤ i < r.2)%Z)
       ∧ (∀ k r r', rs !! k = Some r → rs !! S k = Some r' →
                    r'.1 = (r.2 - overlap)%Z)
       ∧ (∀ r, rs !! 0%nat = Some r → r.1 = 0%Z)).
Proof.
  intros Hov Ht. split.
  - intros Hshort fuel. unfold _chunk_text. by rewrite decide_True.
  - intros Hlong.
    destruct (chunk_ranges_total times_0_7 (S (length text)) text chunk_size
                overlap 0 Hov Ht) as [rs Hrs]; [lia|].
    exists rs. split.
    + intros fuel Hfuel. unfold _chunk_text. rewrite decide_False by lia.
      rewrite chunk_loop_ranges by (done || lia).
      by rewrite (chunk_ranges_more times_0_7 (S (length text)) fuel _ _ _ _ rs)
        by (done || lia).
    + by apply (chunk_ranges_spec times_0_7 (S (length text)) text chunk_size
                  overlap 0 rs).
Qed.

Lemma chunk_text_covers_witness :
  (0 ≤ 200 < 2000)%Z
  ∧ (inject_Z 200 <= exact_times_0_7 2000)%Q
  ∧ _chunk_text exact_times_0_7 0 (Py.lit " short text ") 2000 200
    = Some [Py.lit " short text "]
  ∧ (2000 < Z.of_nat (length (replicate 2001 97)))%Z
  ∧ ∃ rs,
      (∀ fuel, (length (replicate 2001 97) < fuel)%nat →
               _chunk_text exact_times_0_7 fuel (replicate 2001 97) 2000 200
               = Some ((fun r => Py.strip (py_slice (replicate 2001 97) r.1 r.2))
                         <$> rs))
      ∧ (∀ i, (0 ≤ i < Z.of_nat (length (replicate 2001 97)))%Z →
              ∃ r, r ∈ rs ∧ (r.1 ≤ i < r.2)%Z).
Proof.
  assert (0 ≤ 200 < 2000)%Z as H1 by lia.
  assert (inject_Z 200 <= exact_times_0_7 2000)%Q as H2 by (by vm_compute).
  assert (2000 < Z.of_nat (length (replicate 2001 97)))%Z as H3
    by (rewrite length_replicate; lia).
  split; [exact H1|]. split; [exact H2|]. split; [|split; [exact H3|]].
  - apply (proj1 (chunk_text_covers exact_times_0_7 (Py.lit " short text ")
                    2000 200 H1 H2)).
    vm_compute. by intros [=].
  - destruct (proj2 (chunk_text_covers exact_times_0_7 (replicate 2001 97)
                       2000 200 H1 H2) H3) as (rs & G1 & _ & G2 & _).
    exists rs. by split.
Defined.

(** X25.  [_chunk_text] with an overlap that is not below the chunk size
    does not end on a text longer than the chunk size: [start] never gets
    past 0, so the loop appends chunks for ever. *)
Theorem chunk_text_diverges
    (times_0_7 : Z → Q) (text : str) (chunk_size overlap : Z) (fuel : nat) :
  (0 ≤ chunk_size ≤ overlap)%Z →
  (chunk_size < Z.of_nat (length text))%Z →
  _chunk_text times_0_7 fuel text chunk_size overlap = None.
Proof.
  intros Hcs Hlong. unfold _chunk_text. rewrite decide_False by lia.
  apply chunk_loop_diverges; lia.
Qed.

Lemma chunk_text_diverges_witness :
  (0 ≤ 2 ≤ 2)%Z
  ∧ (2 < Z.of_nat (length (Py.lit "abc")))%Z
  ∧ _chunk_text exact_times_0_7 1000 (Py.lit "abc") 2 2 = None.
Proof.
  assert (0 ≤ 2 ≤ 2)%Z as H1 by lia.
  assert (2 < Z.of_nat (length (Py.lit "abc")))%Z as H2 by (by vm_compute).
  split; [exact H1|]. split; [exact H2|].
  exact (chunk_text_diverges exact_times_0_7 (Py.lit "abc") 2 2 1000 H1 H2).
Defined.

(** ** From ingestion to linking *)



















(** ** The debugger in the shared-neighbour pass *)

Section DebuggerFacts.

Variable float_of_str : str → option Q.
Variable DEBUG : bool.
Variable complete_json : Node → Node → list Node → list Node → option json.
Variable set_trace : uuid → uuid → bool.

Lemma pruned_2_inner_left pl ctx_c ctx_m paper_id src_node s dst_id :
  left_after_last_call set_trace s →
  left_after_last_call set_trace
    (pruned_2_inner float_of_str DEBUG complete_json set_trace pl ctx_c ctx_m
       paper_id src_node s dst_id).
Proof.
  intros Hs. unfold pruned_2_inner.
  destruct (lk_raised s) eqn:Hraised; [done|].
  repeat case_match; try done.
  match goal with
  | |- context [compare_break_and_store _ _ _ _ ?c ?m ?a ?b ?s0] =>
      destruct (compare_break_and_store_cases float_of_str DEBUG complete_json
                  set_trace c m a b s0) as [(-> & _ & Hno)|(-> & _)]
  end.
  - intros _. eexists. cbn [calls]. rewrite last_snoc. by split.
  - done.
Qed.

Lemma link_pruned_2_left st :
  left_after_last_call set_trace
    (link_cross_paper_relationships_pruned_2 float_of_str DEBUG complete_json
       set_trace st).
Proof.
  unfold link_cross_paper_relationships_pruned_2.
  case_match; [done|].
  apply foldl_invariant; [|done].
  intros s paper_id _ Hs. unfold pruned_2_outer. repeat case_match; try done.
  apply foldl_invariant; [|done].
  intros s' dst_id _. apply pruned_2_inner_left.
Qed.

End DebuggerFacts.

(** X27.  The debugger of the shared-neighbour pass can end the pass: a pass
    that an exception has left was left right after it handed a pair to
    [_compare_papers], by a debugger that raised for that pair.  On the
    corpus [five_papers], with a language model whose calls fail and a
    debugger that raises, the pass is left after the first pair: one pair is
    handed over, not two, no edge is counted and the store is as before. *)
Theorem debugger_ends_shared_neighbor_pass
    (float_of_str : str → option Q) (DEBUG : bool)
    (complete_json : Node → Node → list Node → list Node → option json)
    (set_trace : uuid → uuid → bool) (st : Store) :
  (lk_raised (link_cross_paper_relationships_pruned_2 float_of_str DEBUG
                complete_json set_trace st) = true →
   ∃ pq, last (calls (link_cross_paper_relationships_pruned_2 float_of_str DEBUG
                        complete_json set_trace st)) = Some pq
         ∧ set_trace pq.1 pq.2 = false)
  ∧ lk_raised (link_cross_paper_relationships_pruned_2 no_float false
                 failing_model debugger_raises five_papers) = true
  ∧ length (calls (link_cross_paper_relationships_pruned_2 no_float false
                     failing_model debugger_raises five_papers)) = 1%nat
  ∧ lk_edges_created (link_cross_paper_relationships_pruned_2 no_float false
                        failing_model debugger_raises five_papers) = 0%nat
  ∧ lk_store (link_cross_paper_relationships_pruned_2 no_float false
                failing_model debugger_raises five_papers) = five_papers.
Proof.
  split; [apply link_pruned_2_left|].
  split_and!; by vm_compute.
Qed.

Lemma debugger_ends_shared_neighbor_pass_witness :
  lk_raised (link_cross_paper_relationships_pruned_2 no_float false
               failing_model debugger_raises five_papers) = true
  ∧ ∃ pq, last (calls (link_cross_paper_relationships_pruned_2 no_float false
                         failing_model debugger_raises five_papers)) = Some pq
          ∧ debugger_raises pq.1 pq.2 = false.
Proof.
  assert (lk_raised (link_cross_paper_relationships_pruned_2 no_float false
                       failing_model debugger_raises five_papers) = true) as H
    by (vm_compute; reflexivity).
  split; [exact H|].
  exact (proj1 (debugger_ends_shared_neighbor_pass no_float false failing_model
                  debugger_raises five_papers) H).
Defined.

(** ** Documents without a title or an abstract *)

(** X28.  A document whose title or abstract is [null] is not ingested: the
    constructor [Node] or the constructor [PaperMetadata] raises and leaves
    [ingest_paper], whatever the store and the extraction result are.  With
    a [null] title nothing is written.  With a title and a [null] abstract
    the paper node is already written when the exception is raised: it stays
    in the store, without a row in [papers] and without an edge.  A document
    that lacks the two keys is ingested under the titles Unknown Paper and
    Unknown. *)
Theorem null_title_or_abstract_raises
    (st : Store) (doc : Ingested) (r : EntityExtractionResult) :
  (md_title doc = Null ∨ md_abstract doc = Null → ingest_paper st doc r = None)
  ∧ (md_title doc = Null → ingest_paper_raised st doc = st)
  ∧ (reachable st → md_title doc ≠ Null →
     nodes (ingest_paper_raised st doc) = nodes st ++ [stored_paper_node st doc]
     ∧ edges (ingest_paper_raised st doc) = edges st
     ∧ papers (ingest_paper_raised st doc) = papers st)
  ∧ ingest_paper empty_store untitled_doc (one_metric "PSNR") = None
  ∧ ∃ st' summary,
      ingest_paper empty_store
        (mkIngested Absent Absent None Absent Absent Absent [] [])
        (one_metric "PSNR") = Some (st', summary)
      ∧ (fun n => (node_type n, node_label n)) <$> nodes st'
        = [(Py.lit "paper", Py.lit "Unknown Paper");
           (Py.lit "metric", Py.lit "PSNR")]
      ∧ paper_title <$> papers st' = [Py.lit "Unknown"].
Proof.
  split_and!.
  - intros Hnull. rewrite ingest_paper_unfold. unfold accepted.
    destruct Hnull as [->| ->]; [done|]. by destruct (md_title doc).
  - intros Hnull. unfold ingest_paper_raised, _create_paper_node.
    by rewrite Hnull.
  - intros Hreach Htitle. pose proof (reachable_inv _ Hreach) as Hinv.
    pose proof (create_node_fresh st (next_id st) (Py.lit "paper")) as Hfresh.
    unfold ingest_paper_raised, _create_paper_node, new_Node, uuid4,
      stored_paper_node, sanitize_node_data, paper_node_of in *.
    cbn [snd node_id node_type node_label node_properties] in *.
    destruct (md_title doc) as [| |title]; [|done|];
      cbn [sanitized_or title_or mbind option_bind];
      by rewrite Hfresh by done.
  - by vm_compute.
  - eexists _, _. split; [vm_compute; reflexivity|]. by vm_compute.
Qed.

Lemma null_title_or_abstract_raises_witness :
  (md_title untitled_doc = Null ∨ md_abstract untitled_doc = Null)
  ∧ ingest_paper psnr_once untitled_doc (one_metric "PSNR") = None
  ∧ reachable psnr_once
  ∧ md_title abstractless_doc ≠ Null
  ∧ nodes (ingest_paper_raised psnr_once abstractless_doc)
    = nodes psnr_once ++ [stored_paper_node psnr_once abstractless_doc].
Proof.
  assert (md_title untitled_doc = Null ∨ md_abstract untitled_doc = Null) as H
    by (left; reflexivity).
  assert (reachable psnr_once) as Hreach
    by apply ingested_reachable, reachable_empty.
  assert (md_title abstractless_doc ≠ Null) as Htitle by done.
  destruct (null_title_or_abstract_raises psnr_once untitled_doc
              (one_metric "PSNR")) as (G1 & _).
  destruct (null_title_or_abstract_raises psnr_once abstractless_doc
              (one_metric "PSNR")) as (_ & _ & G3 & _).
  split_and!; [exact H|exact (G1 H)|exact Hreach|exact Htitle|].
  exact (proj1 (G3 Hreach Htitle)).
Defined.
